(** * Project Inspector: analysis core

    A shallow embedding of the analysis agents of the inspector
    (repo-indexer, feature grouper, impact analyzer, quality analyzer and
    duplication analyzer) together with the properties of their outputs.

    Conventions of the embedding.
    - A JavaScript string is a [string]; one [ascii] stands for one code
      unit.  [toLowerCase] and [trim] are modelled on that alphabet.
    - A JavaScript [Map] or [Set] iterates in insertion order, so a [Map]
      is an association list with unique keys kept in insertion order and
      a [Set] is a duplicate-free list kept in insertion order.
    - Counters ([size], [length], commit counts, complexity) are [nat].
    - A JavaScript number that takes part in arithmetic is an IEEE-754
      binary64 value, [spec_float] at precision 53; the result of
      [Math.round], an integer, is a [Z].
    - [node:path] is the POSIX flavour. *)

From Stdlib Require Import String Ascii List Bool Arith ZArith Lia.
From Stdlib Require Import Permutation Sorted SpecFloat.
Import ListNotations.

Set Implicit Arguments.

Local Open Scope list_scope.
Local Open Scope string_scope.

(* ================================================================== *)
(** * JavaScript strings                                               *)
(* ================================================================== *)

Module Js.

(** [s.startsWith(p)] *)
Definition startsWith (s p : string) : bool := String.prefix p s.

(** [s.slice(n)] for [0 <= n] *)
Fixpoint drop (n : nat) (s : string) : string :=
  match n, s with
  | O, _ => s
  | S n', String _ s' => drop n' s'
  | S _, EmptyString => EmptyString
  end.

(** [s.endsWith(p)] *)
Definition endsWith (s p : string) : bool :=
  (String.length p <=? String.length s)%nat
  && String.eqb (drop (String.length s - String.length p) s) p.

(** [s.includes(p)] *)
Fixpoint includes (s p : string) : bool :=
  String.prefix p s
  || match s with
     | EmptyString => false
     | String _ s' => includes s' p
     end.

(** A string is truthy when it is not empty. *)
Definition truthy (s : string) : bool := negb (String.eqb s "").

(** [s.split(sep)] for a one-character separator: never empty. *)
Fixpoint split (sep : ascii) (s : string) : list string :=
  match s with
  | EmptyString => [EmptyString]
  | String c s' =>
      if Ascii.eqb c sep then EmptyString :: split sep s'
      else match split sep s' with
           | [] => [String c EmptyString]
           | h :: t => String c h :: t
           end
  end.

(** [parts.join(sep)] *)
Fixpoint join (sep : string) (parts : list string) : string :=
  match parts with
  | [] => EmptyString
  | [p] => p
  | p :: rest => p ++ sep ++ join sep rest
  end.

(** Expansion of a replacement template of [String.prototype.replace]
    when the pattern is a string: [$$], [$&], [$`] and [$'] are the only
    active forms (there are no captures). *)
Fixpoint getSubstitution (matched preceding following template : string)
  : string :=
  match template with
  | EmptyString => EmptyString
  | String c rest =>
      if Ascii.eqb c "$" then
        match rest with
        | String d rest' =>
            if Ascii.eqb d "$" then
              String "$" (getSubstitution matched preceding following rest')
            else if Ascii.eqb d "&" then
              matched ++ getSubstitution matched preceding following rest'
            else if Ascii.eqb d "`" then
              preceding ++ getSubstitution matched preceding following rest'
            else if Ascii.eqb d "'" then
              following ++ getSubstitution matched preceding following rest'
            else
              String c (getSubstitution matched preceding following rest)
        | EmptyString => String c EmptyString
        end
      else String c (getSubstitution matched preceding following rest)
  end.

(** [s.replace(pat, template)] with a string pattern: the first
    occurrence only.  [before] accumulates what precedes the position
    under test. *)
Fixpoint replaceFrom (before : string) (s pat template : string) : string :=
  if String.prefix pat s then
    let following := drop (String.length pat) s in
    before ++ getSubstitution pat before following template ++ following
  else
    match s with
    | EmptyString => before
    | String c s' => replaceFrom (before ++ String c EmptyString) s' pat template
    end.

Definition replace (s pat template : string) : string :=
  replaceFrom EmptyString s pat template.

(** [s.replace(/\/$/, '')] *)
Fixpoint stripTrailingSlash (s : string) : string :=
  match s with
  | EmptyString => EmptyString
  | String c s' =>
      if Ascii.eqb c "/" && String.eqb s' "" then EmptyString
      else String c (stripTrailingSlash s')
  end.

Fixpoint hasDot (s : string) : bool :=
  match s with
  | EmptyString => false
  | String c s' => Ascii.eqb c "." || hasDot s'
  end.

(** [s.replace(/\.[^.]+$/, '')]: the match starts at the last dot and
    needs at least one character after it. *)
Fixpoint stripExtension (s : string) : string :=
  match s with
  | EmptyString => EmptyString
  | String c s' =>
      if Ascii.eqb c "." && negb (hasDot s') && negb (String.eqb s' "")
      then EmptyString
      else String c (stripExtension s')
  end.

(** [s.replace(/\\/g, '/')] *)
Fixpoint backslashesToSlashes (s : string) : string :=
  match s with
  | EmptyString => EmptyString
  | String c s' =>
      String (if Ascii.eqb c "\" then "/"%char else c) (backslashesToSlashes s')
  end.

Definition lowerChar (c : ascii) : ascii :=
  let n := nat_of_ascii c in
  if (65 <=? n)%nat && (n <=? 90)%nat then ascii_of_nat (n + 32) else c.

(** [s.toLowerCase()] *)
Fixpoint toLowerCase (s : string) : string :=
  match s with
  | EmptyString => EmptyString
  | String c s' => String (lowerChar c) (toLowerCase s')
  end.

Definition isWhite (c : ascii) : bool :=
  let n := nat_of_ascii c in
  ((9 <=? n)%nat && (n <=? 13)%nat) || (n =? 32)%nat || (n =? 160)%nat.

Fixpoint trimStart (s : string) : string :=
  match s with
  | EmptyString => EmptyString
  | String c s' => if isWhite c then trimStart s' else s
  end.

Fixpoint allWhite (s : string) : bool :=
  match s with
  | EmptyString => true
  | String c s' => isWhite c && allWhite s'
  end.

Fixpoint trimEnd (s : string) : string :=
  match s with
  | EmptyString => EmptyString
  | String c s' => if allWhite s then EmptyString else String c (trimEnd s')
  end.

(** [s.trim()] *)
Definition trim (s : string) : string := trimEnd (trimStart s).

(** [Set.has] / [Array.includes] on strings. *)
Definition has (xs : list string) (x : string) : bool :=
  existsb (String.eqb x) xs.

(** [Set.add] *)
Definition add (xs : list string) (x : string) : list string :=
  if has xs x then xs else (xs ++ [x])%list.

(** [Map.get], [Map.has], [Map.set] on an insertion-ordered map. *)
Fixpoint get {V : Type} (m : list (string * V)) (k : string) : option V :=
  match m with
  | [] => None
  | (k', v) :: rest => if String.eqb k' k then Some v else get rest k
  end.

Definition hasKey {V : Type} (m : list (string * V)) (k : string) : bool :=
  match get m k with Some _ => true | None => false end.

Fixpoint set {V : Type} (m : list (string * V)) (k : string) (v : V)
  : list (string * V) :=
  match m with
  | [] => [(k, v)]
  | (k', v') :: rest =>
      if String.eqb k' k then (k, v) :: rest else (k', v') :: set rest k v
  end.

(** Mutation of the object stored under [k] (the source writes
    [m.get(k)!.field.push(..)]). *)
Definition modify {V : Type} (m : list (string * V)) (k : string)
  (f : V -> V) : list (string * V) :=
  match get m k with
  | Some v => set m k (f v)
  | None => m
  end.

Definition keys {V : Type} (m : list (string * V)) : list string :=
  map fst m.

Definition values {V : Type} (m : list (string * V)) : list V :=
  map snd m.

End Js.

(* ================================================================== *)
(** * node:path (POSIX)                                                *)
(* ================================================================== *)

Module Path.

(** One step of [normalizeString]: [stack] holds the kept segments,
    most recent first. *)
Definition pushSegment (allowAboveRoot : bool) (stack : list string)
  (seg : string) : list string :=
  if String.eqb seg "" || String.eqb seg "." then stack
  else if String.eqb seg ".." then
    match stack with
    | top :: below =>
        if String.eqb top ".." then seg :: stack else below
    | [] => if allowAboveRoot then [seg] else []
    end
  else seg :: stack.

Definition normalizeString (p : string) (allowAboveRoot : bool) : string :=
  Js.join "/" (rev (fold_left (pushSegment allowAboveRoot)
                              (Js.split "/" p) [])).

(** [path.normalize] *)
Definition normalize (p : string) : string :=
  if String.eqb p "" then "." else
  let isAbsolute := Js.startsWith p "/" in
  let trailingSeparator := Js.endsWith p "/" in
  let q := normalizeString p (negb isAbsolute) in
  if String.eqb q "" then
    if isAbsolute then "/" else if trailingSeparator then "./" else "."
  else
    let q := if trailingSeparator then q ++ "/" else q in
    if isAbsolute then "/" ++ q else q.

(** [path.join(a, b)] *)
Definition join (a b : string) : string :=
  let joined :=
    if String.eqb a "" then b
    else if String.eqb b "" then a
    else a ++ "/" ++ b in
  if String.eqb joined "" then "." else normalize joined.

(** Scan of [dirname], from the right end down to index 1: [rs] is the
    reversed path without its first character; the result is the number
    of characters, counted from the right, that are cut off
    ([None]: no separator found). *)
Fixpoint dirnameCut (rs : list ascii) (matchedSlash : bool) (n : nat)
  : option nat :=
  match rs with
  | [] => None
  | c :: rest =>
      if Ascii.eqb c "/" then
        if matchedSlash then dirnameCut rest true (S n) else Some (S n)
      else dirnameCut rest false (S n)
  end.

(** [path.dirname] *)
Definition dirname (p : string) : string :=
  match p with
  | EmptyString => "."
  | String c0 tail =>
      let hasRoot := Ascii.eqb c0 "/" in
      match dirnameCut (rev (list_ascii_of_string tail)) true 0 with
      | None => if hasRoot then "/" else "."
      | Some cut =>
          let theEnd := String.length p - cut in
          if hasRoot && (theEnd =? 1)%nat then "//"
          else String.substring 0 theEnd p
      end
  end.

Fixpoint dropSlashes (rs : list ascii) : list ascii :=
  match rs with
  | c :: rest => if Ascii.eqb c "/" then dropSlashes rest else rs
  | [] => []
  end.

Fixpoint takeSegment (rs : list ascii) : list ascii :=
  match rs with
  | c :: rest => if Ascii.eqb c "/" then [] else c :: takeSegment rest
  | [] => []
  end.

(** [path.basename] without suffix. *)
Definition basename (p : string) : string :=
  string_of_list_ascii
    (rev (takeSegment (dropSlashes (rev (list_ascii_of_string p))))).

End Path.

(* ================================================================== *)
(** * Shared types                                                     *)
(* ================================================================== *)

Inductive Language := typescript | javascript | vue | css | json | other.

Record FileNode := mkFileNode {
  path : string;
  relativePath : string;
  extension : string;
  loc : nat;
  language : Language;
  package : string }.

Record ImportEdge := mkImportEdge {
  source : string;
  target : string;
  specifiers : list string;
  isDefault : bool;
  isDynamic : bool }.

Record GitChurn := mkGitChurn {
  churnFile : string;
  commitCount : nat;
  authorCount : nat;
  lastModified : string;
  coChangedWith : list string }.

Record DetectedPackage := mkDetectedPackage {
  dir : string;
  framework : string }.

Record ProjectConfig := mkProjectConfig {
  packages : list DetectedPackage;
  aliases : list (string * string);
  conventionPaths : list string }.

(* ================================================================== *)
(** * Repo indexer: import resolution                                  *)
(* ================================================================== *)

Module Indexer.

Definition extensions : list string :=
  [".ts"; ".tsx"; ".js"; ".jsx"; ".vue"; ".svelte"; ".mjs";
   "/index.ts"; "/index.tsx"; "/index.js"; "/index.jsx"; "/index.vue"].

Definition aliasMatches (importPath alias : string) : bool :=
  let cleanAlias := Js.stripTrailingSlash alias in
  Js.startsWith importPath (cleanAlias ++ "/") || String.eqb importPath cleanAlias.

(** The alias loop: the first entry that matches rewrites the path and
    the loop breaks. *)
Fixpoint applyAliases (importPath : string) (entries : list (string * string))
  : string :=
  match entries with
  | [] => importPath
  | (alias, target) :: rest =>
      if aliasMatches importPath alias then
        Js.replace importPath (Js.stripTrailingSlash alias)
                   (Js.stripTrailingSlash target)
      else applyAliases importPath rest
  end.

Definition resolvedPathOf (importPath fromFile : string)
  (aliases : list (string * string)) : string :=
  let resolvedPath := applyAliases importPath aliases in
  if Js.startsWith resolvedPath "." then
    Js.backslashesToSlashes (Path.join (Path.dirname fromFile) resolvedPath)
  else resolvedPath.

(** The loop over [extensions]. *)
Fixpoint probe (files : list string) (resolvedPath : string)
  (exts : list string) : option string :=
  match exts with
  | [] => None
  | ext :: rest =>
      let candidate := resolvedPath ++ ext in
      if Js.has files candidate then Some candidate
      else probe files resolvedPath rest
  end.

(** [resolveImportPath]; [files] are the keys of [store.files] and
    [aliases] is [Object.entries(aliases)]. *)
Definition resolveImportPath (importPath fromFile : string)
  (files : list string) (aliases : list (string * string)) : option string :=
  let isRelative := Js.startsWith importPath "." || Js.startsWith importPath "/" in
  let isAliased :=
    existsb (fun prefix => Js.startsWith importPath (Js.stripTrailingSlash prefix))
            (Js.keys aliases) in
  if negb isRelative && negb isAliased then None
  else
    let resolvedPath := resolvedPathOf importPath fromFile aliases in
    if Js.has files resolvedPath then Some resolvedPath
    else
      match probe files resolvedPath extensions with
      | Some candidate => Some candidate
      | None =>
          let withoutExt := Js.stripExtension resolvedPath in
          if Js.has files withoutExt then Some withoutExt else None
      end.

(** The probing order as the specification words it: the exact path, the
    path plus each known source extension, the path plus [/index] plus
    each extension, the path with its own extension stripped. *)
Definition knownExtensions : list string :=
  [".ts"; ".tsx"; ".js"; ".jsx"; ".vue"; ".svelte"; ".mjs"].

(** "Its own extension" in the words of the specification: the extension
    of the last segment of the path. *)
Definition specStripExtension (p : string) : string :=
  match rev (Js.split "/" p) with
  | name :: dirs => Js.join "/" (rev (Js.stripExtension name :: dirs))
  | [] => p
  end.

Definition specCandidates (p : string) : list string :=
  ([p] ++ map (String.append p) knownExtensions
       ++ map (fun e => String.append p (String.append "/index" e)) knownExtensions
       ++ [specStripExtension p])%list.

(** "Relative or alias-prefixed" in the words of the specification: the
    specifier starts with a dot, a slash or a key of the alias table. *)
Definition specInternal (importPath : string) (aliases : list (string * string))
  : bool :=
  Js.startsWith importPath "." || Js.startsWith importPath "/"
  || existsb (Js.startsWith importPath) (Js.keys aliases).

(** The probing order of the code. *)
Definition indexExtensions : list string :=
  [".ts"; ".tsx"; ".js"; ".jsx"; ".vue"].

Definition candidates (p : string) : list string :=
  ([p] ++ map (String.append p) knownExtensions
       ++ map (fun e => String.append p (String.append "/index" e)) indexExtensions
       ++ [Js.stripExtension p])%list.

Definition firstPresent (files : list string) (cands : list string)
  : option string :=
  find (Js.has files) cands.

(** ** Building the import graph *)

Section ImportGraph.

(** [extractImports(codeContent, rel)] for an indexed file: its raw
    edges, whose targets are the import paths as written. *)
Variable rawImports : string -> FileNode -> list ImportEdge.

(** The body of the inner loop: [{ ...edge, target: resolved }] is
    pushed when the path resolves. *)
Definition pushResolved (fileKeys : list string)
  (aliases : list (string * string)) (rel : string)
  (graph : list ImportEdge) (edge : ImportEdge) : list ImportEdge :=
  match resolveImportPath (target edge) rel fileKeys aliases with
  | Some resolved =>
      if Js.truthy resolved then
        (graph ++ [ {| source := source edge; target := resolved;
                       specifiers := specifiers edge;
                       isDefault := isDefault edge;
                       isDynamic := isDynamic edge |} ])%list
      else graph
  | None => graph
  end.

(** The loop over [store.files]; [previous] is [store.importGraph]
    before the loop. *)
Definition buildImportGraph (files : list (string * FileNode))
  (aliases : list (string * string)) (previous : list ImportEdge)
  : list ImportEdge :=
  fold_left (fun graph entry =>
               fold_left (pushResolved (Js.keys files) aliases (fst entry))
                         (rawImports (fst entry) (snd entry)) graph)
            files previous.

End ImportGraph.

End Indexer.


(* ================================================================== *)
(** * Git history (git-utils)                                          *)
(* ================================================================== *)

Module Git.

(** The state of the first loop over the lines of the log. *)
Record Counting := mkCounting {
  currentCommit : string;
  currentDate : string;
  commitFiles : list (string * list string);
  churns : list (string * GitChurn) }.

Definition startCounting : Counting :=
  {| currentCommit := ""; currentDate := ""; commitFiles := []; churns := [] |}.

(** [churn.commitCount++] and the update of [lastModified]. *)
Definition countCommit (date : string) (churn : GitChurn) : GitChurn :=
  {| churnFile := churnFile churn;
     commitCount := commitCount churn + 1;
     authorCount := authorCount churn;
     lastModified :=
       if negb (Js.truthy (lastModified churn))
          || String.ltb (lastModified churn) date
       then date else lastModified churn;
     coChangedWith := coChangedWith churn |}.

Definition countLine (st : Counting) (line : string) : Counting :=
  if Js.startsWith line "COMMIT:" then
    let parts := Js.split ":" line in
    let commit := nth 1 parts "" in
    {| currentCommit := commit;
       currentDate := Js.join ":" (skipn 3 parts);
       commitFiles := Js.set (commitFiles st) commit [];
       churns := churns st |}
  else if Js.truthy (Js.trim line) && Js.truthy (currentCommit st) then
    let file := Js.trim line in
    let known :=
      if Js.hasKey (churns st) file then churns st
      else Js.set (churns st) file
             {| churnFile := file; commitCount := 0; authorCount := 0;
                lastModified := currentDate st; coChangedWith := [] |} in
    {| currentCommit := currentCommit st;
       currentDate := currentDate st;
       commitFiles :=
         Js.modify (commitFiles st) (currentCommit st)
                   (fun files => (files ++ [file])%list);
       churns := Js.modify known file (countCommit (currentDate st)) |}
  else st.

(** The second loop: the set of authors of each file.  An author is
    [None] when the header line has no third field ([parts[2]] is
    [undefined]). *)
Record Authoring := mkAuthoring {
  prevCommit : string;
  prevAuthor : option string;
  fileAuthors : list (string * list (option string)) }.

Definition startAuthoring : Authoring :=
  {| prevCommit := ""; prevAuthor := Some ""; fileAuthors := [] |}.

Definition sameAuthor (a b : option string) : bool :=
  match a, b with
  | Some x, Some y => String.eqb x y
  | None, None => true
  | _, _ => false
  end.

Definition addAuthor (authors : list (option string)) (a : option string)
  : list (option string) :=
  if existsb (sameAuthor a) authors then authors else (authors ++ [a])%list.

Definition authorLine (st : Authoring) (line : string) : Authoring :=
  if Js.startsWith line "COMMIT:" then
    let parts := Js.split ":" line in
    {| prevCommit := nth 1 parts ""; prevAuthor := nth_error parts 2;
       fileAuthors := fileAuthors st |}
  else if Js.truthy (Js.trim line) && Js.truthy (prevCommit st) then
    let file := Js.trim line in
    let known :=
      if Js.hasKey (fileAuthors st) file then fileAuthors st
      else Js.set (fileAuthors st) file [] in
    {| prevCommit := prevCommit st; prevAuthor := prevAuthor st;
       fileAuthors :=
         Js.modify known file (fun authors => addAuthor authors (prevAuthor st)) |}
  else st.

Definition setAuthorCount (churns : list (string * GitChurn))
  (entry : string * list (option string)) : list (string * GitChurn) :=
  Js.modify churns (fst entry)
    (fun churn =>
       {| churnFile := churnFile churn; commitCount := commitCount churn;
          authorCount := List.length (snd entry);
          lastModified := lastModified churn;
          coChangedWith := coChangedWith churn |}).

(** The third loop: files of the same commit. *)
Definition addCoChange (f : string) (coChanged : list string) (other : string)
  : list string :=
  if negb (String.eqb other f) && negb (Js.has coChanged other)
  then (coChanged ++ [other])%list else coChanged.

Definition coChangeFile (files : list string)
  (churns : list (string * GitChurn)) (f : string)
  : list (string * GitChurn) :=
  match Js.get churns f with
  | None => churns
  | Some churn =>
      let pushed := fold_left (addCoChange f) files (coChangedWith churn) in
      let capped :=
        if (50 <? List.length pushed)%nat then firstn 50 pushed else pushed in
      Js.set churns f
        {| churnFile := churnFile churn; commitCount := commitCount churn;
           authorCount := authorCount churn;
           lastModified := lastModified churn;
           coChangedWith := capped |}
  end.

Definition coChangeCommit (churns : list (string * GitChurn))
  (entry : string * list string) : list (string * GitChurn) :=
  let files := snd entry in
  if (List.length files <? 2)%nat || (20 <? List.length files)%nat then churns
  else fold_left (coChangeFile files) files churns.

(** [getFileChurns]; [logOutput] is what [git log] printed (empty when
    the command failed). *)
Definition getFileChurns (logOutput : string) : list (string * GitChurn) :=
  if negb (Js.truthy logOutput) then []
  else
    let lines := Js.split (ascii_of_nat 10) logOutput in
    let counted := fold_left countLine lines startCounting in
    let authored := fold_left authorLine lines startAuthoring in
    let withAuthors :=
      fold_left setAuthorCount (fileAuthors authored) (churns counted) in
    fold_left coChangeCommit (commitFiles counted) withAuthors.

End Git.

(* ================================================================== *)
(** * Auto-detection of the project configuration                      *)
(* ================================================================== *)

Module AutoDetect.

Section ConventionPaths.

(** [existsSync(join(rootDir, pkg.dir, dir))] *)
Variable existsDir : string -> string -> bool.

(** The convention directories looked for in a package. *)
Definition conventionDirs (framework : string) : list string :=
  if Js.startsWith framework "nuxt" then
    ["pages"; "layouts"; "middleware"; "plugins"; "mixins"; "store";
     "composables"]
  else if String.eqb framework "next" then ["app"; "pages"; "middleware"]
  else if String.eqb framework "angular" then ["src/app"]
  else if String.eqb framework "sveltekit" then ["src/routes"; "src/lib"]
  else [].

Definition prefixOf (pkg : DetectedPackage) : string :=
  if String.eqb (dir pkg) "." then "" else dir pkg ++ "/".

Definition discoverConventionPaths (packages : list DetectedPackage)
  : list string :=
  fold_left
    (fun paths pkg =>
       fold_left
         (fun paths d =>
            if existsDir (dir pkg) d
            then (paths ++ [String.append (prefixOf pkg) (String.append d "/")])%list else paths)
         (conventionDirs (framework pkg)) paths)
    packages [].

End ConventionPaths.

End AutoDetect.

(* ================================================================== *)
(** * JavaScript numbers                                               *)
(* ================================================================== *)

Module Num.

Definition prec : Z := 53.
Definition emax : Z := 1024.

Definition number := spec_float.

(** The number denoted by an integer. *)
Definition ofZ (z : Z) : number := binary_normalize prec emax z 0 false.
Definition ofNat (n : nat) : number := ofZ (Z.of_nat n).

Definition add : number -> number -> number := SFadd prec emax.
Definition mul : number -> number -> number := SFmul prec emax.
Definition div : number -> number -> number := SFdiv prec emax.

(** A decimal literal [a/b], such as [0.35]: the nearest binary64. *)
Definition lit (a b : Z) : number := div (ofZ a) (ofZ b).

Definition ltb (x y : number) : bool := SFltb x y.

(** [Math.min(x, y)]: NaN is contagious and [-0] comes before [+0]. *)
Definition min (x y : number) : number :=
  match SFcompare x y with
  | None => S754_nan
  | Some Lt => x
  | Some Gt => y
  | Some Eq => match x with S754_zero true => x | _ => y end
  end.

(** [Math.round(x)]: the nearest integer, ties towards plus infinity.
    The results is exact; NaN and the infinities, which have no integer
    value, are sent to 0. *)
Definition round (x : number) : Z :=
  match x with
  | S754_finite s m e =>
      let n := if s then Zneg m else Zpos m in
      if (0 <=? e)%Z then (n * 2 ^ e)%Z
      else ((2 * n + 2 ^ (- e)) / 2 ^ (1 - e))%Z
  | _ => 0%Z
  end.

End Num.

(* ================================================================== *)
(** * Feature grouper                                                  *)
(* ================================================================== *)

Module Grouper.

Definition SHARED_DIRS : list string :=
  ["common"; "shared"; "utils"; "helpers"; "types"; "assets"; "styles";
   "static"; "public"; "test-utils"; "support"; "plugin"; "plugins";
   "middleware"; "layouts"; "composables"; "hooks"; "lib"; "config";
   "constants"; "interfaces"; "models"; "services"; "api"; "i18n";
   "locales"; "theme"; "__tests__"; "tests"; "test"; "mocks";
   "__mocks__"; "fixtures"; "cypress"; "e2e"; "node_modules";
   "dist"; "build"; "ag-grid"].

Definition FEATURE_CONTAINERS : list string :=
  ["src"; "components"; "features"; "modules"; "views"; "store";
   "pages"; "screens"; "app"; "sections"; "domains"; "patterns"].

Inductive SignalType :=
  folder | route | import_cluster | git_cochange | store_module.

Definition SignalType_eqb (a b : SignalType) : bool :=
  match a, b with
  | folder, folder | route, route | import_cluster, import_cluster
  | git_cochange, git_cochange | store_module, store_module => true
  | _, _ => false
  end.

Record FeatureSignal := mkSignal {
  type : SignalType;
  weight : Num.number;
  detail : string }.

(** A feature; the display name and the description, which are derived
    from [id] and read by no pass, are left out. *)
Record Feature := mkFeature {
  id : string;
  files : list string;
  entryPoints : list string;
  confidence : Num.number;
  signals : list FeatureSignal;
  isCrossCutting : bool }.

Definition createFeature (i : string) : Feature :=
  {| id := i; files := []; entryPoints := []; confidence := Num.ofZ 0;
     signals := []; isCrossCutting := false |}.

Definition pushFile (rel : string) (f : Feature) : Feature :=
  {| id := id f; files := (files f ++ [rel])%list;
     entryPoints := entryPoints f; confidence := confidence f;
     signals := signals f; isCrossCutting := isCrossCutting f |}.

Definition pushEntryPoint (rel : string) (f : Feature) : Feature :=
  {| id := id f; files := files f;
     entryPoints := (entryPoints f ++ [rel])%list; confidence := confidence f;
     signals := signals f; isCrossCutting := isCrossCutting f |}.

Definition pushSignal (s : FeatureSignal) (f : Feature) : Feature :=
  {| id := id f; files := files f;
     entryPoints := entryPoints f; confidence := confidence f;
     signals := (signals f ++ [s])%list; isCrossCutting := isCrossCutting f |}.

(** The two maps shared by the passes. *)
Record State := mkState {
  featureMap : list (string * Feature);
  fileToFeature : list (string * string) }.

Definition initial : State := {| featureMap := []; fileToFeature := [] |}.

Definition candidateOk (candidate : string) : bool :=
  negb (Js.has SHARED_DIRS (Js.toLowerCase candidate))
  && negb (Js.startsWith candidate ".").

(** The body of the loop over the detected packages. *)
Definition detectInPackage (filePath : string) (parts : list string)
  (pkg : DetectedPackage) : option string :=
  let pkgParts := Js.split "/" (dir pkg) in
  if negb (Js.startsWith filePath (dir pkg ++ "/")) then None
  else
    let innerParts := skipn (List.length pkgParts) parts in
    let first :=
      if (2 <=? List.length innerParts)%nat
         && Js.has FEATURE_CONTAINERS (nth 0 innerParts "")
      then
        let candidate := nth 1 innerParts "" in
        if candidateOk candidate then Some candidate else None
      else None in
    match first with
    | Some candidate => Some candidate
    | None =>
        if (3 <=? List.length innerParts)%nat
           && Js.has FEATURE_CONTAINERS (nth 0 innerParts "")
        then
          let sub := nth 1 innerParts "" in
          if Js.has FEATURE_CONTAINERS sub || String.eqb sub "patterns" then
            let candidate := nth 2 innerParts "" in
            if candidateOk candidate then Some candidate else None
          else None
        else None
    end.

Fixpoint detectInPackages (filePath : string) (parts : list string)
  (pkgs : list DetectedPackage) : option string :=
  match pkgs with
  | [] => None
  | pkg :: rest =>
      match detectInPackage filePath parts pkg with
      | Some candidate => Some candidate
      | None => detectInPackages filePath parts rest
      end
  end.

Definition detectFeatureFromPath (filePath : string)
  (config : option ProjectConfig) : option string :=
  let parts := Js.split "/" filePath in
  let pkgs := match config with Some c => packages c | None => [] end in
  match detectInPackages filePath parts pkgs with
  | Some candidate => Some candidate
  | None =>
      if (2 <=? List.length parts)%nat
         && Js.has FEATURE_CONTAINERS (nth 0 parts "")
      then
        let candidate := nth 1 parts "" in
        if candidateOk candidate then Some candidate else None
      else None
  end.

Definition detectFeatureFromRoute (filePath pagesPrefix : string)
  : option string :=
  let routePart := Js.replace filePath pagesPrefix "" in
  let parts := Js.split "/" routePart in
  let p0 := nth 0 parts "" in
  if Js.truthy p0 && negb (Js.startsWith p0 "_") && negb (Js.startsWith p0 ".")
  then
    let featureId := Js.stripExtension p0 in
    if Js.truthy featureId && negb (String.eqb featureId "index")
    then Some featureId else None
  else None.

(** ** Signal 1: folder structure *)

Definition signal1_file (config : option ProjectConfig) (st : State)
  (rel : string) : State :=
  match detectFeatureFromPath rel config with
  | Some featureId =>
      if Js.truthy featureId then
        let fm :=
          if Js.hasKey (featureMap st) featureId then featureMap st
          else Js.set (featureMap st) featureId (createFeature featureId) in
        let sig := {| type := folder; weight := Num.lit 35 100;
                      detail := "File path contains feature folder: " ++ featureId |} in
        {| featureMap :=
             Js.modify fm featureId (fun f => pushSignal sig (pushFile rel f));
           fileToFeature := Js.set (fileToFeature st) rel featureId |}
      else st
  | None => st
  end.

Definition signal1 (config : option ProjectConfig) (fileKeys : list string)
  (st : State) : State :=
  fold_left (signal1_file config) fileKeys st.

(** ** Signal 2: routes and pages *)

Definition pagesDirsOf (config : option ProjectConfig) : list string :=
  filter (fun p => Js.endsWith p "pages/" || Js.endsWith p "app/"
                   || Js.endsWith p "routes/")
         (match config with Some c => conventionPaths c | None => [] end).

Definition signal2_dir (rel : string) (st : State) (pagesDir : string)
  : State :=
  if negb (Js.startsWith rel pagesDir) then st
  else
    match detectFeatureFromRoute rel pagesDir with
    | Some routeFeature =>
        let sig := {| type := route; weight := Num.lit 30 100;
                      detail := "Page route: " ++ rel |} in
        if Js.hasKey (featureMap st) routeFeature then
          {| featureMap :=
               Js.modify (featureMap st) routeFeature
                 (fun f => pushSignal sig
                    (if Js.has (entryPoints f) rel then f
                     else pushEntryPoint rel f));
             fileToFeature := fileToFeature st |}
        else
          let fm :=
            if Js.hasKey (featureMap st) routeFeature then featureMap st
            else Js.set (featureMap st) routeFeature (createFeature routeFeature) in
          {| featureMap :=
               Js.modify fm routeFeature
                 (fun f => pushSignal sig (pushEntryPoint rel (pushFile rel f)));
             fileToFeature := Js.set (fileToFeature st) rel routeFeature |}
    | None => st
    end.

Definition signal2_file (pagesDirs : list string) (st : State) (rel : string)
  : State :=
  fold_left (signal2_dir rel) pagesDirs st.

Definition signal2 (config : option ProjectConfig) (fileKeys : list string)
  (st : State) : State :=
  fold_left (signal2_file (pagesDirsOf config)) fileKeys st.

(** ** Signal 3: import clusters *)

Definition truthyOpt (o : option string) : bool :=
  match o with Some s => Js.truthy s | None => false end.

Definition signal3_edge (st : State) (edge : ImportEdge) : State :=
  let sourceFeature := Js.get (fileToFeature st) (source edge) in
  let targetFeature := Js.get (fileToFeature st) (target edge) in
  match sourceFeature with
  | Some sf =>
      if Js.truthy sf && negb (truthyOpt targetFeature) then
        match Js.get (featureMap st) sf with
        | Some feature =>
            if negb (Js.has (files feature) (target edge)) then
              let sig := {| type := import_cluster; weight := Num.lit 20 100;
                            detail := "Imported by " ++ source edge
                                      ++ " (feature: " ++ sf ++ ")" |} in
              {| featureMap :=
                   Js.set (featureMap st) sf
                     (pushSignal sig (pushFile (target edge) feature));
                 fileToFeature := Js.set (fileToFeature st) (target edge) sf |}
            else st
        | None => st
        end
      else st
  | None => st
  end.

Definition signal3 (importGraph : list ImportEdge) (st : State) : State :=
  fold_left signal3_edge importGraph st.

(** ** Signal 4: git co-change *)

Definition signal4_cofile (fileKeys : list string) (file myFeature : string)
  (st : State) (coFile : string) : State :=
  if negb (Js.hasKey (fileToFeature st) coFile) && Js.has fileKeys coFile then
    match Js.get (featureMap st) myFeature with
    | Some feature =>
        if negb (Js.has (files feature) coFile) then
          let sig := {| type := git_cochange; weight := Num.lit 15 100;
                        detail := "Co-changed with " ++ file
                                  ++ " in git history" |} in
          {| featureMap :=
               Js.set (featureMap st) myFeature
                 (pushSignal sig (pushFile coFile feature));
             fileToFeature := Js.set (fileToFeature st) coFile myFeature |}
        else st
    | None => st
    end
  else st.

Definition signal4_churn (fileKeys : list string) (st : State)
  (entry : string * GitChurn) : State :=
  let (file, churn) := entry in
  match Js.get (fileToFeature st) file with
  | Some myFeature =>
      if Js.truthy myFeature then
        fold_left (signal4_cofile fileKeys file myFeature)
                  (firstn 10 (coChangedWith churn)) st
      else st
  | None => st
  end.

Definition signal4 (skipGit : bool) (gitChurns : list (string * GitChurn))
  (fileKeys : list string) (st : State) : State :=
  if negb skipGit && (0 <? List.length gitChurns)%nat then
    fold_left (signal4_churn fileKeys) gitChurns st
  else st.

(** ** Unassigned files *)

Definition crossCuttingFeature : Feature :=
  {| id := "cross-cutting"; files := []; entryPoints := [];
     confidence := Num.ofZ 0; signals := []; isCrossCutting := true |}.

Definition fallback_file (st : State) (rel : string) : State :=
  if negb (Js.hasKey (fileToFeature st) rel) then
    let featureId := "cross-cutting" in
    let fm :=
      if Js.hasKey (featureMap st) featureId then featureMap st
      else Js.set (featureMap st) featureId crossCuttingFeature in
    {| featureMap := Js.modify fm featureId (pushFile rel);
       fileToFeature := Js.set (fileToFeature st) rel featureId |}
  else st.

Definition fallback (fileKeys : list string) (st : State) : State :=
  fold_left fallback_file fileKeys st.

(** ** Confidence *)

Fixpoint distinctTypes (seen : list SignalType) (ss : list FeatureSignal)
  : list SignalType :=
  match ss with
  | [] => seen
  | s :: rest =>
      if existsb (SignalType_eqb (type s)) seen then distinctTypes seen rest
      else distinctTypes (seen ++ [type s])%list rest
  end.

Definition scoreConfidence (f : Feature) : Feature :=
  let signalTypes := distinctTypes [] (signals f) in
  let totalWeight :=
    fold_left (fun sum s => Num.add sum (weight s)) (signals f) (Num.ofZ 0) in
  let avgWeight :=
    if (0 <? List.length (signals f))%nat
    then Num.div totalWeight (Num.ofNat (List.length (signals f)))
    else Num.ofZ 0 in
  let c := Num.min (Num.ofZ 1)
             (Num.add avgWeight
                (Num.mul (Num.ofNat (List.length signalTypes)) (Num.lit 1 10))) in
  {| id := id f; files := files f; entryPoints := entryPoints f;
     confidence := c; signals := signals f;
     isCrossCutting :=
       if Num.ltb c (Num.lit 3 10) && negb (isCrossCutting f) then true
       else isCrossCutting f |}.

(** ** The whole agent: the value written to [store.features] *)

Definition clusters (config : option ProjectConfig) (fileKeys : list string)
  (importGraph : list ImportEdge) (skipGit : bool)
  (gitChurns : list (string * GitChurn)) : State :=
  fallback fileKeys
    (signal4 skipGit gitChurns fileKeys
       (signal3 importGraph
          (signal2 config fileKeys
             (signal1 config fileKeys initial)))).

Definition featureGrouper (config : option ProjectConfig)
  (fileKeys : list string) (importGraph : list ImportEdge) (skipGit : bool)
  (gitChurns : list (string * GitChurn)) : list Feature :=
  map scoreConfidence
      (Js.values (featureMap (clusters config fileKeys importGraph skipGit gitChurns))).

End Grouper.

(* ================================================================== *)
(** * File-name conventions (fs-utils)                                 *)
(* ================================================================== *)

Definition isTestFile (filePath : string) : bool :=
  let name := Path.basename filePath in
  Js.includes name ".spec."
  || Js.includes name ".test."
  || Js.includes name "__test"
  || Js.includes filePath "/test/"
  || Js.includes filePath "/tests/"
  || Js.includes filePath "/__tests__/"
  || Js.includes filePath "/cypress/"
  || Js.includes filePath "/e2e/".

(** [[...packages].sort((a, b) => b.dir.length - a.dir.length)]: the
    sort is stable, so its result is the one of a stable insertion
    sort. *)
Definition comparePackages (a b : DetectedPackage) : Z :=
  (Z.of_nat (String.length (dir b)) - Z.of_nat (String.length (dir a)))%Z.

Fixpoint insertPackage (x : DetectedPackage) (sorted : list DetectedPackage)
  : list DetectedPackage :=
  match sorted with
  | [] => [x]
  | y :: rest =>
      if (comparePackages x y <=? 0)%Z then x :: y :: rest
      else y :: insertPackage x rest
  end.

Fixpoint sortPackages (pkgs : list DetectedPackage) : list DetectedPackage :=
  match pkgs with
  | [] => []
  | x :: rest => insertPackage x (sortPackages rest)
  end.

(** The loop over the sorted packages. *)
Fixpoint firstPackage (rel : string) (sorted : list DetectedPackage)
  : option string :=
  match sorted with
  | [] => None
  | pkg :: rest =>
      if String.eqb (dir pkg) "." then firstPackage rel rest
      else if Js.startsWith rel (dir pkg ++ "/") then Some (dir pkg)
      else firstPackage rel rest
  end.

(** [detectPackage]; [rel] is [relative(rootDir, filePath)] and
    [packages] is [None] when the argument is left out. *)
Definition detectPackage (rel : string)
  (packages : option (list DetectedPackage)) : string :=
  let parts := Js.split "/" rel in
  let found :=
    match packages with
    | Some pkgs =>
        if (0 <? List.length pkgs)%nat
        then firstPackage rel (sortPackages pkgs) else None
    | None => None
    end in
  match found with
  | Some d => d
  | None =>
      if (1 <? List.length parts)%nat && negb (String.eqb (nth 0 parts "") ".")
      then nth 0 parts "" else "root"
  end.

Definition isAsset (f : FileNode) : bool :=
  match language f with json | css => true | _ => false end.

Record FileMetrics := mkFileMetrics {
  metricsFile : string;
  metricsLoc : nat;
  cyclomaticComplexity : nat;
  cognitiveComplexity : nat;
  importCount : nat;
  exportCount : nat;
  functionCount : nat;
  maxFunctionLength : nat;
  propCount : nat;
  fanIn : nat;
  fanOut : nat }.

(** The part of the central store read by the analyzers. *)
Record InspectorStore := mkStore {
  skipGit : bool;
  config : option ProjectConfig;
  storeFiles : list (string * FileNode);
  importGraph : list ImportEdge;
  features : list Grouper.Feature;
  fileMetrics : list (string * FileMetrics);
  gitChurns : list (string * GitChurn) }.

(* ================================================================== *)
(** * Impact analyzer                                                  *)
(* ================================================================== *)

Module Impact.

Inductive Severity := critical | high | medium | low.

Record ImpactNode := mkImpactNode {
  file : string;
  nodeFanIn : nat;
  featureCount : nat;
  gitChurn : nat;
  hasTests : bool;
  impactScore : Z;
  severity : Severity }.

(** [fanInMap]: target -> set of sources. *)
Definition fanInMap_edge (m : list (string * list string)) (e : ImportEdge)
  : list (string * list string) :=
  let m := if Js.hasKey m (target e) then m else Js.set m (target e) [] in
  Js.modify m (target e) (fun sources => Js.add sources (source e)).

Definition fanInMap (graph : list ImportEdge) : list (string * list string) :=
  fold_left fanInMap_edge graph [].

(** [fileToFeatures]: file -> set of feature ids. *)
Definition fileToFeatures_file (featureId : string)
  (m : list (string * list string)) (f : string) : list (string * list string) :=
  let m := if Js.hasKey m f then m else Js.set m f [] in
  Js.modify m f (fun ids => Js.add ids featureId).

Definition fileToFeatures (fs : list Grouper.Feature)
  : list (string * list string) :=
  fold_left (fun m feature =>
               fold_left (fileToFeatures_file (Grouper.id feature))
                         (Grouper.files feature) m)
            fs [].

Definition testFiles (fileKeys : list string) : list string :=
  fold_left (fun acc rel => if isTestFile rel then Js.add acc rel else acc)
            fileKeys [].

Definition filesWithTests (fileKeys : list string) : list string :=
  fold_left (fun acc testFile =>
               let sourceFile :=
                 Js.replace (Js.replace testFile ".spec." ".") ".test." "." in
               if Js.has fileKeys sourceFile then Js.add acc sourceFile else acc)
            (testFiles fileKeys) [].

(** [m.get(k)?.size || 0] *)
Definition sizeAt (m : list (string * list string)) (k : string) : nat :=
  match Js.get m k with Some xs => List.length xs | None => O end.

Definition cap (count : nat) (full : Z) : Num.number :=
  Num.min (Num.div (Num.ofNat count) (Num.ofZ full)) (Num.ofZ 1).

Definition fanInScore (fanIn : nat) : Num.number :=
  Num.mul (cap fanIn 30) (Num.ofZ 35).
Definition featureScore (featureCount : nat) : Num.number :=
  Num.mul (cap featureCount 5) (Num.ofZ 25).
Definition churnScore (gitChurn : nat) : Num.number :=
  Num.mul (cap gitChurn 100) (Num.ofZ 20).
Definition testScore (hasTests : bool) : Num.number :=
  if hasTests then Num.ofZ 0 else Num.ofZ 10.
Definition complexityScore (complexity : nat) : Num.number :=
  Num.mul (cap complexity 50) (Num.ofZ 10).

Definition scoreSum (fanIn featureCount gitChurn : nat) (hasTests : bool)
  (complexity : nat) : Num.number :=
  Num.add (Num.add (Num.add (Num.add (fanInScore fanIn)
                                     (featureScore featureCount))
                            (churnScore gitChurn))
                   (testScore hasTests))
          (complexityScore complexity).

Definition scoreOf (fanIn featureCount gitChurn : nat) (hasTests : bool)
  (complexity : nat) : Z :=
  Num.round (scoreSum fanIn featureCount gitChurn hasTests complexity).

Definition severityOf (impactScore : Z) : Severity :=
  if (70 <=? impactScore)%Z then critical
  else if (50 <=? impactScore)%Z then high
  else if (30 <=? impactScore)%Z then medium
  else low.

(** The inputs of the formula for one file. *)
Definition fanInOf (st : InspectorStore) (rel : string) : nat :=
  sizeAt (fanInMap (importGraph st)) rel.
Definition featureCountOf (st : InspectorStore) (rel : string) : nat :=
  sizeAt (fileToFeatures (features st)) rel.
Definition gitChurnOf (st : InspectorStore) (rel : string) : nat :=
  match Js.get (gitChurns st) rel with
  | Some churn => commitCount churn
  | None => O
  end.
Definition hasTestsOf (st : InspectorStore) (rel : string) : bool :=
  Js.has (filesWithTests (Js.keys (storeFiles st))) rel.
Definition complexityOf (st : InspectorStore) (rel : string) : nat :=
  match Js.get (fileMetrics st) rel with
  | Some metrics => cyclomaticComplexity metrics
  | None => O
  end.

Definition nodeOf (st : InspectorStore) (rel : string) : ImpactNode :=
  let score := scoreOf (fanInOf st rel) (featureCountOf st rel)
                       (gitChurnOf st rel) (hasTestsOf st rel)
                       (complexityOf st rel) in
  {| file := rel;
     nodeFanIn := fanInOf st rel;
     featureCount := featureCountOf st rel;
     gitChurn := gitChurnOf st rel;
     hasTests := hasTestsOf st rel;
     impactScore := score;
     severity := severityOf score |}.

(** The body of the scoring loop. *)
Definition scoreFile (st : InspectorStore) (nodes : list ImpactNode)
  (entry : string * FileNode) : list ImpactNode :=
  let (rel, fileNode) := entry in
  if isTestFile rel then nodes
  else if isAsset fileNode then nodes
  else
    let node := nodeOf st rel in
    if (impactScore node <? 15)%Z then nodes
    else (nodes ++ [node])%list.

(** [nodes.sort((a, b) => b.impactScore - a.impactScore)]: the sort is
    stable, so its result is the one of a stable insertion sort. *)
Definition compareNodes (a b : ImpactNode) : Z :=
  (impactScore b - impactScore a)%Z.

Fixpoint insertNode (x : ImpactNode) (sorted : list ImpactNode)
  : list ImpactNode :=
  match sorted with
  | [] => [x]
  | y :: rest =>
      if (compareNodes x y <=? 0)%Z then x :: y :: rest
      else y :: insertNode x rest
  end.

Fixpoint sortNodes (nodes : list ImpactNode) : list ImpactNode :=
  match nodes with
  | [] => []
  | x :: rest => insertNode x (sortNodes rest)
  end.

(** The agent: the final value of [store.impactNodes], which starts at
    [previous] ([[]] in a store made by [createStore]). *)
Definition impactAnalyzer (st : InspectorStore) (previous : list ImpactNode)
  : list ImpactNode :=
  sortNodes (fold_left (scoreFile st) (storeFiles st) previous).

End Impact.

(* ================================================================== *)
(** * Bridge analyzer                                                  *)
(* ================================================================== *)

Module Bridge.

(** An emitter or a listener found in a file. *)
Record Occurrence := mkOccurrence {
  event : string;
  occFile : string;
  line : nat }.

(** What [extractEventListeners] returns for one listener. *)
Record Listener := mkListener {
  listenerEvent : string;
  listenerAt : nat;
  isOn : bool }.

(** The three messages of [issue]; the last one carries the extension
    it names. *)
Inductive Issue :=
| OrphanListener
| OrphanEmitter
| MissingOff (listenerExt : string).

Record BridgeConnection := mkConnection {
  eventName : string;
  emitterFile : string;
  emitterLine : nat;
  listenerFile : option string;
  listenerLine : option nat;
  hasUnsubscribe : bool;
  isHealthy : bool;
  issue : option Issue }.

(** ['.' + file.split('.').pop()] *)
Definition extOf (file : string) : string :=
  "." ++ last (Js.split "." file) "".

Section Collect.

Variable codeContent : FileNode -> string.

(** [extractEventEmits]: the event and the line of each emit. *)
Variable extractEventEmits : string -> list (string * nat).

Variable extractEventListeners : string -> list Listener.

(** The three arrays filled by the first loop. *)
Record Collected := mkCollected {
  allEmitters : list Occurrence;
  allListenersOn : list Occurrence;
  allListenersOff : list Occurrence }.

Definition collectListener (rel : string) (acc : Collected) (l : Listener)
  : Collected :=
  let occ := {| event := listenerEvent l; occFile := rel; line := listenerAt l |} in
  if isOn l then
    {| allEmitters := allEmitters acc;
       allListenersOn := (allListenersOn acc ++ [occ])%list;
       allListenersOff := allListenersOff acc |}
  else
    {| allEmitters := allEmitters acc;
       allListenersOn := allListenersOn acc;
       allListenersOff := (allListenersOff acc ++ [occ])%list |}.

Definition collectFile (acc : Collected) (entry : string * FileNode)
  : Collected :=
  let rel := fst entry in
  if isAsset (snd entry) then acc
  else
    let code := codeContent (snd entry) in
    if negb (Js.truthy code) then acc
    else
      let emitted :=
        map (fun emit => {| event := fst emit; occFile := rel; line := snd emit |})
            (extractEventEmits code) in
      fold_left (collectListener rel) (extractEventListeners code)
        {| allEmitters := (allEmitters acc ++ emitted)%list;
           allListenersOn := allListenersOn acc;
           allListenersOff := allListenersOff acc |}.

Definition collect (files : list (string * FileNode)) : Collected :=
  fold_left collectFile files
    {| allEmitters := []; allListenersOn := []; allListenersOff := [] |}.

End Collect.

Definition named (eventName : string) (o : Occurrence) : bool :=
  String.eqb (event o) eventName.

(** The connection of an emitter and a listener in different files. *)
Definition pairOf (sourceExts : list string) (unsubscribers : list Occurrence)
  (eventName : string) (emitter listener : Occurrence) : BridgeConnection :=
  let hasOff :=
    existsb (fun u => String.eqb (event u) eventName
                      && String.eqb (occFile u) (occFile listener))
            unsubscribers in
  let listenerExt := extOf (occFile listener) in
  let needsCleanup :=
    Js.has sourceExts listenerExt || String.eqb listenerExt ".vue" in
  {| eventName := eventName;
     emitterFile := occFile emitter;
     emitterLine := line emitter;
     listenerFile := Some (occFile listener);
     listenerLine := Some (line listener);
     hasUnsubscribe := hasOff;
     isHealthy := if negb hasOff then negb needsCleanup else true;
     issue := if negb hasOff
              then if needsCleanup then Some (MissingOff listenerExt) else None
              else None |}.

(** The connections pushed for one event name. *)
Definition connectionsOf (sourceExts : list string) (c : Collected)
  (eventName : string) : list BridgeConnection :=
  let emitters := filter (named eventName) (allEmitters c) in
  let listeners := filter (named eventName) (allListenersOn c) in
  let unsubscribers := filter (named eventName) (allListenersOff c) in
  if (List.length emitters =? 0)%nat && (0 <? List.length listeners)%nat then
    map (fun listener =>
           {| eventName := eventName;
              emitterFile := "(none)";
              emitterLine := 0;
              listenerFile := Some (occFile listener);
              listenerLine := Some (line listener);
              hasUnsubscribe :=
                existsb (fun u => String.eqb (occFile u) (occFile listener))
                        unsubscribers;
              isHealthy := false;
              issue := Some OrphanListener |})
        listeners
  else if (0 <? List.length emitters)%nat && (List.length listeners =? 0)%nat then
    map (fun emitter =>
           {| eventName := eventName;
              emitterFile := occFile emitter;
              emitterLine := line emitter;
              listenerFile := None;
              listenerLine := None;
              hasUnsubscribe := false;
              isHealthy := false;
              issue := Some OrphanEmitter |})
        emitters
  else
    flat_map
      (fun emitter =>
         flat_map
           (fun listener =>
              if String.eqb (occFile emitter) (occFile listener) then []
              else [pairOf sourceExts unsubscribers eventName emitter listener])
           listeners)
      emitters.

(** The names of the events, in the order of the set. *)
Definition eventNames (c : Collected) : list string :=
  fold_left Js.add
    (map event (allEmitters c) ++ map event (allListenersOn c))%list [].

(** The second loop: the final value of [store.bridgeConnections],
    which starts at [previous]; [sourceExts] are the source extensions
    of the detected migration ([[]] without one). *)
Definition matchBridges (sourceExts : list string) (c : Collected)
  (previous : list BridgeConnection) : list BridgeConnection :=
  (previous ++ flat_map (connectionsOf sourceExts c) (eventNames c))%list.

(** The agent. *)
Definition bridgeAnalyzer (codeContent : FileNode -> string)
  (extractEventEmits : string -> list (string * nat))
  (extractEventListeners : string -> list Listener)
  (sourceExts : list string) (files : list (string * FileNode))
  (previous : list BridgeConnection) : list BridgeConnection :=
  matchBridges sourceExts
    (collect codeContent extractEventEmits extractEventListeners files)
    previous.

End Bridge.

(* ================================================================== *)
(** * Migration tracker                                                *)
(* ================================================================== *)

Module Migration.

Inductive Status := unmigrated | partial | feature_flagged | migrated | unknown.

(** The fields of [MigrationInfo] read by the tracker. *)
Record MigrationInfo := mkMigrationInfo {
  detected : bool;
  sourcePackages : list string;
  targetPackages : list string;
  sourceExtensions : list string;
  targetExtensions : list string }.

Record MigrationEntry := mkMigrationEntry {
  sourceComponent : string;
  targetComponent : option string;
  featureFlag : option string;
  bridgeEvents : list string;
  status : Status }.

Definition inPackages (pkgs : list string) (rel : string) : bool :=
  existsb (fun pkg => Js.startsWith rel (pkg ++ "/")) pkgs.

(** [if (!m.has(folder)) m.set(folder, []); m.get(folder)!.push(rel)] *)
Definition groupInto (m : list (string * list string)) (rel : string)
  : list (string * list string) :=
  let folder := Path.dirname rel in
  let m := if Js.hasKey m folder then m else Js.set m folder [] in
  Js.modify m folder (fun files => (files ++ [rel])%list).

Definition sourceComponents (mig : MigrationInfo)
  (conventionPaths : list string) (files : list (string * FileNode))
  : list (string * list string) :=
  fold_left
    (fun m entry =>
       let rel := fst entry in
       if negb (Js.has (sourceExtensions mig) (extension (snd entry))) then m
       else if negb (inPackages (sourcePackages mig) rel) then m
       else if existsb (fun cp => Js.startsWith rel cp) conventionPaths then m
       else groupInto m rel)
    files [].

Definition targetComponents (mig : MigrationInfo)
  (files : list (string * FileNode)) : list (string * list string) :=
  fold_left
    (fun m entry =>
       let rel := fst entry in
       if negb (Js.has (targetExtensions mig) (extension (snd entry))) then m
       else if negb (inPackages (targetPackages mig) rel) then m
       else groupInto m rel)
    files [].

(** The two matching loops: the first target folder that passes the
    test, or what the variable held before. *)
Definition matchByFolder (folderName : string) (targetFolders : list string)
  : option string :=
  find (fun targetFolder =>
          String.eqb (Path.basename targetFolder) folderName
          || Js.includes targetFolder ("/" ++ folderName ++ "/")
          || Js.endsWith targetFolder ("/" ++ folderName))
       targetFolders.

Definition matchByParent (parentName : string) (targetFolders : list string)
  : option string :=
  find (fun targetFolder =>
          String.eqb (Path.basename targetFolder) parentName
          || Js.endsWith targetFolder ("/" ++ parentName))
       targetFolders.

Definition matchTarget (sourceFolder : string) (targetFolders : list string)
  : option string :=
  let matched := matchByFolder (Path.basename sourceFolder) targetFolders in
  if Grouper.truthyOpt matched then matched
  else
    let parentName := Path.basename (Path.dirname sourceFolder) in
    if Js.truthy parentName && negb (String.eqb parentName ".") then
      match matchByParent parentName targetFolders with
      | Some targetFolder => Some targetFolder
      | None => matched
      end
    else matched.

Section Tracker.

(** The flags of [extractFeatureFlags] for a source file, in order. *)
Variable flagsOf : string -> list string.

(** The event names a source file adds to [bridgeEvents]. *)
Variable eventsOf : string -> list string.

(** The flag of the last file that has one. *)
Definition featureFlagOf (sourceFiles : list string) : option string :=
  fold_left (fun flag sourceFile =>
               match flagsOf sourceFile with
               | [] => flag
               | first :: _ => Some first
               end)
            sourceFiles None.

Definition bridgeEventsOf (sourceFiles : list string) : list string :=
  flat_map eventsOf sourceFiles.

Definition statusOf (targets : list (string * list string))
  (matched flag : option string) (events : list string) : Status :=
  if Grouper.truthyOpt matched
     && match matched with Some t => Js.hasKey targets t | None => false end
  then
    if Grouper.truthyOpt flag then feature_flagged
    else if (0 <? List.length events)%nat then partial
    else migrated
  else if Grouper.truthyOpt matched then partial
  else unmigrated.

(** The entries pushed for one source folder. *)
Definition entriesOf (targets : list (string * list string))
  (component : string * list string) : list MigrationEntry :=
  let sourceFolder := fst component in
  let sourceFiles := snd component in
  let matched := matchTarget sourceFolder (Js.keys targets) in
  let flag := featureFlagOf sourceFiles in
  let events := bridgeEventsOf sourceFiles in
  map (fun sourceFile =>
         {| sourceComponent := sourceFile;
            targetComponent :=
              match matched with
              | Some t => if Js.truthy t then Some (t ++ "/") else None
              | None => None
              end;
            featureFlag := flag;
            bridgeEvents := fold_left Js.add events [];
            status := statusOf targets matched flag events |})
      sourceFiles.

(** The agent: the final value of [store.migrationEntries], which
    starts at [previous]. *)
Definition migrationTracker (migration : option MigrationInfo)
  (conventionPaths : list string) (files : list (string * FileNode))
  (previous : list MigrationEntry) : list MigrationEntry :=
  match migration with
  | None => previous
  | Some mig =>
      if negb (detected mig) then previous
      else
        (previous
         ++ flat_map (entriesOf (targetComponents mig files))
                     (sourceComponents mig conventionPaths files))%list
  end.

End Tracker.

End Migration.

(* ================================================================== *)
(** * Quality analyzer                                                 *)
(* ================================================================== *)

Module Quality.

(** [m.set(k, (m.get(k) || 0) + 1)] *)
Definition increment (m : list (string * nat)) (k : string)
  : list (string * nat) :=
  Js.set m k (match Js.get m k with Some n => n | None => O end + 1).

Definition fanInMap (graph : list ImportEdge) : list (string * nat) :=
  fold_left (fun m e => increment m (target e)) graph [].

Definition fanOutMap (graph : list ImportEdge) : list (string * nat) :=
  fold_left (fun m e => increment m (source e)) graph [].

(** [m.get(k) || 0] *)
Definition countAt (m : list (string * nat)) (k : string) : nat :=
  match Js.get m k with Some n => n | None => O end.

Definition fanInOf (graph : list ImportEdge) (rel : string) : nat :=
  countAt (fanInMap graph) rel.

Definition fanOutOf (graph : list ImportEdge) (rel : string) : nat :=
  countAt (fanOutMap graph) rel.

Definition isSpecOrTest (f : string) : bool :=
  Js.includes f ".spec." || Js.includes f ".test.".

(** The filter of the test-coverage block. *)
Definition coveredFiles (featureFiles : list string) : list string :=
  filter (fun f => isSpecOrTest f || existsb isSpecOrTest featureFiles)
         featureFiles.

Definition clamp (v lo hi : Z) : Z := Z.max lo (Z.min hi v).

(** [testCoverageScore] of a feature whose files with metrics are
    [featureFiles]. *)
Definition testCoverageScore (featureFiles : list string) : Z :=
  let testRatio :=
    if (0 <? List.length featureFiles)%nat
    then Num.div (Num.ofNat (List.length (coveredFiles featureFiles)))
                 (Num.ofNat (List.length featureFiles))
    else Num.ofZ 0 in
  clamp (Num.round (Num.mul testRatio (Num.ofZ 10))) 0 10.

(** The sub-score as the specification words it: the ratio of member
    files that are tests themselves or have a sibling test file (the
    name with [.spec.] or [.test.] put before the extension), times 10. *)
Definition siblingTests (f : string) : list string :=
  let stem := Js.stripExtension f in
  let ext := Js.drop (String.length stem) f in
  [stem ++ ".spec" ++ ext; stem ++ ".test" ++ ext].

Definition hasSiblingTest (featureFiles : list string) (f : string) : bool :=
  existsb (Js.has featureFiles) (siblingTests f).

Definition specCoveredFiles (featureFiles : list string) : list string :=
  filter (fun f => isSpecOrTest f || hasSiblingTest featureFiles f)
         featureFiles.

Definition specTestCoverageScore (featureFiles : list string) : Z :=
  let testRatio :=
    if (0 <? List.length featureFiles)%nat
    then Num.div (Num.ofNat (List.length (specCoveredFiles featureFiles)))
                 (Num.ofNat (List.length featureFiles))
    else Num.ofZ 0 in
  clamp (Num.round (Num.mul testRatio (Num.ofZ 10))) 0 10.

(** ** The other sub-scores of a feature *)

(** [avg(nums)] *)
Definition avg (nums : list nat) : Num.number :=
  if (List.length nums =? 0)%nat then Num.ofZ 0
  else Num.div (fold_left (fun a b => Num.add a (Num.ofNat b)) nums (Num.ofZ 0))
               (Num.ofNat (List.length nums)).

(** [Math.max(...nums)] of a list of counts, which is not empty where
    the source takes it (a feature without measured files is skipped). *)
Definition maxOf (nums : list nat) : nat := fold_left Nat.max nums O.

(** [x > n] *)
Definition gt (x : Num.number) (n : Z) : bool := Num.ltb (Num.ofZ n) x.

Definition architectureScore (metrics : list FileMetrics) : Z :=
  let avgFanOut := avg (map fanOut metrics) in
  let avgLoc := avg (map metricsLoc metrics) in
  let maxLoc := maxOf (map metricsLoc metrics) in
  clamp (10 - (
    (if gt avgFanOut 15 then 3 else if gt avgFanOut 10 then 2
     else if gt avgFanOut 5 then 1 else 0) +
    (if gt avgLoc 500 then 3 else if gt avgLoc 300 then 2
     else if gt avgLoc 150 then 1 else 0) +
    (if (1000 <? maxLoc)%nat then 2 else if (500 <? maxLoc)%nat then 1 else 0) +
    (if (50 <? List.length metrics)%nat then 2
     else if (30 <? List.length metrics)%nat then 1 else 0)))%Z 0 10.

Definition codeQualityScore (metrics : list FileMetrics) : Z :=
  let avgComplexity := avg (map cyclomaticComplexity metrics) in
  let avgCogComplexity := avg (map cognitiveComplexity metrics) in
  let avgMaxFnLen := avg (map maxFunctionLength metrics) in
  clamp (10 - (
    (if gt avgComplexity 30 then 3 else if gt avgComplexity 20 then 2
     else if gt avgComplexity 10 then 1 else 0) +
    (if gt avgCogComplexity 40 then 3 else if gt avgCogComplexity 25 then 2
     else if gt avgCogComplexity 15 then 1 else 0) +
    (if gt avgMaxFnLen 100 then 2 else if gt avgMaxFnLen 50 then 1 else 0)))%Z
    0 10.

(** [featureFiles] are the measured files of the feature and [metrics]
    their metrics. *)
Definition bugRiskScore (skipGit : bool) (gitChurns : list (string * GitChurn))
  (featureFiles : list string) (metrics : list FileMetrics) : Z :=
  let avgComplexity := avg (map cyclomaticComplexity metrics) in
  let avgFanIn := avg (map fanIn metrics) in
  let maxFanIn := maxOf (map fanIn metrics) in
  let avgChurn :=
    if negb skipGit
    then avg (map (fun f => match Js.get gitChurns f with
                            | Some churn => commitCount churn
                            | None => O
                            end) featureFiles)
    else Num.ofZ 0 in
  clamp (10 - (
    (if gt avgFanIn 20 then 3 else if gt avgFanIn 10 then 2
     else if gt avgFanIn 5 then 1 else 0) +
    (if (30 <? maxFanIn)%nat then 2 else if (15 <? maxFanIn)%nat then 1 else 0) +
    (if gt avgChurn 50 then 3 else if gt avgChurn 20 then 2
     else if gt avgChurn 10 then 1 else 0) +
    (if gt avgComplexity 25 then 2 else if gt avgComplexity 15 then 1 else 0)))%Z
    0 10.

End Quality.

(* ================================================================== *)
(** * Duplication analyzer                                             *)
(* ================================================================== *)

Module Duplication.

Definition MIN_CHUNK_SIZE : nat := 6.
Definition MAX_CHUNK_SIZE : nat := 30.
Definition MAX_DUPLICATES : nat := 200.

Record Entry := mkEntry {
  entryFile : string;
  lineStart : nat;
  entrySnippet : string }.

Record DuplicationMatch := mkMatch {
  fileA : string;
  fileB : string;
  lineStartA : nat;
  lineStartB : nat;
  lineCount : nat;
  hash : string;
  snippet : string }.

(** ** Building the hash index *)

(** The values taken by the variable of
    [for (i = from; i <= upto; i += step)]. *)
Fixpoint loopValues (fuel from step upto : nat) : list nat :=
  match fuel with
  | O => []
  | S fuel' =>
      if (from <=? upto)%nat
      then from :: loopValues fuel' (from + step) step upto
      else []
  end.

Definition forRange (from step upto : nat) : list nat :=
  loopValues (S upto) from step upto.

(** [lines.slice(start, start + n)] *)
Definition slice (lines : list string) (start n : nat) : list string :=
  firstn n (skipn start lines).

Definition keepLine (l : string) : bool :=
  Js.truthy l && negb (Js.startsWith l "//") && negb (Js.startsWith l "*")
  && negb (Js.startsWith l "import").

Definition newline : string := String (ascii_of_nat 10) EmptyString.

Definition normalizedChunk (lines : list string) (start chunkSize : nat)
  : string :=
  Js.join newline (filter keepLine (map Js.trim (slice lines start chunkSize))).

Definition absDiff (a b : nat) : nat := (a - b) + (b - a).

Section HashIndex.

(** The digest: the first 16 hexadecimal characters of SHA-256. *)
Variable digest : string -> string.

(** The code of a file as the analyzer reads it (empty when the file
    cannot be read). *)
Variable codeContent : FileNode -> string.

Definition recordChunk (rel : string) (lines : list string) (chunkSize : nat)
  (hashIndex : list (string * list Entry)) (start : nat)
  : list (string * list Entry) :=
  let chunk := normalizedChunk lines start chunkSize in
  if (String.length chunk <? 100)%nat then hashIndex
  else
    let h := digest chunk in
    let hashIndex :=
      if Js.hasKey hashIndex h then hashIndex else Js.set hashIndex h [] in
    Js.modify hashIndex h
      (fun entries =>
         if existsb (fun e => String.eqb (entryFile e) rel
                              && (absDiff (lineStart e) start <? chunkSize)%nat)
                    entries
         then entries
         else (entries ++ [ {| entryFile := rel; lineStart := start + 1;
                               entrySnippet :=
                                 Js.join newline
                                   (slice lines start (Nat.min 3 chunkSize)) |} ])%list).

Definition scanChunkSize (rel : string) (lines : list string)
  (hashIndex : list (string * list Entry)) (chunkSize : nat)
  : list (string * list Entry) :=
  fold_left (recordChunk rel lines chunkSize)
            (forRange 0 3 (List.length lines - chunkSize)) hashIndex.

Definition scanFile (hashIndex : list (string * list Entry))
  (entry : string * FileNode) : list (string * list Entry) :=
  let (rel, fileNode) := entry in
  if isAsset fileNode then hashIndex
  else if (loc fileNode <? MIN_CHUNK_SIZE)%nat then hashIndex
  else
    let code := codeContent fileNode in
    if negb (Js.truthy code) then hashIndex
    else
      let lines := Js.split (ascii_of_nat 10) code in
      fold_left (scanChunkSize rel lines)
                (forRange MIN_CHUNK_SIZE 4
                          (Nat.min MAX_CHUNK_SIZE (List.length lines)))
                hashIndex.

Definition buildHashIndex (files : list (string * FileNode))
  : list (string * list Entry) :=
  fold_left scanFile files [].

End HashIndex.

(** ** Finding the duplicates *)

Definition groupByFile (entries : list Entry) : list (string * list Entry) :=
  fold_left (fun groups e =>
               let groups :=
                 if Js.hasKey groups (entryFile e) then groups
                 else Js.set groups (entryFile e) [] in
               Js.modify groups (entryFile e) (fun es => (es ++ [e])%list))
            entries [].

Definition pushMatch (h : string) (groups : list (string * list Entry))
  (fi fj : string) (matches : list DuplicationMatch) : list DuplicationMatch :=
  match Js.get groups fi, Js.get groups fj with
  | Some (entryA :: _), Some (entryB :: _) =>
      (matches ++ [ {| fileA := entryFile entryA; fileB := entryFile entryB;
                       lineStartA := lineStart entryA;
                       lineStartB := lineStart entryB;
                       lineCount := MIN_CHUNK_SIZE;
                       hash := h;
                       snippet := entrySnippet entryA |} ])%list
  | _, _ => matches
  end.

(** The loop over [j], for a fixed [i]: [rest] is [fileList.slice(i+1)]. *)
Fixpoint innerLoop (h : string) (groups : list (string * list Entry))
  (fi : string) (rest : list string) (matches : list DuplicationMatch)
  : list DuplicationMatch :=
  match rest with
  | [] => matches
  | fj :: rest' =>
      let matches := pushMatch h groups fi fj matches in
      if (MAX_DUPLICATES <=? List.length matches)%nat then matches
      else innerLoop h groups fi rest' matches
  end.

(** The loop over [i]. *)
Fixpoint outerLoop (h : string) (groups : list (string * list Entry))
  (fileList : list string) (matches : list DuplicationMatch)
  : list DuplicationMatch :=
  match fileList with
  | [] => matches
  | fi :: rest =>
      let matches := innerLoop h groups fi rest matches in
      if (MAX_DUPLICATES <=? List.length matches)%nat then matches
      else outerLoop h groups rest matches
  end.

(** The loop over the hash index. *)
Fixpoint findMatches (hashIndex : list (string * list Entry))
  (matches : list DuplicationMatch) : list DuplicationMatch :=
  match hashIndex with
  | [] => matches
  | (h, entries) :: rest =>
      if (List.length entries <? 2)%nat then findMatches rest matches
      else
        let groups := groupByFile entries in
        if (List.length groups <? 2)%nat then findMatches rest matches
        else
          let matches := outerLoop h groups (Js.keys groups) matches in
          if (MAX_DUPLICATES <=? List.length matches)%nat then matches
          else findMatches rest matches
  end.

(** [[a, b].sort().join('|')] *)
Definition pairKey (a b : string) : string :=
  if String.ltb b a then b ++ "|" ++ a else a ++ "|" ++ b.

(** The final [filter] with its [seen] set. *)
Fixpoint dedupe (seen : list string) (matches : list DuplicationMatch)
  : list DuplicationMatch :=
  match matches with
  | [] => []
  | m :: rest =>
      let key := pairKey (fileA m) (fileB m) in
      if Js.has seen key then dedupe seen rest
      else m :: dedupe (Js.add seen key) rest
  end.

(** The value written to [store.duplications], from the hash index. *)
Definition duplications (hashIndex : list (string * list Entry))
  : list DuplicationMatch :=
  dedupe [] (findMatches hashIndex []).

(** The whole agent. *)
Definition duplicationAnalyzer (digest : string -> string)
  (codeContent : FileNode -> string) (files : list (string * FileNode))
  : list DuplicationMatch :=
  duplications (buildHashIndex digest codeContent files).

End Duplication.

(* ================================================================== *)
(** * Facts about insertion-ordered maps and sets                      *)
(* ================================================================== *)

Section MapFacts.

Context {V : Type}.
Implicit Types (m : list (string * V)) (k : string) (v : V).

Lemma get_set_same m k v : Js.get (Js.set m k v) k = Some v.
Proof.
  induction m as [|[k' v'] m IH]; simpl.
  - now rewrite String.eqb_refl.
  - destruct (String.eqb k' k) eqn:E; simpl.
    + now rewrite String.eqb_refl.
    + now rewrite E.
Qed.

Lemma get_set_other m k k' v :
  k <> k' -> Js.get (Js.set m k v) k' = Js.get m k'.
Proof.
  intros Hne. induction m as [|[k0 v0] m IH]; simpl.
  - apply String.eqb_neq in Hne. now rewrite Hne.
  - destruct (String.eqb k0 k) eqn:E; simpl.
    + apply String.eqb_eq in E; subst k0.
      apply String.eqb_neq in Hne. now rewrite Hne.
    + destruct (String.eqb k0 k'); [reflexivity | exact IH].
Qed.

Lemma get_In m k v : Js.get m k = Some v -> In (k, v) m.
Proof.
  induction m as [|[k' v'] m IH]; simpl; [discriminate|].
  destruct (String.eqb k' k) eqn:E.
  - apply String.eqb_eq in E; subst. intros [= ->]. now left.
  - intros H. right. now apply IH.
Qed.

Lemma get_Some_key m k v : Js.get m k = Some v -> In k (Js.keys m).
Proof.
  intros H. apply get_In in H. unfold Js.keys.
  change k with (fst (k, v)). now apply in_map.
Qed.

Lemma key_get_Some m k : In k (Js.keys m) -> exists v, Js.get m k = Some v.
Proof.
  induction m as [|[k' v'] m IH]; simpl; [contradiction|].
  intros [->|H].
  - rewrite String.eqb_refl. now eexists.
  - destruct (String.eqb k' k); [now eexists | now apply IH].
Qed.

Lemma get_None_key m k : Js.get m k = None -> ~ In k (Js.keys m).
Proof.
  intros H Hin. apply key_get_Some in Hin as [v Hv]. congruence.
Qed.

Lemma hasKey_true m k : Js.hasKey m k = true <-> In k (Js.keys m).
Proof.
  unfold Js.hasKey. split.
  - destruct (Js.get m k) eqn:E; [|discriminate].
    intros _. eapply get_Some_key; eauto.
  - intros H. apply key_get_Some in H as [v ->]. reflexivity.
Qed.

Lemma hasKey_false m k : Js.hasKey m k = false <-> Js.get m k = None.
Proof.
  unfold Js.hasKey. destruct (Js.get m k); split; congruence.
Qed.

Lemma keys_set m k v :
  Js.keys (Js.set m k v)
  = if Js.hasKey m k then Js.keys m else (Js.keys m ++ [k])%list.
Proof.
  unfold Js.hasKey.
  induction m as [|[k' v'] m IH]; simpl; [reflexivity|].
  destruct (String.eqb k' k) eqn:E; simpl.
  - apply String.eqb_eq in E. now subst.
  - rewrite IH. now destruct (Js.get m k).
Qed.

Lemma NoDup_keys_set m k v : NoDup (Js.keys m) -> NoDup (Js.keys (Js.set m k v)).
Proof.
  intros H. rewrite keys_set. destruct (Js.hasKey m k) eqn:E; [exact H|].
  apply hasKey_false, get_None_key in E.
  apply NoDup_app; [exact H | repeat constructor; simpl; tauto |].
  intros x Hx [<-|[]]. contradiction.
Qed.

Lemma keys_modify m k (f : V -> V) : Js.keys (Js.modify m k f) = Js.keys m.
Proof.
  unfold Js.modify. destruct (Js.get m k) eqn:E; [|reflexivity].
  rewrite keys_set.
  assert (H : Js.hasKey m k = true) by (unfold Js.hasKey; now rewrite E).
  now rewrite H.
Qed.

Lemma get_modify_same m k (f : V -> V) :
  Js.get (Js.modify m k f) k = option_map f (Js.get m k).
Proof.
  unfold Js.modify. destruct (Js.get m k) eqn:E; simpl.
  - apply get_set_same.
  - exact E.
Qed.

Lemma get_modify_other m k k' (f : V -> V) :
  k <> k' -> Js.get (Js.modify m k f) k' = Js.get m k'.
Proof.
  intros Hne. unfold Js.modify. destruct (Js.get m k); [|reflexivity].
  now apply get_set_other.
Qed.

End MapFacts.

Lemma has_true (xs : list string) (x : string) : Js.has xs x = true <-> In x xs.
Proof.
  unfold Js.has. rewrite existsb_exists. split.
  - intros [y [Hy E]]. apply String.eqb_eq in E. now subst.
  - intros H. exists x. split; [exact H | apply String.eqb_refl].
Qed.

Lemma has_false (xs : list string) (x : string) : Js.has xs x = false <-> ~ In x xs.
Proof.
  rewrite <- has_true. destruct (Js.has xs x); split; congruence.
Qed.

Lemma NoDup_add (xs : list string) (x : string) : NoDup xs -> NoDup (Js.add xs x).
Proof.
  intros H. unfold Js.add. destruct (Js.has xs x) eqn:E; [exact H|].
  apply has_false in E.
  apply NoDup_app; [exact H | repeat constructor; simpl; tauto |].
  intros y Hy [<-|[]]. contradiction.
Qed.

Lemma In_add (xs : list string) (x y : string) :
  In y (Js.add xs x) <-> In y xs \/ y = x.
Proof.
  unfold Js.add. destruct (Js.has xs x) eqn:E.
  - apply has_true in E. split; [tauto|]. intros [H| ->]; assumption.
  - rewrite in_app_iff. simpl. intuition (subst; auto).
Qed.

(* ================================================================== *)
(** * Duplication analyzer: properties                                 *)
(* ================================================================== *)

Section DuplicationFacts.

Import Duplication.

(** Grouping by file: the keys are distinct and each group holds only
    entries of its own file, taken from the grouped entries. *)
Definition groupsOk (src : list Entry) (groups : list (string * list Entry))
  : Prop :=
  NoDup (Js.keys groups)
  /\ (forall f es, Js.get groups f = Some es ->
        forall e, In e es -> entryFile e = f /\ In e src)
  /\ (forall f, In f (Js.keys groups) ->
        exists e, In e src /\ entryFile e = f).

Lemma groupByFile_step_ok src groups e :
  In e src -> groupsOk src groups ->
  groupsOk src
    (Js.modify (if Js.hasKey groups (entryFile e) then groups
                else Js.set groups (entryFile e) [])
               (entryFile e) (fun es => (es ++ [e])%list)).
Proof.
  intros Hin (Hnd & Hgrp & Hkeys).
  set (g1 := if Js.hasKey groups (entryFile e) then groups
             else Js.set groups (entryFile e) []).
  assert (Hnd1 : NoDup (Js.keys g1)).
  { unfold g1. destruct (Js.hasKey groups (entryFile e)); [exact Hnd|].
    now apply NoDup_keys_set. }
  assert (Hgrp1 : forall f es, Js.get g1 f = Some es ->
                    forall e', In e' es -> entryFile e' = f /\ In e' src).
  { unfold g1. destruct (Js.hasKey groups (entryFile e)) eqn:E; [exact Hgrp|].
    intros f es Hget e' He'.
    destruct (string_dec (entryFile e) f) as [<-|Hne].
    - rewrite get_set_same in Hget. injection Hget as <-. contradiction.
    - rewrite get_set_other in Hget by exact Hne. eapply Hgrp; eauto. }
  assert (Hkeys1 : forall f, In f (Js.keys g1) ->
                     exists e', In e' src /\ entryFile e' = f).
  { unfold g1. destruct (Js.hasKey groups (entryFile e)) eqn:E; [exact Hkeys|].
    intros f Hf. rewrite keys_set, E in Hf.
    apply in_app_or in Hf as [Hf|[<-|[]]]; [now apply Hkeys|].
    now exists e. }
  split; [|split].
  - now rewrite keys_modify.
  - intros f es Hget e' He'.
    destruct (string_dec (entryFile e) f) as [<-|Hne].
    + rewrite get_modify_same in Hget.
      destruct (Js.get g1 (entryFile e)) as [es0|] eqn:E0; [|discriminate].
      simpl in Hget. injection Hget as <-.
      apply in_app_or in He' as [He'|[<-|[]]].
      * eapply Hgrp1; eauto.
      * now split.
    + rewrite get_modify_other in Hget by exact Hne. eapply Hgrp1; eauto.
  - intros f Hf. rewrite keys_modify in Hf. now apply Hkeys1.
Qed.

Lemma groupByFile_fold_ok src entries groups :
  incl entries src -> groupsOk src groups ->
  groupsOk src
    (fold_left (fun groups e =>
                  let groups :=
                    if Js.hasKey groups (entryFile e) then groups
                    else Js.set groups (entryFile e) [] in
                  Js.modify groups (entryFile e) (fun es => (es ++ [e])%list))
               entries groups).
Proof.
  revert groups. induction entries as [|e entries IH]; intros groups Hincl Hok.
  - exact Hok.
  - simpl. apply IH.
    + intros x Hx. apply Hincl. now right.
    + apply groupByFile_step_ok; [apply Hincl; now left | exact Hok].
Qed.

Lemma groupByFile_ok entries : groupsOk entries (groupByFile entries).
Proof.
  unfold groupByFile. apply groupByFile_fold_ok.
  - apply incl_refl.
  - repeat split.
    + constructor.
    + discriminate.
    + discriminate.
    + contradiction.
Qed.

(** A match built from the groups of hash [h] for the files [fi], [fj]. *)
Definition builtFrom (h : string) (groups : list (string * list Entry))
  (fi fj : string) (m : DuplicationMatch) : Prop :=
  exists entryA restA entryB restB,
    Js.get groups fi = Some (entryA :: restA)
    /\ Js.get groups fj = Some (entryB :: restB)
    /\ m = {| fileA := entryFile entryA; fileB := entryFile entryB;
              lineStartA := lineStart entryA; lineStartB := lineStart entryB;
              lineCount := MIN_CHUNK_SIZE; hash := h;
              snippet := entrySnippet entryA |}.

Lemma pushMatch_In h groups fi fj matches m :
  In m (pushMatch h groups fi fj matches) ->
  In m matches \/ builtFrom h groups fi fj m.
Proof.
  unfold pushMatch.
  destruct (Js.get groups fi) as [[|entryA restA]|] eqn:EA; auto.
  destruct (Js.get groups fj) as [[|entryB restB]|] eqn:EB; auto.
  intros H. apply in_app_or in H as [H|[<-|[]]]; [now left|].
  right. exists entryA, restA, entryB, restB. auto.
Qed.

Lemma innerLoop_In h groups fi rest : forall matches m,
  In m (innerLoop h groups fi rest matches) ->
  In m matches \/ exists fj, In fj rest /\ builtFrom h groups fi fj m.
Proof.
  induction rest as [|fj rest IH]; intros matches m H; cbn [innerLoop] in H.
  - now left.
  - assert (Hpush : In m (pushMatch h groups fi fj matches) ->
                    In m matches \/
                    exists fj0, In fj0 (fj :: rest) /\ builtFrom h groups fi fj0 m).
    { intros Hp. apply pushMatch_In in Hp as [Hp|Hp]; [now left|].
      right. exists fj. split; [now left | exact Hp]. }
    destruct (MAX_DUPLICATES <=? List.length (pushMatch h groups fi fj matches))%nat.
    + now apply Hpush.
    + apply IH in H as [H|(fj0 & Hin & Hb)].
      * now apply Hpush.
      * right. exists fj0. split; [now right | exact Hb].
Qed.

Lemma outerLoop_In h groups fileList : forall matches m,
  In m (outerLoop h groups fileList matches) ->
  In m matches \/
  exists pre fi post fj,
    fileList = (pre ++ fi :: post)%list /\ In fj post
    /\ builtFrom h groups fi fj m.
Proof.
  induction fileList as [|fi rest IH]; intros matches m H; cbn [outerLoop] in H.
  - now left.
  - assert (Hinner : In m (innerLoop h groups fi rest matches) ->
                     In m matches \/
                     exists pre fi0 post fj,
                       fi :: rest = (pre ++ fi0 :: post)%list /\ In fj post
                       /\ builtFrom h groups fi0 fj m).
    { intros Hi. apply innerLoop_In in Hi as [Hi|(fj & Hin & Hb)]; [now left|].
      right. exists [], fi, rest, fj. auto. }
    destruct (MAX_DUPLICATES <=? List.length (innerLoop h groups fi rest matches))%nat.
    + now apply Hinner.
    + apply IH in H as [H|(pre & fi0 & post & fj & Heq & Hin & Hb)].
      * now apply Hinner.
      * right. exists (fi :: pre), fi0, post, fj. subst rest. auto.
Qed.

(** Where a match of the scan comes from. *)
Definition generated (hashIndex : list (string * list Entry))
  (m : DuplicationMatch) : Prop :=
  exists h entries pre fi post fj,
    In (h, entries) hashIndex
    /\ (2 <= List.length (groupByFile entries))%nat
    /\ Js.keys (groupByFile entries) = (pre ++ fi :: post)%list
    /\ In fj post
    /\ builtFrom h (groupByFile entries) fi fj m.

Lemma findMatches_In hashIndex : forall matches m,
  In m (findMatches hashIndex matches) ->
  In m matches \/ generated hashIndex m.
Proof.
  induction hashIndex as [|[h entries] rest IH]; intros matches m H;
    cbn [findMatches] in H.
  - now left.
  - assert (Hlift : generated rest m -> generated ((h, entries) :: rest) m).
    { intros (h0 & es & pre & fi & post & fj & Hin & Hrest).
      exists h0, es, pre, fi, post, fj. split; [now right | exact Hrest]. }
    destruct (List.length entries <? 2)%nat.
    { apply IH in H as [H|H]; auto. }
    destruct (List.length (groupByFile entries) <? 2)%nat eqn:Hsize.
    { apply IH in H as [H|H]; auto. }
    apply Nat.ltb_ge in Hsize.
    assert (Houter : In m (outerLoop h (groupByFile entries)
                             (Js.keys (groupByFile entries)) matches) ->
                     In m matches \/ generated ((h, entries) :: rest) m).
    { intros Ho. apply outerLoop_In in Ho
        as [Ho|(pre & fi & post & fj & Heq & Hin & Hb)]; [now left|].
      right. exists h, entries, pre, fi, post, fj.
      split; [now left | auto]. }
    destruct (MAX_DUPLICATES <=? _)%nat.
    + now apply Houter.
    + apply IH in H as [H|H]; auto.
Qed.

Lemma generated_facts hashIndex m :
  generated hashIndex m ->
  lineCount m = 6%nat
  /\ fileA m <> fileB m
  /\ exists entries entryA entryB,
       In (hash m, entries) hashIndex
       /\ In entryA entries /\ In entryB entries
       /\ entryFile entryA = fileA m /\ entryFile entryB = fileB m.
Proof.
  intros (h & entries & pre & fi & post & fj & Hin & _ & Hkeys & Hfj & Hb).
  destruct Hb as (entryA & restA & entryB & restB & HA & HB & ->). simpl.
  destruct (groupByFile_ok entries) as (Hnd & Hgrp & _).
  destruct (Hgrp _ _ HA entryA (or_introl eq_refl)) as [EA InA].
  destruct (Hgrp _ _ HB entryB (or_introl eq_refl)) as [EB InB].
  split; [reflexivity|]. split.
  - rewrite EA, EB. rewrite Hkeys in Hnd.
    apply NoDup_remove_2 in Hnd. intros ->. apply Hnd.
    apply in_or_app. now right.
  - exists entries, entryA, entryB. auto.
Qed.

Lemma dedupe_In seen matches m : In m (dedupe seen matches) -> In m matches.
Proof.
  revert seen. induction matches as [|x rest IH]; intros seen H; simpl in H.
  - contradiction.
  - destruct (Js.has seen (pairKey (fileA x) (fileB x))).
    + right. eapply IH; eauto.
    + destruct H as [->|H]; [now left | right; eapply IH; eauto].
Qed.

Lemma dedupe_fresh seen matches m :
  In m (dedupe seen matches) -> ~ In (pairKey (fileA m) (fileB m)) seen.
Proof.
  revert seen. induction matches as [|x rest IH]; intros seen H; simpl in H.
  - contradiction.
  - destruct (Js.has seen (pairKey (fileA x) (fileB x))) eqn:E.
    + now apply IH.
    + destruct H as [->|H].
      * now apply has_false.
      * apply IH in H. intros Hin. apply H. apply In_add. now left.
Qed.

Lemma dedupe_distinct_keys seen matches :
  ForallOrdPairs
    (fun a b => pairKey (fileA a) (fileB a) <> pairKey (fileA b) (fileB b))
    (dedupe seen matches).
Proof.
  revert seen. induction matches as [|x rest IH]; intros seen; simpl.
  - constructor.
  - destruct (Js.has seen (pairKey (fileA x) (fileB x))) eqn:E.
    + apply IH.
    + constructor; [|apply IH].
      apply Forall_forall. intros y Hy Heq.
      apply dedupe_fresh in Hy. apply Hy. apply In_add. right.
      now symmetry.
Qed.

Lemma ltb_asym (a b : string) : String.ltb a b = true -> String.ltb b a = false.
Proof.
  unfold String.ltb. rewrite (String.compare_antisym a b).
  destruct (String.compare b a); simpl; congruence.
Qed.

Lemma ltb_false_both (a b : string) :
  String.ltb a b = false -> String.ltb b a = false -> a = b.
Proof.
  unfold String.ltb. rewrite (String.compare_antisym a b).
  destruct (String.compare b a) eqn:E; simpl; try congruence.
  intros _ _. symmetry. now apply String.compare_eq_iff.
Qed.

Lemma pairKey_sym (a b : string) : pairKey a b = pairKey b a.
Proof.
  unfold pairKey.
  destruct (String.ltb b a) eqn:E1; destruct (String.ltb a b) eqn:E2;
    try reflexivity.
  - apply ltb_asym in E1. congruence.
  - now rewrite (ltb_false_both _ _ E1 E2).
Qed.

(** Two matches report the same unordered pair of files. *)
Definition samePair (a b : DuplicationMatch) : Prop :=
  (fileA a = fileA b /\ fileB a = fileB b)
  \/ (fileA a = fileB b /\ fileB a = fileA b).

Lemma samePair_key a b :
  samePair a b -> pairKey (fileA a) (fileB a) = pairKey (fileA b) (fileB b).
Proof.
  intros [[-> ->]|[-> ->]]; [reflexivity | apply pairKey_sym].
Qed.

Lemma ForallOrdPairs_impl {A} (P Q : A -> A -> Prop) (l : list A) :
  (forall a b, P a b -> Q a b) -> ForallOrdPairs P l -> ForallOrdPairs Q l.
Proof.
  intros HPQ H. induction H as [|a l Ha Hl IH]; constructor; [|exact IH].
  eapply Forall_impl; [|exact Ha]. intros b. apply HPQ.
Qed.

(** C6.  Whatever the hash index (hence whatever the scan order), the
    reported list holds at most one match per unordered pair of files,
    the two files of a match are distinct, and a hash all of whose
    occurrences lie in one file is the hash of no match. *)
Theorem duplications_one_match_per_pair (hashIndex : list (string * list Entry)) :
  ForallOrdPairs (fun a b => ~ samePair a b) (duplications hashIndex)
  /\ Forall (fun m => fileA m <> fileB m) (duplications hashIndex)
  /\ (forall h onlyFile,
        (forall entries e, In (h, entries) hashIndex -> In e entries ->
                           entryFile e = onlyFile) ->
        Forall (fun m => hash m <> h) (duplications hashIndex)).
Proof.
  unfold duplications. split; [|split].
  - eapply ForallOrdPairs_impl; [|apply dedupe_distinct_keys].
    intros a b Hne Hsame. apply Hne. now apply samePair_key.
  - apply Forall_forall. intros m Hm.
    apply dedupe_In, findMatches_In in Hm as [[]|Hm].
    now apply generated_facts in Hm.
  - intros h onlyFile Hone. apply Forall_forall. intros m Hm Hh.
    apply dedupe_In, findMatches_In in Hm as [[]|Hm].
    apply generated_facts in Hm
      as (_ & Hne & entries & entryA & entryB & Hin & HA & HB & EA & EB).
    rewrite Hh in Hin. apply Hne.
    rewrite <- EA, <- EB.
    rewrite (Hone _ _ Hin HA), (Hone _ _ Hin HB). reflexivity.
Qed.

(** C10.  Every match of the analyzer carries [lineCount = 6], whatever
    the digest, the file contents and hence the window that produced it. *)
Theorem lineCount_always_min_chunk (digest : string -> string)
  (codeContent : FileNode -> string) (files : list (string * FileNode)) :
  Forall (fun m => lineCount m = 6%nat)
         (duplicationAnalyzer digest codeContent files).
Proof.
  unfold duplicationAnalyzer, duplications. apply Forall_forall. intros m Hm.
  apply dedupe_In, findMatches_In in Hm as [[]|Hm].
  now apply generated_facts in Hm.
Qed.

End DuplicationFacts.

(* ================================================================== *)
(** * Import resolution: properties                                    *)
(* ================================================================== *)

Section IndexerFacts.

Import Indexer.

Lemma find_app {A} (f : A -> bool) (l1 l2 : list A) :
  find f (l1 ++ l2)%list
  = match find f l1 with Some x => Some x | None => find f l2 end.
Proof.
  induction l1 as [|a l1 IH]; simpl; [reflexivity|].
  destruct (f a); [reflexivity | exact IH].
Qed.

Lemma probe_find files p exts :
  probe files p exts = find (Js.has files) (map (String.append p) exts).
Proof.
  induction exts as [|ext exts IH]; simpl; [reflexivity|].
  destruct (Js.has files (p ++ ext)); [reflexivity | exact IH].
Qed.

Lemma extensions_split p :
  map (String.append p) extensions
  = (map (String.append p) knownExtensions
     ++ map (fun e => String.append p (String.append "/index" e)) indexExtensions)%list.
Proof. reflexivity. Qed.

Lemma firstPresent_In files cands r :
  firstPresent files cands = Some r -> In r files /\ In r cands.
Proof.
  unfold firstPresent. intros H. apply find_some in H as [Hin Hhas].
  split; [now apply has_true | exact Hin].
Qed.

Lemma applyAliases_first importPath pre alias target post :
  (forall a, In a (Js.keys pre) -> aliasMatches importPath a = false) ->
  aliasMatches importPath alias = true ->
  applyAliases importPath (pre ++ (alias, target) :: post)%list
  = Js.replace importPath (Js.stripTrailingSlash alias)
               (Js.stripTrailingSlash target).
Proof.
  intros Hpre Hm. induction pre as [|[a t0] pre IH]; simpl.
  - now rewrite Hm.
  - rewrite (Hpre a) by now left.
    apply IH. intros a' Ha'. apply Hpre. now right.
Qed.

Lemma applyAliases_none importPath entries :
  (forall a, In a (Js.keys entries) -> aliasMatches importPath a = false) ->
  applyAliases importPath entries = importPath.
Proof.
  intros H. induction entries as [|[a t0] entries IH]; simpl; [reflexivity|].
  rewrite (H a) by now left.
  apply IH. intros a' Ha'. apply H. now right.
Qed.

(** The resolver follows the probing order of [candidates]. *)
Lemma resolveImportPath_candidates importPath fromFile files aliases :
  resolveImportPath importPath fromFile files aliases
  = if negb (Js.startsWith importPath "." || Js.startsWith importPath "/")
       && negb (existsb (fun prefix =>
                           Js.startsWith importPath (Js.stripTrailingSlash prefix))
                        (Js.keys aliases))
    then None
    else firstPresent files
           (candidates (resolvedPathOf importPath fromFile aliases)).
Proof.
  unfold resolveImportPath.
  destruct (negb _ && negb _); [reflexivity|].
  unfold firstPresent, candidates.
  set (p := resolvedPathOf importPath fromFile aliases).
  cbn [app find].
  destruct (Js.has files p); [reflexivity|].
  rewrite app_assoc, <- extensions_split, find_app, <- probe_find.
  destruct (probe files p extensions); [reflexivity|].
  cbn [find]. destruct (Js.has files (Js.stripExtension p)); reflexivity.
Qed.

(** *** The first candidate that is indexed *)

Lemma find_first {A} (f : A -> bool) (l : list A) (r : A) :
  find f l = Some r
  <-> exists before after,
        l = (before ++ r :: after)%list /\ f r = true
        /\ forall c, In c before -> f c = false.
Proof.
  split.
  - induction l as [|a l IH]; cbn [find]; [discriminate|].
    destruct (f a) eqn:Ea.
    + intros [= <-]. exists [], l. repeat split; [exact Ea|]. intros c [].
    + intros H. destruct (IH H) as (before & after & -> & Hr & Hb).
      exists (a :: before), after. repeat split; [exact Hr|].
      intros c [<-|Hc]; [exact Ea | now apply Hb].
  - intros (before & after & -> & Hr & Hb).
    induction before as [|a before IH]; cbn [app find].
    + now rewrite Hr.
    + rewrite (Hb a) by now left. apply IH. intros c Hc. apply Hb. now right.
Qed.

Lemma find_nothing {A} (f : A -> bool) (l : list A) :
  find f l = None <-> forall c, In c l -> f c = false.
Proof.
  induction l as [|a l IH]; cbn [find].
  - split; [intros _ c [] | reflexivity].
  - destruct (f a) eqn:Ea.
    + split; [discriminate|]. intros H. rewrite (H a) in Ea by now left.
      discriminate.
    + rewrite IH. split.
      * intros H c [<-|Hc]; [exact Ea | now apply H].
      * intros H c Hc. apply H. now right.
Qed.

Lemma existsb_keys {V} (f : string -> bool) (m : list (string * V)) :
  existsb f (Js.keys m) = existsb (fun entry => f (fst entry)) m.
Proof.
  unfold Js.keys. induction m as [|e m IH]; cbn [map existsb]; [reflexivity|].
  now rewrite IH.
Qed.

(** *** Strings: prefixes and the three regular expressions *)

Lemma append_assoc_str (a b c : string) : (a ++ b) ++ c = a ++ (b ++ c).
Proof. induction a as [|x a IH]; cbn; [reflexivity | now rewrite IH]. Qed.

Lemma prefix_split (p s : string) :
  String.prefix p s = true ->
  s = p ++ Js.drop (String.length p) s.
Proof.
  revert s. induction p as [|c p IH]; intros s H; [reflexivity|].
  destruct s as [|d s]; cbn [String.prefix] in H; [discriminate|].
  destruct (ascii_dec c d) as [->|]; [|discriminate].
  cbn [String.length Js.drop String.append]. now rewrite <- IH.
Qed.

Lemma prefix_app (p rest : string) : String.prefix p (p ++ rest) = true.
Proof.
  induction p as [|c p IH]; cbn; [now destruct rest|].
  destruct (ascii_dec c c); [exact IH | congruence].
Qed.

Lemma drop_prefix (p rest : string) :
  Js.drop (String.length p) (p ++ rest) = rest.
Proof. induction p as [|c p IH]; [now destruct rest | exact IH]. Qed.

Lemma eqb_split (s p : string) :
  String.eqb s p = true -> Js.drop (String.length p) s = "".
Proof.
  intros H. apply String.eqb_eq in H. subst s.
  induction p as [|c p IH]; [reflexivity | exact IH].
Qed.

Lemma replace_at_prefix (s pat template : string) :
  String.prefix pat s = true ->
  Js.replace s pat template
  = Js.getSubstitution pat "" (Js.drop (String.length pat) s) template
    ++ Js.drop (String.length pat) s.
Proof.
  intros H. unfold Js.replace.
  destruct s; cbn [Js.replaceFrom]; rewrite H; reflexivity.
Qed.

Lemma getSubstitution_plain (matched preceding following template : string) :
  (forall a b, template <> a ++ String "$" b) ->
  Js.getSubstitution matched preceding following template = template.
Proof.
  induction template as [|c t IH]; intros H; [reflexivity|].
  cbn [Js.getSubstitution].
  destruct (Ascii.eqb c "$") eqn:Ec.
  - apply Ascii.eqb_eq in Ec. subst c. now destruct (H "" t).
  - rewrite IH; [reflexivity|]. intros a b ->. now apply (H (String c a) b).
Qed.

Lemma getSubstitution_patterns (matched preceding following : string) :
  Js.getSubstitution matched preceding following "" = ""
  /\ (forall t, Js.getSubstitution matched preceding following ("$$" ++ t)
                = "$" ++ Js.getSubstitution matched preceding following t)
  /\ (forall t, Js.getSubstitution matched preceding following ("$&" ++ t)
                = matched ++ Js.getSubstitution matched preceding following t)
  /\ (forall t, Js.getSubstitution matched preceding following ("$`" ++ t)
                = preceding ++ Js.getSubstitution matched preceding following t)
  /\ (forall t, Js.getSubstitution matched preceding following ("$'" ++ t)
                = following ++ Js.getSubstitution matched preceding following t)
  /\ (forall c t,
        c <> "$"%char
        \/ (forall d t', t = String d t' ->
              d <> "$"%char /\ d <> "&"%char /\ d <> "`"%char /\ d <> "'"%char) ->
        Js.getSubstitution matched preceding following (String c t)
        = String c (Js.getSubstitution matched preceding following t)).
Proof.
  repeat split; try reflexivity.
  intros c t H. cbn [Js.getSubstitution].
  destruct (Ascii.eqb c "$") eqn:Ec; [|reflexivity].
  apply Ascii.eqb_eq in Ec. subst c.
  destruct H as [H|H]; [congruence|].
  destruct t as [|d t']; [reflexivity|].
  destruct (H d t' eq_refl) as (H1 & H2 & H3 & H4).
  apply Ascii.eqb_neq in H1, H2, H3, H4.
  now rewrite H1, H2, H3, H4.
Qed.

Lemma stripTrailingSlash_slash (s : string) : Js.stripTrailingSlash (s ++ "/") = s.
Proof.
  induction s as [|c s IH]; [reflexivity|].
  cbn [String.append Js.stripTrailingSlash]. rewrite IH.
  replace (String.eqb (s ++ "/") "") with false by now destruct s.
  now rewrite andb_false_r.
Qed.

Lemma stripTrailingSlash_other (s : string) :
  (forall pre, s <> pre ++ "/") -> Js.stripTrailingSlash s = s.
Proof.
  induction s as [|c s IH]; intros H; [reflexivity|].
  cbn [Js.stripTrailingSlash].
  destruct (Ascii.eqb c "/" && String.eqb s "") eqn:E.
  - apply andb_true_iff in E as [Ec Es].
    apply Ascii.eqb_eq in Ec. apply String.eqb_eq in Es. subst c s.
    now destruct (H "").
  - rewrite IH; [reflexivity|]. intros pre ->. now apply (H (String c pre)).
Qed.

Lemma hasDot_split (s : string) :
  Js.hasDot s = true -> exists a b, s = a ++ String "." b.
Proof.
  induction s as [|c s IH]; cbn [Js.hasDot]; [discriminate|].
  intros H. apply orb_true_iff in H as [H|H].
  - apply Ascii.eqb_eq in H. subst c. now exists "", s.
  - destruct (IH H) as (a & b & ->). now exists (String c a), b.
Qed.

Lemma hasDot_app (a b : string) : Js.hasDot (a ++ String "." b) = true.
Proof.
  induction a as [|c a IH]; cbn [String.append Js.hasDot]; [reflexivity|].
  rewrite IH. apply orb_true_r.
Qed.

Lemma hasDot_none (s : string) :
  (forall a b, s <> a ++ String "." b) -> Js.hasDot s = false.
Proof.
  intros H. destruct (Js.hasDot s) eqn:E; [|reflexivity].
  destruct (hasDot_split _ E) as (a & b & ->). now destruct (H a b).
Qed.

Lemma stripExtension_cut (q ext : string) :
  ext <> "" -> (forall a b, ext <> a ++ String "." b) ->
  Js.stripExtension (q ++ String "." ext) = q.
Proof.
  intros Hne Hnd. induction q as [|c q IH];
    cbn [String.append Js.stripExtension].
  - rewrite (hasDot_none Hnd).
    apply String.eqb_neq in Hne. now rewrite Hne.
  - rewrite hasDot_app, IH. cbn [negb]. now rewrite andb_false_r.
Qed.

Lemma stripExtension_kept (s : string) :
  (forall q ext, ext <> "" -> (forall a b, ext <> a ++ String "." b) ->
                 s <> q ++ String "." ext) ->
  Js.stripExtension s = s.
Proof.
  induction s as [|c s IH]; intros H; [reflexivity|].
  cbn [Js.stripExtension].
  destruct (Ascii.eqb c "." && negb (Js.hasDot s) && negb (String.eqb s ""))
    eqn:E.
  - apply andb_true_iff in E as [E Es]. apply andb_true_iff in E as [Ec Ed].
    apply Ascii.eqb_eq in Ec. subst c.
    apply negb_true_iff in Ed, Es. apply String.eqb_neq in Es.
    destruct (H "" s Es); [|reflexivity].
    intros a b ->. now rewrite hasDot_app in Ed.
  - rewrite IH; [reflexivity|].
    intros q ext Hne Hnd ->. now apply (H (String c q) ext).
Qed.

(** *** The alias loop *)

Lemma applyAliases_find (importPath : string) (aliases : list (string * string)) :
  applyAliases importPath aliases
  = match find (fun entry : string * string =>
                  String.prefix (Js.stripTrailingSlash (fst entry) ++ "/") importPath
                  || String.eqb importPath (Js.stripTrailingSlash (fst entry)))
               aliases with
    | Some (alias, target) =>
        Js.replace importPath (Js.stripTrailingSlash alias)
                   (Js.stripTrailingSlash target)
    | None => importPath
    end.
Proof.
  induction aliases as [|[alias target] aliases IH]; cbn [applyAliases find fst];
    [reflexivity|].
  unfold aliasMatches, Js.startsWith. cbv zeta.
  destruct (String.prefix (Js.stripTrailingSlash alias ++ "/") importPath
            || String.eqb importPath (Js.stripTrailingSlash alias));
    [reflexivity | exact IH].
Qed.

Lemma alias_rest (importPath cleanAlias : string) :
  String.prefix (cleanAlias ++ "/") importPath || String.eqb importPath cleanAlias
  = true ->
  String.prefix cleanAlias importPath = true
  /\ importPath = cleanAlias ++ Js.drop (String.length cleanAlias) importPath
  /\ (Js.drop (String.length cleanAlias) importPath = ""
      \/ exists tail,
           Js.drop (String.length cleanAlias) importPath = "/" ++ tail).
Proof.
  intros H. apply orb_true_iff in H as [H|H].
  - apply prefix_split in H. rewrite append_assoc_str in H.
    set (tail := Js.drop (String.length (cleanAlias ++ "/")) importPath) in H.
    assert (Hp : String.prefix cleanAlias importPath = true)
      by (rewrite H; apply prefix_app).
    split; [exact Hp|]. split; [now apply prefix_split|].
    right. exists tail. rewrite H at 1. apply drop_prefix.
  - pose proof (eqb_split _ _ H) as Hd. apply String.eqb_eq in H.
    assert (Hp : String.prefix cleanAlias importPath = true).
    { subst importPath. rewrite <- (prefix_app cleanAlias "") at 1.
      f_equal. clear. induction cleanAlias as [|c a IH]; cbn; congruence. }
    split; [exact Hp|]. split; [now apply prefix_split | now left].
Qed.

(** C7 (as amended).  The resolver, written out.  A specifier is internal
    when it starts with a dot or a slash, or with the key of some alias
    once the trailing slash of the key is removed; any other specifier
    gives no edge.  For an internal specifier the first alias of the
    table applies whose key, trailing slash removed, is the specifier
    itself or is followed in it by a slash: that prefix is replaced by
    the target of the alias, trailing slash removed and read as a
    replacement pattern (a target without a dollar sign is taken as
    written); when no alias applies the specifier is kept.  A path that
    then starts with a dot is joined to the directory of the importer.
    The candidates are, in order, the path, the path plus each of
    [.ts .tsx .js .jsx .vue .svelte .mjs], the path plus [/index] plus
    each of [.ts .tsx .js .jsx .vue], and the path cut at its last dot
    when at least one character follows that dot (the path itself
    otherwise).  The result is the first candidate that is indexed; when
    none is, there is no edge.  A result is always an indexed path. *)
Theorem resolveImportPath_probing_order
  (importPath fromFile : string) (files : list string)
  (aliases : list (string * string)) :
  let clean := Js.stripTrailingSlash in
  let cut := Js.stripExtension in
  let internal :=
    String.prefix "." importPath || String.prefix "/" importPath
    || existsb (fun entry : string * string =>
                  String.prefix (clean (fst entry)) importPath) aliases in
  let applies := fun entry : string * string =>
    String.prefix (clean (fst entry) ++ "/") importPath
    || String.eqb importPath (clean (fst entry)) in
  let substituted :=
    match find applies aliases with
    | Some (alias, target) => Js.replace importPath (clean alias) (clean target)
    | None => importPath
    end in
  let path :=
    if String.prefix "." substituted
    then Js.backslashesToSlashes (Path.join (Path.dirname fromFile) substituted)
    else substituted in
  let cands :=
    [path;
     path ++ ".ts"; path ++ ".tsx"; path ++ ".js"; path ++ ".jsx";
     path ++ ".vue"; path ++ ".svelte"; path ++ ".mjs";
     path ++ "/index.ts"; path ++ "/index.tsx"; path ++ "/index.js";
     path ++ "/index.jsx"; path ++ "/index.vue";
     cut path] in
  let resolved := resolveImportPath importPath fromFile files aliases in
  (internal = false -> resolved = None)
  /\ (internal = true ->
      forall r,
        resolved = Some r
        <-> exists before after,
              cands = (before ++ r :: after)%list /\ In r files
              /\ forall c, In c before -> ~ In c files)
  /\ (internal = true ->
      (resolved = None <-> forall c, In c cands -> ~ In c files))
  /\ (forall r, resolved = Some r -> In r files)
  /\ (forall alias target,
        find applies aliases = Some (alias, target) ->
        exists rest,
          importPath = clean alias ++ rest
          /\ (rest = "" \/ exists tail, rest = "/" ++ tail)
          /\ substituted
             = Js.getSubstitution (clean alias) "" rest (clean target) ++ rest
          /\ ((forall a b, clean target <> a ++ String "$" b) ->
              substituted = clean target ++ rest))
  /\ (forall matched preceding following,
        Js.getSubstitution matched preceding following "" = ""
        /\ (forall t, Js.getSubstitution matched preceding following ("$$" ++ t)
                      = "$" ++ Js.getSubstitution matched preceding following t)
        /\ (forall t, Js.getSubstitution matched preceding following ("$&" ++ t)
                      = matched ++ Js.getSubstitution matched preceding following t)
        /\ (forall t, Js.getSubstitution matched preceding following ("$`" ++ t)
                      = preceding ++ Js.getSubstitution matched preceding following t)
        /\ (forall t, Js.getSubstitution matched preceding following ("$'" ++ t)
                      = following ++ Js.getSubstitution matched preceding following t)
        /\ (forall c t,
              c <> "$"%char
              \/ (forall d t', t = String d t' ->
                    d <> "$"%char /\ d <> "&"%char /\ d <> "`"%char
                    /\ d <> "'"%char) ->
              Js.getSubstitution matched preceding following (String c t)
              = String c (Js.getSubstitution matched preceding following t)))
  /\ (forall s, clean (s ++ "/") = s)
  /\ (forall s, (forall pre, s <> pre ++ "/") -> clean s = s)
  /\ (forall q ext,
        ext <> "" -> (forall a b, ext <> a ++ String "." b) ->
        cut (q ++ String "." ext) = q)
  /\ (forall s,
        (forall q ext,
           ext <> "" -> (forall a b, ext <> a ++ String "." b) ->
           s <> q ++ String "." ext) ->
        cut s = s).
Proof.
  intros clean cut internal applies substituted path cands resolved.
  assert (Hsub : substituted = applyAliases importPath aliases)
    by (symmetry; apply applyAliases_find).
  assert (Hpath : path = resolvedPathOf importPath fromFile aliases)
    by (unfold path, resolvedPathOf, Js.startsWith; now rewrite Hsub).
  assert (Heq : resolved = if internal then find (Js.has files) cands else None).
  { unfold resolved. rewrite resolveImportPath_candidates, existsb_keys.
    unfold Js.startsWith. fold clean. fold internal.
    rewrite <- negb_orb. fold internal.
    destruct internal; cbn [negb]; [|reflexivity].
    unfold firstPresent, cands. now rewrite <- Hpath. }
  split; [intros H; now rewrite Heq, H|].
  split.
  { intros H r. rewrite Heq, H, find_first. split.
    - intros (before & after & Hc & Hr & Hb). exists before, after.
      split; [exact Hc|]. split; [now apply has_true|].
      intros c Hc'. apply has_false. now apply Hb.
    - intros (before & after & Hc & Hr & Hb). exists before, after.
      split; [exact Hc|]. split; [now apply has_true|].
      intros c Hc'. apply has_false. now apply Hb. }
  split.
  { intros H. rewrite Heq, H, find_nothing. split.
    - intros Hn c Hc. apply has_false. now apply Hn.
    - intros Hn c Hc. apply has_false. now apply Hn. }
  split.
  { intros r Hr. rewrite Heq in Hr. destruct internal; [|discriminate].
    apply find_some in Hr. now apply has_true. }
  split.
  { intros alias target Hf. pose proof (find_some _ _ Hf) as [_ Ha].
    unfold applies in Ha. cbn [fst] in Ha.
    destruct (alias_rest _ _ Ha) as (Hp & Hd & Hrest).
    exists (Js.drop (String.length (clean alias)) importPath).
    split; [exact Hd|]. split; [exact Hrest|].
    assert (Hs : substituted
                 = Js.getSubstitution (clean alias) ""
                     (Js.drop (String.length (clean alias)) importPath)
                     (clean target)
                   ++ Js.drop (String.length (clean alias)) importPath).
    { unfold substituted. rewrite Hf. now apply replace_at_prefix. }
    split; [exact Hs|].
    intros Hplain. rewrite Hs. now rewrite getSubstitution_plain. }
  split; [apply getSubstitution_patterns|].
  split; [apply stripTrailingSlash_slash|].
  split; [apply stripTrailingSlash_other|].
  split; [apply stripExtension_cut | apply stripExtension_kept].
Qed.

(** C7 as stated fails in three ways.  With [/index] tried for every
    known extension the specifier [./foo] would resolve to
    [src/foo/index.svelte]; the resolver never probes that candidate.
    The last candidate is the path cut at its last dot even when that dot
    is not in the last segment: [./a.ts.d/foo], whose last segment has no
    extension, resolves to [src/a.ts].  And a specifier that starts with
    neither a dot, a slash nor an alias key is still resolved when it
    starts with an alias key without its trailing slash: under the alias
    [@/] the package [@scope/pkg] resolves to an indexed
    [@scope/pkg/index.jsx]. *)
Lemma resolveImportPath_departs_from_stated_order :
  (resolveImportPath "./foo" "src/a.ts" ["src/foo/index.svelte"] [] = None
   /\ firstPresent ["src/foo/index.svelte"]
        (specCandidates (resolvedPathOf "./foo" "src/a.ts" []))
      = Some "src/foo/index.svelte")
  /\ (resolveImportPath "./a.ts.d/foo" "src/x.ts" ["src/a.ts"] []
      = Some "src/a.ts"
      /\ resolvedPathOf "./a.ts.d/foo" "src/x.ts" [] = "src/a.ts.d/foo"
      /\ firstPresent ["src/a.ts"] (specCandidates "src/a.ts.d/foo") = None)
  /\ (resolveImportPath "@scope/pkg" "src/x.ts" ["@scope/pkg/index.jsx"]
        [("@/", "src/")]
      = Some "@scope/pkg/index.jsx"
      /\ specInternal "@scope/pkg" [("@/", "src/")] = false).
Proof. repeat split. Qed.

End IndexerFacts.

(* ================================================================== *)
(** * Fan-in and fan-out                                               *)
(* ================================================================== *)

Section FanFacts.

Definition targets (rel : string) (e : ImportEdge) : bool :=
  String.eqb (target e) rel.

Definition comesFrom (rel : string) (e : ImportEdge) : bool :=
  String.eqb (source e) rel.

Lemma countAt_increment m k k' :
  Quality.countAt (Quality.increment m k) k'
  = (Quality.countAt m k' + if String.eqb k k' then 1 else 0)%nat.
Proof.
  unfold Quality.countAt, Quality.increment.
  destruct (String.eqb k k') eqn:E.
  - apply String.eqb_eq in E; subst k'. rewrite get_set_same. reflexivity.
  - apply String.eqb_neq in E. rewrite get_set_other by exact E. lia.
Qed.

Lemma count_fold (key : ImportEdge -> string) graph rel : forall m,
  Quality.countAt
    (fold_left (fun m e => Quality.increment m (key e)) graph m) rel
  = (Quality.countAt m rel
     + List.length (filter (fun e => String.eqb (key e) rel) graph))%nat.
Proof.
  induction graph as [|e graph IH]; intros m; simpl; [lia|].
  rewrite IH, countAt_increment.
  destruct (String.eqb (key e) rel); simpl; lia.
Qed.

Lemma quality_fanIn_counts_edges graph rel :
  Quality.fanInOf graph rel = List.length (filter (targets rel) graph).
Proof.
  unfold Quality.fanInOf, Quality.fanInMap.
  rewrite (count_fold target). reflexivity.
Qed.

Lemma quality_fanOut_counts_edges graph rel :
  Quality.fanOutOf graph rel = List.length (filter (comesFrom rel) graph).
Proof.
  unfold Quality.fanOutOf, Quality.fanOutMap.
  rewrite (count_fold source). reflexivity.
Qed.

(** What the impact analyzer keeps for a target: the set of its
    importers. *)
Definition importersOk (graph : list ImportEdge)
  (m : list (string * list string)) : Prop :=
  forall rel,
    match Js.get m rel with
    | Some sources =>
        NoDup sources
        /\ forall s, In s sources <->
                     exists e, In e graph /\ target e = rel /\ source e = s
    | None => forall e, In e graph -> target e <> rel
    end.

Lemma fanInMap_edge_ok graph m e :
  importersOk graph m ->
  importersOk (graph ++ [e])%list (Impact.fanInMap_edge m e).
Proof.
  intros Hok rel. unfold Impact.fanInMap_edge.
  set (m1 := if Js.hasKey m (target e) then m else Js.set m (target e) []).
  assert (H1 : forall r,
             match Js.get m1 r with
             | Some sources =>
                 NoDup sources
                 /\ forall s, In s sources <->
                              exists e0, In e0 graph /\ target e0 = r /\ source e0 = s
             | None => r <> target e /\ forall e0, In e0 graph -> target e0 <> r
             end).
  { intros r. unfold m1. specialize (Hok r).
    destruct (Js.hasKey m (target e)) eqn:E.
    - destruct (Js.get m r) eqn:Er; [exact Hok|].
      split; [|exact Hok]. intros ->.
      apply hasKey_true, key_get_Some in E as [v Hv]. congruence.
    - apply hasKey_false in E.
      destruct (string_dec (target e) r) as [<-|Hne].
      + rewrite get_set_same. rewrite E in Hok.
        split; [constructor|]. intros s. split; [contradiction|].
        intros (e0 & Hin & Ht & _). now apply Hok in Hin.
      + rewrite get_set_other by exact Hne.
        destruct (Js.get m r); [exact Hok|].
        split; [congruence | exact Hok]. }
  destruct (string_dec (target e) rel) as [<-|Hne].
  - rewrite get_modify_same. specialize (H1 (target e)).
    destruct (Js.get m1 (target e)) as [sources|]; simpl.
    + destruct H1 as [Hnd Hin]. split; [now apply NoDup_add|].
      intros s. rewrite In_add, Hin. split.
      * intros [(e0 & H0 & Ht & Hs)| ->].
        -- exists e0. split; [apply in_or_app; now left | auto].
        -- exists e. split; [apply in_or_app; right; now left | auto].
      * intros (e0 & H0 & Ht & Hs).
        apply in_app_or in H0 as [H0|[<-|[]]]; [left; eauto | now right].
    + destruct H1 as [H1 _]. congruence.
  - rewrite get_modify_other by exact Hne. specialize (H1 rel).
    destruct (Js.get m1 rel) as [sources|].
    + destruct H1 as [Hnd Hin]. split; [exact Hnd|].
      intros s. rewrite Hin. split.
      * intros (e0 & H0 & Ht & Hs).
        exists e0. split; [apply in_or_app; now left | auto].
      * intros (e0 & H0 & Ht & Hs).
        apply in_app_or in H0 as [H0|[<-|[]]]; [eauto | congruence].
    + destruct H1 as [_ H1]. intros e0 H0.
      apply in_app_or in H0 as [H0|[<-|[]]]; [now apply H1 | exact Hne].
Qed.

Lemma fanInMap_ok graph : importersOk graph (Impact.fanInMap graph).
Proof.
  unfold Impact.fanInMap.
  induction graph as [|e graph IH] using rev_ind.
  - intros rel. simpl. intros e [].
  - rewrite fold_left_app. simpl. now apply fanInMap_edge_ok.
Qed.

Lemma impact_fanIn_counts_importers (st : InspectorStore) (rel : string) :
  Impact.fanInOf st rel
  = List.length (nodup string_dec
                   (map source (filter (targets rel) (importGraph st)))).
Proof.
  unfold Impact.fanInOf, Impact.sizeAt.
  pose proof (fanInMap_ok (importGraph st) rel) as H.
  destruct (Js.get (Impact.fanInMap (importGraph st)) rel) as [sources|].
  - destruct H as [Hnd Hin]. apply Permutation_length.
    apply NoDup_Permutation; [exact Hnd | apply NoDup_nodup |].
    intros s. rewrite Hin, nodup_In, in_map_iff. split.
    + intros (e & He & Ht & Hs). exists e. split; [exact Hs|].
      apply filter_In. split; [exact He|].
      unfold targets. now apply String.eqb_eq.
    + intros (e & Hs & He). apply filter_In in He as [He Ht].
      exists e. unfold targets in Ht. apply String.eqb_eq in Ht. auto.
  - replace (filter (targets rel) (importGraph st)) with (@nil ImportEdge);
      [reflexivity|].
    symmetry. induction (importGraph st) as [|e g IH]; [reflexivity|].
    simpl. unfold targets at 1.
    destruct (String.eqb (target e) rel) eqn:E.
    + apply String.eqb_eq in E. exfalso. apply (H e); [now left | exact E].
    + apply IH. intros e0 H0. apply H. now right.
Qed.

(** C5 (as amended).  The metrics aggregator counts edges: its fan-in of
    a file is the number of edges into it and its fan-out the number of
    edges out of it, parallel edges included.  The fan-in that the impact
    analyzer feeds into its formula is the number of distinct files that
    import the file. *)
Theorem fan_counts (st : InspectorStore) (rel : string) :
  Quality.fanInOf (importGraph st) rel
  = List.length (filter (targets rel) (importGraph st))
  /\ Quality.fanOutOf (importGraph st) rel
     = List.length (filter (comesFrom rel) (importGraph st))
  /\ Impact.nodeFanIn (Impact.nodeOf st rel)
     = List.length (nodup string_dec
                      (map source (filter (targets rel) (importGraph st)))).
Proof.
  split; [apply quality_fanIn_counts_edges|].
  split; [apply quality_fanOut_counts_edges|].
  apply impact_fanIn_counts_importers.
Qed.

Definition plainEdge (s t : string) : ImportEdge :=
  {| source := s; target := t; specifiers := [];
     isDefault := false; isDynamic := false |}.

Definition storeOfGraph (graph : list ImportEdge) : InspectorStore :=
  {| skipGit := true; config := None; storeFiles := [];
     importGraph := graph; features := []; fileMetrics := [];
     gitChurns := [] |}.

(** C5 as stated fails for the impact analyzer: two parallel edges from
    [a.ts] to [b.ts] give [b.ts] a fan-in of 1 there, not 2 (the metrics
    aggregator reports 2). *)
Lemma impact_fanIn_ignores_parallel_edges :
  let graph := [plainEdge "a.ts" "b.ts"; plainEdge "a.ts" "b.ts"] in
  Impact.nodeFanIn (Impact.nodeOf (storeOfGraph graph) "b.ts") = 1%nat
  /\ List.length (filter (targets "b.ts") graph) = 2%nat
  /\ Quality.fanInOf graph "b.ts" = 2%nat
  /\ Impact.nodeFanIn (Impact.nodeOf (storeOfGraph graph) "b.ts")
     <> List.length (filter (targets "b.ts") graph).
Proof.
  cbv zeta. repeat split; try reflexivity. vm_compute. discriminate.
Qed.

End FanFacts.

(* ================================================================== *)
(** * Feature grouper: properties                                      *)
(* ================================================================== *)

Section GrouperFacts.

Import Grouper.

(** A file has no cluster id yet. *)
Definition unassigned (st : State) (f : string) : Prop :=
  Js.get (fileToFeature st) f = None.

Lemma signal3_edge_elsewhere st e f :
  target e <> f ->
  Js.get (fileToFeature (signal3_edge st e)) f = Js.get (fileToFeature st) f.
Proof.
  intros Hne. unfold signal3_edge.
  destruct (Js.get (fileToFeature st) (source e)) as [sf|]; [|reflexivity].
  destruct (Js.truthy sf && negb _); [|reflexivity].
  destruct (Js.get (featureMap st) sf) as [feature|]; [|reflexivity].
  destruct (negb _); [|reflexivity].
  simpl. now apply get_set_other.
Qed.

Lemma signal3_edge_idle st e :
  unassigned st (source e) -> signal3_edge st e = st.
Proof.
  unfold unassigned, signal3_edge. now intros ->.
Qed.

Lemma signal3_snoc edges e st :
  signal3 (edges ++ [e])%list st = signal3_edge (signal3 edges st) e.
Proof. unfold signal3. now rewrite fold_left_app. Qed.

(** The pass assigns only targets of edges. *)
Lemma signal3_untargeted edges st f :
  unassigned st f ->
  (forall e, In e edges -> target e <> f) ->
  unassigned (signal3 edges st) f.
Proof.
  induction edges as [|e edges IH] using rev_ind; intros Hun Hno.
  - exact Hun.
  - rewrite signal3_snoc. unfold unassigned.
    rewrite signal3_edge_elsewhere.
    + apply IH; [exact Hun|]. intros e0 H0. apply Hno, in_or_app. now left.
    + apply Hno, in_or_app. right. now left.
Qed.

(** C2 (as amended).  Signal 3 reads the index it is writing, so a file
    two hops away is reached when the edge into its importer comes first
    in the edge list.  A file unassigned at the start of the pass stays
    unassigned when every edge into it comes from a file that is
    unassigned at the start and is the target of no earlier edge. *)
Theorem signal3_one_hop_when_ordered
  (st : State) (edges : list ImportEdge) (f : string) :
  unassigned st f ->
  (forall pre e post,
     edges = (pre ++ e :: post)%list -> target e = f ->
     unassigned st (source e)
     /\ forall e', In e' pre -> target e' <> source e) ->
  unassigned (signal3 edges st) f.
Proof.
  intros Hun. induction edges as [|e edges IH] using rev_ind; intros Hord.
  - exact Hun.
  - rewrite signal3_snoc.
    assert (Hprev : unassigned (signal3 edges st) f).
    { apply IH. intros pre e0 post -> Ht.
      apply (Hord pre e0 (post ++ [e])%list); [|exact Ht].
      now rewrite <- app_assoc. }
    destruct (string_dec (target e) f) as [Ht|Ht].
    + destruct (Hord edges e [] eq_refl Ht) as [Hsrc Hpre].
      rewrite signal3_edge_idle; [exact Hprev|].
      now apply signal3_untargeted.
    + unfold unassigned. now rewrite signal3_edge_elsewhere.
Qed.

(** The one-hop property as the claim words it. *)
Definition oneHop (st : State) (edges : list ImportEdge) (f : string) : Prop :=
  unassigned st f ->
  (forall e, In e edges -> target e = f -> unassigned st (source e)) ->
  unassigned (signal3 edges st) f.

Definition chainFiles : list string := ["src/cart/a.ts"; "lib/b.ts"; "lib/c.ts"].

Definition afterSignals12 : State :=
  signal2 None chainFiles (signal1 None chainFiles initial).

(** C2 as stated fails: [a.ts] is in cluster [cart], [a.ts] imports
    [b.ts] and [b.ts] imports [c.ts]; with the edges in that order one
    pass assigns [c.ts] too, in the other order it does not. *)
Lemma signal3_reaches_two_hops :
  let forward := [plainEdge "src/cart/a.ts" "lib/b.ts";
                  plainEdge "lib/b.ts" "lib/c.ts"] in
  let backward := [plainEdge "lib/b.ts" "lib/c.ts";
                   plainEdge "src/cart/a.ts" "lib/b.ts"] in
  Js.get (fileToFeature afterSignals12) "src/cart/a.ts" = Some "cart"
  /\ Js.get (fileToFeature (signal3 forward afterSignals12)) "lib/c.ts"
     = Some "cart"
  /\ Js.get (fileToFeature (signal3 backward afterSignals12)) "lib/c.ts" = None
  /\ ~ oneHop afterSignals12 forward "lib/c.ts".
Proof.
  cbv zeta. split; [reflexivity|]. split; [reflexivity|]. split; [reflexivity|].
  intros H. unfold oneHop, unassigned in H.
  assert (Hc : Js.get (fileToFeature
                 (signal3 [plainEdge "src/cart/a.ts" "lib/b.ts";
                           plainEdge "lib/b.ts" "lib/c.ts"] afterSignals12))
                 "lib/c.ts" = None).
  { apply H; [reflexivity|].
    intros e [<-|[<-|[]]] Ht; [discriminate Ht | reflexivity]. }
  vm_compute in Hc. discriminate Hc.
Qed.

Definition nuxtConfig : option ProjectConfig :=
  Some {| packages := [ {| dir := "."; framework := "nuxt" |} ];
          aliases := [];
          conventionPaths := ["pages/"; "layouts/"; "store/"] |}.

(** C8 at the failing input: a Nuxt project with the page
    [pages/checkout.vue].  Signal 1 assigns the page to the cluster
    [checkout.vue]; signal 2 finds no cluster named [checkout], creates
    it, adds the page to it and overwrites the page's cluster id. *)
Lemma signal2_overwrites_cluster_id :
  let fileKeys := ["pages/checkout.vue"] in
  let st1 := signal1 nuxtConfig fileKeys initial in
  let st2 := signal2 nuxtConfig fileKeys st1 in
  Js.get (fileToFeature st1) "pages/checkout.vue" = Some "checkout.vue"
  /\ Js.get (fileToFeature st2) "pages/checkout.vue" = Some "checkout"
  /\ map (fun kv => (fst kv, files (snd kv))) (featureMap st2)
     = [("checkout.vue", ["pages/checkout.vue"]);
        ("checkout", ["pages/checkout.vue"])].
Proof. cbv zeta. repeat split; reflexivity. Qed.

(** C1 at the same input: after the whole run the page is a member of
    two clusters. *)
Lemma featureGrouper_file_in_two_clusters :
  map (fun f => (id f, files f))
      (featureGrouper nuxtConfig ["pages/checkout.vue"] [] true [])
  = [("checkout.vue", ["pages/checkout.vue"]);
     ("checkout", ["pages/checkout.vue"])].
Proof. reflexivity. Qed.

End GrouperFacts.

(* ================================================================== *)
(** * JavaScript numbers: bounds through rounding                      *)
(* ================================================================== *)

Section NumFacts.

Local Open Scope Z_scope.

Lemma digits2_size p : digits2_pos p = Pos.size p.
Proof. induction p; simpl; congruence. Qed.

Lemma digits_upper p : Zpos p < 2 ^ Zpos (digits2_pos p).
Proof.
  rewrite digits2_size. pose proof (Pos.size_gt p) as H.
  apply Pos2Z.pos_lt_pos in H. now rewrite Pos2Z.inj_pow in H.
Qed.

Lemma digits_lower p : 2 ^ (Zpos (digits2_pos p) - 1) <= Zpos p.
Proof.
  rewrite digits2_size. pose proof (Pos.size_le p) as H.
  apply Pos2Z.pos_le_pos in H. rewrite Pos2Z.inj_pow in H.
  replace (Zpos (Pos.size p)) with (Z.succ (Zpos (Pos.size p) - 1)) in H by lia.
  rewrite Z.pow_succ_r in H by lia.
  set (t := 2 ^ (Zpos (Pos.size p) - 1)) in *.
  change (Zpos p~0) with (2 * Zpos p) in H. lia.
Qed.

Lemma digits_le_of_lt p j : 0 <= j -> Zpos p < 2 ^ j -> Zpos (digits2_pos p) <= j.
Proof.
  intros Hj H. pose proof (digits_lower p) as L.
  destruct (Z_le_gt_dec (Zpos (digits2_pos p)) j) as [|G]; [assumption|].
  exfalso. assert (2 ^ j <= 2 ^ (Zpos (digits2_pos p) - 1)).
  { apply Z.pow_le_mono_r; lia. }
  lia.
Qed.

Lemma digits_gt_of_le p j : 2 ^ j <= Zpos p -> j < Zpos (digits2_pos p).
Proof.
  intros H. pose proof (digits_upper p) as U.
  destruct (Z_lt_le_dec j (Zpos (digits2_pos p))) as [|G]; [assumption|].
  exfalso. assert (2 ^ Zpos (digits2_pos p) <= 2 ^ j).
  { apply Z.pow_le_mono_r; lia. }
  lia.
Qed.

(* upper integer bound of the value kept in a shift record *)
Definition hi (mrs : shr_record) : Z :=
  shr_m mrs + if shr_r mrs || shr_s mrs then 1 else 0.

Lemma shr_1_m mrs : 0 <= shr_m mrs -> shr_m (shr_1 mrs) = shr_m mrs / 2.
Proof.
  destruct mrs as [m r s]. simpl. intros Hm.
  destruct m as [|p|p]; [reflexivity| |lia].
  destruct p as [p|p|]; simpl shr_m.
  - change (Zpos p~1) with (2 * Zpos p + 1). apply Z.div_unique with 1; lia.
  - change (Zpos p~0) with (2 * Zpos p). apply Z.div_unique with 0; lia.
  - reflexivity.
Qed.

Lemma shr_1_hi mrs : 0 <= shr_m mrs -> hi (shr_1 mrs) = (hi mrs + 1) / 2.
Proof.
  destruct mrs as [m r s]. unfold hi. simpl. intros Hm.
  destruct m as [|p|p]; [| |lia].
  - simpl. destruct (r || s); reflexivity.
  - destruct p as [p|p|]; simpl shr_m; simpl shr_r; simpl shr_s.
    + change (Zpos p~1) with (2 * Zpos p + 1). simpl orb.
      destruct (r || s).
      * apply Z.div_unique with 1; lia.
      * apply Z.div_unique with 0; lia.
    + change (Zpos p~0) with (2 * Zpos p). simpl orb.
      destruct (r || s).
      * apply Z.div_unique with 0; lia.
      * apply Z.div_unique with 1; lia.
    + simpl orb. destruct (r || s); reflexivity.
Qed.

Lemma shr_1_nonneg mrs : 0 <= shr_m mrs -> 0 <= shr_m (shr_1 mrs).
Proof.
  intros H. rewrite shr_1_m by assumption. apply Z.div_pos; lia.
Qed.

Lemma iter_shr_spec p : forall mrs, 0 <= shr_m mrs ->
  0 <= shr_m (iter_pos shr_1 p mrs)
  /\ shr_m (iter_pos shr_1 p mrs) = shr_m mrs / 2 ^ Zpos p
  /\ forall N, hi mrs <= N * 2 ^ Zpos p -> hi (iter_pos shr_1 p mrs) <= N.
Proof.
  induction p as [p IH|p IH|]; intros mrs Hm; simpl iter_pos.
  - pose proof (@shr_1_nonneg mrs Hm) as H1.
    destruct (IH _ H1) as (H2 & E2 & U2).
    destruct (IH _ H2) as (H3 & E3 & U3).
    split; [assumption|]. split.
    + rewrite E3, E2, shr_1_m by assumption.
      rewrite !Z.div_div by lia. f_equal.
      change (Zpos p~1) with (2 * Zpos p + 1).
      rewrite Z.pow_add_r, Z.pow_mul_r by lia.
      change (2 ^ 2) with 4. change (2 ^ 1) with 2.
      replace (4 ^ Zpos p) with (2 ^ Zpos p * 2 ^ Zpos p).
      * ring.
      * rewrite <- Z.pow_mul_l. reflexivity.
    + intros N HN. apply U3. apply U2. rewrite shr_1_hi by assumption.
      apply Z.lt_succ_r, Z.div_lt_upper_bound; [lia|].
      change (Zpos p~1) with (2 * Zpos p + 1) in HN.
      rewrite Z.pow_add_r, Z.pow_mul_r in HN by lia.
      change (2 ^ 2) with 4 in HN. change (2 ^ 1) with 2 in HN.
      replace (4 ^ Zpos p) with (2 ^ Zpos p * 2 ^ Zpos p) in HN
        by (rewrite <- Z.pow_mul_l; reflexivity).
      assert (0 < 2 ^ Zpos p) by (apply Z.pow_pos_nonneg; lia).
      nia.
  - destruct (IH _ Hm) as (H2 & E2 & U2).
    destruct (IH _ H2) as (H3 & E3 & U3).
    split; [assumption|]. split.
    + rewrite E3, E2. rewrite Z.div_div by (try apply Z.pow_pos_nonneg; lia).
      f_equal. change (Zpos p~0) with (2 * Zpos p). rewrite Z.pow_mul_r by lia.
      change (2 ^ 2) with 4. rewrite <- Z.pow_mul_l. reflexivity.
    + intros N HN. apply U3. apply U2.
      change (Zpos p~0) with (2 * Zpos p) in HN. rewrite Z.pow_mul_r in HN by lia.
      change (2 ^ 2) with 4 in HN.
      replace (4 ^ Zpos p) with (2 ^ Zpos p * 2 ^ Zpos p) in HN
        by (rewrite <- Z.pow_mul_l; reflexivity).
      lia.
  - split; [now apply shr_1_nonneg|]. split.
    + now rewrite shr_1_m.
    + intros N HN. rewrite shr_1_hi by assumption.
      apply Z.lt_succ_r, Z.div_lt_upper_bound; [lia|].
      change (2 ^ 1) with 2 in HN. lia.
Qed.

Abbreviation fexp := (SpecFloat.fexp Num.prec Num.emax).

Lemma fexp_ge k : k - 53 <= fexp k.
Proof. unfold SpecFloat.fexp, Num.prec. lia. Qed.

Lemma fexp_nonpos k : k <= 53 -> fexp k <= 0.
Proof. unfold SpecFloat.fexp, emin, Num.prec, Num.emax. lia. Qed.

Lemma shr_spec mrs e n : 0 <= shr_m mrs ->
  snd (shr mrs e n) = e + Z.max 0 n
  /\ 0 <= shr_m (fst (shr mrs e n))
  /\ shr_m (fst (shr mrs e n)) = shr_m mrs / 2 ^ Z.max 0 n
  /\ forall N, hi mrs <= N * 2 ^ Z.max 0 n -> hi (fst (shr mrs e n)) <= N.
Proof.
  intros Hm. destruct n as [|p|p]; simpl shr; cbn [fst snd].
  - change (Z.max 0 0) with 0. rewrite Z.add_0_r, Z.pow_0_r, Z.div_1_r.
    repeat split; try assumption. intros N HN. lia.
  - replace (Z.max 0 (Zpos p)) with (Zpos p) by lia.
    destruct (@iter_shr_spec p mrs Hm) as (H1 & H2 & H3).
    repeat split; assumption.
  - replace (Z.max 0 (Zneg p)) with 0 by lia.
    rewrite Z.add_0_r, Z.pow_0_r, Z.div_1_r.
    repeat split; try assumption. intros N HN. lia.
Qed.

(* 0 when the location is exact, 1 otherwise *)
Definition slack (l : location) : Z :=
  match l with loc_Exact => 0 | loc_Inexact _ => 1 end.

Lemma record_of_loc_m m l : shr_m (shr_record_of_loc m l) = m.
Proof. destruct l as [|[| |]]; reflexivity. Qed.

Lemma record_of_loc_hi m l : hi (shr_record_of_loc m l) = m + slack l.
Proof. destruct l as [|[| |]]; unfold hi; simpl; lia. Qed.

Lemma round_between mrs :
  shr_m mrs <= round_nearest_even (shr_m mrs) (loc_of_shr_record mrs) <= hi mrs.
Proof.
  destruct mrs as [m [|] [|]]; unfold hi; simpl; try lia.
  destruct (Z.even m); lia.
Qed.

(* The two shifts of [binary_round_aux], made explicit. *)
Lemma round_aux_shape sx mx ex lx : 0 <= mx ->
  exists e1 m1 e2 m2,
    e1 = ex + Z.max 0 (fexp (Zdigits2 mx + ex) - ex)
    /\ mx / 2 ^ (e1 - ex) <= m1
    /\ (forall N, mx + slack lx <= N * 2 ^ (e1 - ex) -> m1 <= N)
    /\ e2 = e1 + Z.max 0 (fexp (Zdigits2 m1 + e1) - e1)
    /\ m2 = m1 / 2 ^ (e2 - e1)
    /\ binary_round_aux Num.prec Num.emax sx mx ex lx
       = match m2 with
         | Z0 => S754_zero sx
         | Zpos m => if e2 <=? Num.emax - Num.prec then S754_finite sx m e2
                     else S754_infinity sx
         | Zneg _ => S754_nan
         end.
Proof.
  intros Hmx. unfold binary_round_aux, shr_fexp.
  set (n1 := fexp (Zdigits2 mx + ex) - ex).
  pose proof (@shr_spec (shr_record_of_loc mx lx) ex n1) as S1.
  rewrite record_of_loc_m, record_of_loc_hi in S1. specialize (S1 Hmx).
  destruct (shr (shr_record_of_loc mx lx) ex n1) as [mrs1 e1] eqn:E1.
  cbn [fst snd] in S1. destruct S1 as (He1 & Hnn1 & Hm1 & Hhi1).
  set (m1 := round_nearest_even (shr_m mrs1) (loc_of_shr_record mrs1)).
  pose proof (round_between mrs1) as Hr. fold m1 in Hr.
  set (n2 := fexp (Zdigits2 m1 + e1) - e1).
  assert (Hm1nn : 0 <= m1) by lia.
  pose proof (@shr_spec (shr_record_of_loc m1 loc_Exact) e1 n2) as S2.
  rewrite record_of_loc_m in S2. specialize (S2 Hm1nn).
  destruct (shr (shr_record_of_loc m1 loc_Exact) e1 n2) as [mrs2 e2] eqn:E2.
  cbn [fst snd] in S2. destruct S2 as (He2 & Hnn2 & Hm2 & _).
  exists e1, m1, e2, (shr_m mrs2).
  replace (e1 - ex) with (Z.max 0 n1) by lia.
  replace (e2 - e1) with (Z.max 0 n2) by lia.
  repeat split.
  - exact He1.
  - rewrite <- Hm1. lia.
  - intros N HN. specialize (Hhi1 N HN). lia.
  - exact He2.
  - exact Hm2.
Qed.

Lemma pow2_pos k : 0 <= k -> 0 < 2 ^ k.
Proof. intros. apply Z.pow_pos_nonneg; lia. Qed.

Lemma pow2_split a b : 0 <= a -> 0 <= b -> 2 ^ (a + b) = 2 ^ a * 2 ^ b.
Proof. intros. apply Z.pow_add_r; assumption. Qed.

Lemma Zdigits2_bound m j : 0 <= m -> 0 <= j -> m < 2 ^ j -> Zdigits2 m <= j.
Proof.
  intros Hm Hj H. destruct m as [|p|p]; simpl; [assumption| |lia].
  now apply digits_le_of_lt.
Qed.

Lemma Zdigits2_upper m : 0 <= m -> m < 2 ^ Zdigits2 m.
Proof.
  intros Hm. destruct m as [|p|p]; simpl; [reflexivity| |lia].
  apply digits_upper.
Qed.

Lemma Zdigits2_nonneg m : 0 <= Zdigits2 m.
Proof. destruct m; simpl; lia. Qed.

(* A value between L and U with 0 <= L <= U < 2^53, given at a
   non-positive exponent, is rounded to a value between L and U, with a
   non-positive exponent and a mantissa below 2^53. *)
Lemma round_aux_bounds sx mx ex lx L U :
  0 <= L -> U < 2 ^ 53 -> ex <= 0 -> 0 <= mx ->
  L * 2 ^ (- ex) <= mx ->
  mx + slack lx <= U * 2 ^ (- ex) ->
  match binary_round_aux Num.prec Num.emax sx mx ex lx with
  | S754_zero s => s = sx /\ L = 0
  | S754_finite s m e =>
      s = sx /\ e <= 0 /\ Zpos m < 2 ^ 53
      /\ L * 2 ^ (- e) <= Zpos m <= U * 2 ^ (- e)
  | _ => False
  end.
Proof.
  intros HL HU Hex Hmx Hlo Hhi.
  destruct (@round_aux_shape sx mx ex lx Hmx)
    as (e1 & m1 & e2 & m2 & He1 & Hm1lo & Hm1hi & He2 & Hm2 & ->).
  assert (Hsl : 0 <= slack lx) by (destruct lx; simpl; lia).
  assert (P0 : 0 < 2 ^ (- ex)) by (apply pow2_pos; lia).
  (* first exponent *)
  assert (Hd : Zdigits2 mx + ex <= 53).
  { assert (mx < 2 ^ (53 - ex)).
    { replace (53 - ex) with (53 + - ex) by lia.
      rewrite pow2_split by lia. nia. }
    pose proof (@Zdigits2_bound mx (53 - ex)). lia. }
  assert (He1le : e1 <= 0).
  { pose proof (@fexp_nonpos _ Hd). lia. }
  assert (He1ge : ex <= e1) by lia.
  assert (P1 : 0 < 2 ^ (- e1)) by (apply pow2_pos; lia).
  assert (Q1 : 0 < 2 ^ (e1 - ex)) by (apply pow2_pos; lia).
  assert (S1 : 2 ^ (- ex) = 2 ^ (- e1) * 2 ^ (e1 - ex)).
  { rewrite <- pow2_split by lia. f_equal. lia. }
  assert (Hm1U : m1 <= U * 2 ^ (- e1)).
  { apply Hm1hi. rewrite <- Z.mul_assoc, <- S1. exact Hhi. }
  assert (Hm1L : L * 2 ^ (- e1) <= m1).
  { etransitivity; [|exact Hm1lo].
    apply Z.div_le_lower_bound; [exact Q1|].
    rewrite S1 in Hlo. lia. }
  assert (Hm1nn : 0 <= m1) by nia.
  (* second exponent *)
  assert (Hd1 : Zdigits2 m1 + e1 <= 53).
  { assert (m1 < 2 ^ (53 - e1)).
    { replace (53 - e1) with (53 + - e1) by lia.
      rewrite pow2_split by lia. nia. }
    pose proof (@Zdigits2_bound m1 (53 - e1)). lia. }
  assert (He2le : e2 <= 0).
  { pose proof (@fexp_nonpos _ Hd1). lia. }
  assert (He2ge : e1 <= e2) by lia.
  assert (P2 : 0 < 2 ^ (- e2)) by (apply pow2_pos; lia).
  assert (Q2 : 0 < 2 ^ (e2 - e1)) by (apply pow2_pos; lia).
  assert (S2 : 2 ^ (- e1) = 2 ^ (- e2) * 2 ^ (e2 - e1)).
  { rewrite <- pow2_split by lia. f_equal. lia. }
  assert (Hm2U : m2 <= U * 2 ^ (- e2)).
  { subst m2. apply Z.lt_succ_r, Z.div_lt_upper_bound; [exact Q2|].
    rewrite S2 in Hm1U. nia. }
  assert (Hm2L : L * 2 ^ (- e2) <= m2).
  { subst m2. apply Z.div_le_lower_bound; [exact Q2|].
    rewrite S2 in Hm1L. lia. }
  assert (Hm2small : m2 < 2 ^ 53).
  { subst m2. apply Z.div_lt_upper_bound; [exact Q2|].
    pose proof (@Zdigits2_upper m1 Hm1nn) as Hup.
    pose proof (fexp_ge (Zdigits2 m1 + e1)) as Hf.
    pose proof (Zdigits2_nonneg m1) as Hdn.
    assert (2 ^ Zdigits2 m1 <= 2 ^ (e2 - e1 + 53)).
    { apply Z.pow_le_mono_r; lia. }
    rewrite pow2_split in H by lia. lia. }
  destruct m2 as [|p|p].
  - split; [reflexivity|]. nia.
  - replace (e2 <=? Num.emax - Num.prec) with true
      by (symmetry; apply Z.leb_le; unfold Num.emax, Num.prec; lia).
    repeat split; try assumption.
  - nia.
Qed.

Lemma iter_xO mx d : Zpos (Pos.iter xO mx d) = Zpos mx * 2 ^ Zpos d.
Proof.
  induction d as [|d IH] using Pos.peano_ind.
  - simpl. change (Zpos mx~0) with (2 * Zpos mx). change (2 ^ 1) with 2. lia.
  - rewrite Pos.iter_succ. change (Zpos (Pos.iter xO mx d)~0)
      with (2 * Zpos (Pos.iter xO mx d)).
    rewrite IH, Pos2Z.inj_succ, Z.pow_succ_r by lia. ring.
Qed.

Lemma shl_align_spec mx ex ex' :
  snd (shl_align mx ex ex') <= ex
  /\ snd (shl_align mx ex ex') <= Z.max ex ex'
  /\ (ex' <= ex -> snd (shl_align mx ex ex') = ex')
  /\ Zpos (fst (shl_align mx ex ex'))
     = Zpos mx * 2 ^ (ex - snd (shl_align mx ex ex')).
Proof.
  unfold shl_align. destruct (ex' - ex) as [|d|d] eqn:E; cbn [fst snd].
  - rewrite Z.sub_diag. change (2 ^ 0) with 1. lia.
  - rewrite Z.sub_diag. change (2 ^ 0) with 1. lia.
  - rewrite iter_xO. replace (ex - ex') with (Zpos d) by lia. lia.
Qed.

Lemma binary_round_bounds sx mx ex L U :
  0 <= L -> U < 2 ^ 53 -> ex <= 0 ->
  L * 2 ^ (- ex) <= Zpos mx <= U * 2 ^ (- ex) ->
  match binary_round Num.prec Num.emax sx mx ex with
  | S754_zero s => s = sx /\ L = 0
  | S754_finite s m e =>
      s = sx /\ e <= 0 /\ Zpos m < 2 ^ 53
      /\ L * 2 ^ (- e) <= Zpos m <= U * 2 ^ (- e)
  | _ => False
  end.
Proof.
  intros HL HU Hex [Hlo Hhi]. unfold binary_round.
  pose proof (shl_align_spec mx ex (fexp (Zpos (digits2_pos mx) + ex)))
    as (Hle & _ & _ & Hval).
  destruct (shl_align mx ex (fexp (Zpos (digits2_pos mx) + ex))) as [mz ez].
  cbn [fst snd] in Hle, Hval.
  assert (S : 2 ^ (- ez) = 2 ^ (- ex) * 2 ^ (ex - ez)).
  { rewrite <- pow2_split by lia. f_equal. lia. }
  assert (0 < 2 ^ (ex - ez)) by (apply pow2_pos; lia).
  apply round_aux_bounds; try assumption; try lia.
  - rewrite Hval, S. nia.
  - simpl slack. rewrite Hval, S. nia.
Qed.

(* The number of a positive integer below 2^53 is exact. *)
Lemma ofZ_exact n : 0 < n < 2 ^ 53 ->
  exists m e,
    binary_normalize Num.prec Num.emax n 0 false = S754_finite false m e
    /\ e <= 0 /\ Zpos m < 2 ^ 53 /\ Zpos m = n * 2 ^ (- e).
Proof.
  intros [Hpos Hlt]. destruct n as [|p|p]; try lia.
  unfold binary_normalize.
  pose proof (@binary_round_bounds false p 0 (Zpos p) (Zpos p)) as H.
  change (2 ^ (- 0)) with 1 in H.
  specialize (H ltac:(lia) Hlt ltac:(lia) ltac:(lia)).
  destruct (binary_round Num.prec Num.emax false p 0) as [s|s| |s m e]; try contradiction.
  - destruct H as [_ H]. lia.
  - destruct H as (-> & He & Hm & Hv). exists m, e. repeat split; try assumption.
    lia.
Qed.

(* a finite number that is not negative and not above U, held at a
   non-positive exponent, or a zero *)
Definition within (U : Z) (x : spec_float) : Prop :=
  match x with
  | S754_zero _ => True
  | S754_finite false m e => e <= 0 /\ Zpos m <= U * 2 ^ (- e)
  | _ => False
  end.

Lemma within_weaken U V x : U <= V -> within U x -> within V x.
Proof.
  intros HUV. destruct x as [s|s| |[|] m e]; simpl; try tauto.
  intros [He Hm]. split; [assumption|].
  assert (0 < 2 ^ (- e)) by (apply pow2_pos; lia). nia.
Qed.

Lemma SFadd_within U V x y :
  0 <= U -> 0 <= V -> U + V < 2 ^ 53 ->
  within U x -> within V y -> within (U + V) (SFadd Num.prec Num.emax x y).
Proof.
  intros HU HV HUV Hx Hy.
  destruct x as [sx|sx| |[|] mx ex]; simpl in Hx; try contradiction;
  destruct y as [sy|sy| |[|] my ey]; simpl in Hy; try contradiction.
  - simpl. destruct sx, sy; exact I.
  - simpl. destruct Hy as [He Hm]. split; [assumption|].
    assert (0 < 2 ^ (- ey)) by (apply pow2_pos; lia). nia.
  - simpl. destruct Hx as [He Hm]. split; [assumption|].
    assert (0 < 2 ^ (- ex)) by (apply pow2_pos; lia). nia.
  - destruct Hx as [Hex Hmx], Hy as [Hey Hmy].
    unfold SFadd. cbn [cond_Zopp].
    set (ez := Z.min ex ey).
    pose proof (shl_align_spec mx ex ez) as (_ & _ & Ex & Vx).
    pose proof (shl_align_spec my ey ez) as (_ & _ & Ey & Vy).
    specialize (Ex ltac:(lia)). specialize (Ey ltac:(lia)).
    rewrite Ex in Vx. rewrite Ey in Vy.
    destruct (shl_align mx ex ez) as [mx' ex'].
    destruct (shl_align my ey ez) as [my' ey'].
    cbn [fst snd] in *.
    change (Zpos mx' + Zpos my') with (Zpos (mx' + my')).
    unfold binary_normalize.
    assert (Sx : 2 ^ (- ez) = 2 ^ (- ex) * 2 ^ (ex - ez)).
    { rewrite <- pow2_split by lia. f_equal. lia. }
    assert (Sy : 2 ^ (- ez) = 2 ^ (- ey) * 2 ^ (ey - ez)).
    { rewrite <- pow2_split by lia. f_equal. lia. }
    assert (0 < 2 ^ (ex - ez)) by (apply pow2_pos; lia).
    assert (0 < 2 ^ (ey - ez)) by (apply pow2_pos; lia).
    assert (Hsum : Zpos (mx' + my') <= (U + V) * 2 ^ (- ez)).
    { rewrite Pos2Z.inj_add, Vx, Vy, Z.mul_add_distr_r.
      rewrite Sx at 1. rewrite Sy. nia. }
    pose proof (@binary_round_bounds false (mx' + my') ez 0 (U + V)) as Hb.
    specialize (Hb ltac:(lia) HUV ltac:(lia) ltac:(lia)).
    destruct (binary_round Num.prec Num.emax false (mx' + my') ez) as [s|s| |s m e];
      try contradiction.
    + exact I.
    + destruct Hb as (-> & He & _ & _ & Hm). simpl. auto.
Qed.

Definition one : spec_float := S754_finite false 4503599627370496 (-52).

(* the quotient of two exact positive integers n >= d is at least 1 *)
Lemma SFdiv_ge_one m1 e1 m2 e2 n d :
  1 <= d -> d <= n -> n < 2 ^ 53 -> e1 <= 0 -> e2 <= 0 ->
  Zpos m1 = n * 2 ^ (- e1) -> Zpos m2 = d * 2 ^ (- e2) ->
  match SFdiv Num.prec Num.emax (S754_finite false m1 e1) (S754_finite false m2 e2) with
  | S754_finite false m e => e <= 0 /\ Zpos m < 2 ^ 53 /\ 2 ^ (- e) <= Zpos m
  | _ => False
  end.
Proof.
  intros Hd Hdn Hn He1 He2 Hm1 Hm2.
  unfold SFdiv, SFdiv_core_binary. cbn [xorb Zdigits2].
  set (d1 := Zpos (digits2_pos m1)). set (d2 := Zpos (digits2_pos m2)).
  set (e' := Z.min (fexp (d1 + e1 - (d2 + e2))) (e1 - e2)).
  set (s := e1 - e2 - e').
  assert (P1 : 0 < 2 ^ (- e1)) by (apply pow2_pos; lia).
  assert (P2 : 0 < 2 ^ (- e2)) by (apply pow2_pos; lia).
  assert (Hd1 : d1 + e1 <= 53).
  { assert (Zpos m1 < 2 ^ (53 - e1)).
    { replace (53 - e1) with (53 + - e1) by lia.
      rewrite pow2_split by lia. nia. }
    pose proof (@digits_le_of_lt m1 (53 - e1)). unfold d1. lia. }
  assert (Hd2 : 1 <= d2 + e2).
  { assert (2 ^ (- e2) <= Zpos m2) by nia.
    pose proof (@digits_gt_of_le m2 (- e2)). unfold d2. lia. }
  assert (He' : e' <= 0).
  { pose proof (@fexp_nonpos (d1 + e1 - (d2 + e2))). lia. }
  assert (Hs : 0 <= s) by (unfold s, e'; lia).
  set (m' := match s with
             | 0 => Zpos m1
             | Zpos _ => Z.shiftl (Zpos m1) s
             | Zneg _ => 0
             end).
  assert (Hm' : m' = Zpos m1 * 2 ^ s).
  { unfold m'. clearbody s. destruct s as [|p|p]; [| |lia].
    - rewrite Z.pow_0_r. lia.
    - apply Z.shiftl_mul_pow2. lia. }
  pose proof (Z_div_mod m' (Zpos m2) ltac:(lia)) as Hdm.
  destruct (Z.div_eucl m' (Zpos m2)) as [q r] eqn:Edm.
  destruct Hdm as [Hqr Hr].
  set (T := 2 ^ (- e2 - e')).
  assert (PT : 0 < T) by (apply pow2_pos; lia).
  assert (Pe : 0 < 2 ^ (- e')) by (apply pow2_pos; lia).
  assert (Em' : m' = n * T).
  { rewrite Hm', Hm1, <- Z.mul_assoc, <- pow2_split by lia.
    unfold T. f_equal. f_equal. unfold s. lia. }
  assert (Em2 : Zpos m2 * 2 ^ (- e') = d * T).
  { rewrite Hm2, <- Z.mul_assoc, <- pow2_split by lia.
    unfold T. f_equal. }
  assert (Hq0 : 0 <= q) by nia.
  assert (Hqlo : 1 * 2 ^ (- e') <= q).
  { assert (~ q < 2 ^ (- e')); [|lia]. intros Hlt.
    assert (q + 1 <= 2 ^ (- e')) by lia.
    assert (Zpos m2 * (q + 1) <= Zpos m2 * 2 ^ (- e')) by nia.
    nia. }
  assert (Hloc : slack (new_location (Zpos m2) r) = if r =? 0 then 0 else 1).
  { unfold new_location, new_location_even, new_location_odd.
    destruct (Z.even (Zpos m2)); destruct (r =? 0); reflexivity. }
  assert (Hqhi : q + slack (new_location (Zpos m2) r) <= n * 2 ^ (- e')).
  { rewrite Hloc. destruct (r =? 0) eqn:Er.
    - apply Z.eqb_eq in Er. subst r.
      assert (Zpos m2 * q <= Zpos m2 * (n * 2 ^ (- e'))); [|nia].
      replace (Zpos m2 * (n * 2 ^ (- e'))) with (n * (d * T))
        by (rewrite <- Em2; ring).
      nia.
    - apply Z.eqb_neq in Er.
      assert (Zpos m2 * q < Zpos m2 * (n * 2 ^ (- e'))); [|nia].
      replace (Zpos m2 * (n * 2 ^ (- e'))) with (n * (d * T))
        by (rewrite <- Em2; ring).
      nia. }
  pose proof (@round_aux_bounds false q e' (new_location (Zpos m2) r) 1 n) as Hb.
  specialize (Hb ltac:(lia) Hn He' Hq0 Hqlo Hqhi).
  destruct (binary_round_aux Num.prec Num.emax false q e' (new_location (Zpos m2) r))
    as [sg|sg| |sg m e]; try contradiction.
  - destruct Hb as [_ Hb]. lia.
  - destruct Hb as (-> & He & Hm & Hlo & _). repeat split; try assumption. lia.
Qed.


Lemma min_one_finite m e :
  -52 < e \/ (e = -52 /\ 2 ^ 52 <= Zpos m) ->
  Num.min (S754_finite false m e) one = one.
Proof.
  intros H. unfold Num.min, one, SFcompare.
  destruct H as [H|[-> H]].
  - replace (e ?= -52) with Gt by (symmetry; apply Z.compare_gt_iff; lia).
    reflexivity.
  - rewrite Z.compare_refl.
    destruct (Pos.compare_cont Eq m 4503599627370496) eqn:E;
      [reflexivity| |reflexivity].
    exfalso.
    assert (E2 : Pos.compare m 4503599627370496 = Lt) by exact E.
    apply Pos.compare_lt_iff, Pos2Z.pos_lt_pos in E2.
    assert (P : 2 ^ 52 = 4503599627370496) by reflexivity.
    clear E. lia.
Qed.

Lemma min_one_inf : Num.min (S754_infinity false) one = one.
Proof. reflexivity. Qed.

(* A mantissa of at least 53 bits: the result is an infinity or has a
   mantissa of exactly 53 bits and an exponent that is not smaller. *)
Lemma round_aux_large sx mx ex lx :
  2 ^ 52 <= mx -> -1074 <= ex ->
  binary_round_aux Num.prec Num.emax sx mx ex lx = S754_infinity sx
  \/ exists m e,
       binary_round_aux Num.prec Num.emax sx mx ex lx = S754_finite sx m e
       /\ Zdigits2 mx + ex - 53 <= e /\ ex <= e
       /\ 2 ^ 52 <= Zpos m < 2 ^ 53.
Proof.
  intros Hmx Hex.
  assert (Hmx0 : 0 <= mx) by (change (2 ^ 52) with 4503599627370496 in Hmx; lia).
  destruct (@round_aux_shape sx mx ex lx Hmx0)
    as (e1 & m1 & e2 & m2 & He1 & Hm1lo & Hm1hi & He2 & Hm2 & ->).
  destruct mx as [|p|p]; try lia. cbn [Zdigits2] in *.
  set (dp := Zpos (digits2_pos p)) in *.
  assert (Hdp : 53 <= dp).
  { pose proof (@digits_gt_of_le p 52 Hmx). unfold dp. lia. }
  assert (Hf1 : fexp (dp + ex) = dp + ex - 53).
  { unfold SpecFloat.fexp, emin, Num.prec, Num.emax. lia. }
  rewrite Hf1 in He1.
  assert (Hk1 : e1 - ex = dp - 53) by lia.
  assert (Hslack : slack lx <= 1) by (destruct lx; simpl; lia).
  assert (Hlo1 : 2 ^ 52 <= m1).
  { etransitivity; [|exact Hm1lo]. rewrite Hk1.
    apply Z.div_le_lower_bound; [apply pow2_pos; lia|].
    rewrite Z.mul_comm, <- pow2_split by lia.
    replace (52 + (dp - 53)) with (dp - 1) by lia.
    apply digits_lower. }
  assert (Hhi1 : m1 <= 2 ^ 53).
  { apply Hm1hi. rewrite Hk1, <- pow2_split by lia.
    replace (53 + (dp - 53)) with dp by lia.
    pose proof (digits_upper p). fold dp in H. lia. }
  assert (Hm1pos : 0 < m1) by (change (2 ^ 52) with 4503599627370496 in Hlo1; lia).
  destruct m1 as [|p1|p1]; try lia. cbn [Zdigits2] in *.
  set (dp1 := Zpos (digits2_pos p1)) in *.
  assert (Hdp1 : 53 <= dp1 <= 54).
  { pose proof (@digits_gt_of_le p1 52 Hlo1).
    assert (Zpos p1 < 2 ^ 54) by (change (2 ^ 54) with (2 * 2 ^ 53); lia).
    pose proof (@digits_le_of_lt p1 54 ltac:(lia) H0). unfold dp1. lia. }
  assert (Hf2 : fexp (dp1 + e1) = dp1 + e1 - 53).
  { unfold SpecFloat.fexp, emin, Num.prec, Num.emax. lia. }
  rewrite Hf2 in He2.
  assert (Hk2 : e2 - e1 = dp1 - 53) by lia.
  assert (Hm2b : 2 ^ 52 <= m2 < 2 ^ 53).
  { rewrite Hm2, Hk2. destruct (Z.eq_dec dp1 53) as [E|E].
    - rewrite E. change (2 ^ (53 - 53)) with 1. rewrite Z.div_1_r.
      split; [assumption|].
      pose proof (digits_upper p1). fold dp1 in H. rewrite E in H. exact H.
    - replace (dp1 - 53) with 1 by lia. change (2 ^ 1) with 2.
      assert (E54 : dp1 = 54) by lia.
      assert (2 ^ 53 <= Zpos p1).
      { pose proof (digits_lower p1). fold dp1 in H. rewrite E54 in H.
        exact H. }
      assert (Zpos p1 = 2 ^ 53) by lia. rewrite H0.
      change (2 ^ 53 / 2) with (2 ^ 52).
      change (2 ^ 52) with 4503599627370496.
      change (2 ^ 53) with 9007199254740992. lia. }
  destruct m2 as [|q|q];
    try (change (2 ^ 52) with 4503599627370496 in Hm2b; lia).
  destruct (e2 <=? Num.emax - Num.prec); [|now left].
  right. exists q, e2. repeat split; try lia.
Qed.

Lemma ofZ_large n : 2 ^ 53 <= n ->
  binary_normalize Num.prec Num.emax n 0 false = S754_infinity false
  \/ exists m e,
       binary_normalize Num.prec Num.emax n 0 false = S754_finite false m e
       /\ 1 <= e /\ 2 ^ 52 <= Zpos m < 2 ^ 53.
Proof.
  intros Hn.
  assert (Hn0 : 0 < n) by (change (2 ^ 53) with 9007199254740992 in Hn; lia).
  destruct n as [|p|p]; try lia.
  unfold binary_normalize, binary_round.
  pose proof (@digits_gt_of_le p 53 Hn) as Hd.
  assert (Hf : fexp (Zpos (digits2_pos p) + 0) = Zpos (digits2_pos p) - 53).
  { unfold SpecFloat.fexp, emin, Num.prec, Num.emax. lia. }
  rewrite Hf. unfold shl_align.
  destruct (Zpos (digits2_pos p) - 53 - 0) as [|d|d] eqn:E; try lia.
  assert (H52 : 2 ^ 52 <= Zpos p).
  { change (2 ^ 53) with (2 * 2 ^ 52) in Hn.
    change (2 ^ 52) with 4503599627370496 in *. lia. }
  destruct (@round_aux_large false (Zpos p) 0 loc_Exact H52 ltac:(lia))
    as [->|(m & e & -> & He & _ & Hm)]; [now left|].
  right. exists m, e. cbn [Zdigits2] in He. repeat split; try lia.
Qed.

Lemma SFdiv_large m1 e1 m2 e2 :
  1 <= e1 -> 2 ^ 52 <= Zpos m1 < 2 ^ 53 ->
  -52 <= e2 <= -1 -> 2 ^ 52 <= Zpos m2 < 2 ^ 53 ->
  SFdiv Num.prec Num.emax (S754_finite false m1 e1) (S754_finite false m2 e2)
  = S754_infinity false
  \/ exists m e,
       SFdiv Num.prec Num.emax (S754_finite false m1 e1) (S754_finite false m2 e2)
       = S754_finite false m e
       /\ -52 < e.
Proof.
  intros He1 Hm1 He2 Hm2.
  unfold SFdiv, SFdiv_core_binary. cbn [xorb Zdigits2].
  assert (D1 : Zpos (digits2_pos m1) = 53).
  { pose proof (@digits_gt_of_le m1 52 ltac:(lia)).
    pose proof (@digits_le_of_lt m1 53 ltac:(lia) ltac:(lia)). lia. }
  assert (D2 : Zpos (digits2_pos m2) = 53).
  { pose proof (@digits_gt_of_le m2 52 ltac:(lia)).
    pose proof (@digits_le_of_lt m2 53 ltac:(lia) ltac:(lia)). lia. }
  rewrite D1, D2.
  assert (Hf : fexp (53 + e1 - (53 + e2)) = e1 - e2 - 53).
  { unfold SpecFloat.fexp, emin, Num.prec, Num.emax. lia. }
  rewrite Hf.
  replace (Z.min (e1 - e2 - 53) (e1 - e2)) with (e1 - e2 - 53) by lia.
  replace (e1 - e2 - (e1 - e2 - 53)) with 53 by lia.
  cbv iota.
  rewrite Z.shiftl_mul_pow2 by lia.
  pose proof (Z_div_mod (Zpos m1 * 2 ^ 53) (Zpos m2) ltac:(lia)) as Hdm.
  destruct (Z.div_eucl (Zpos m1 * 2 ^ 53) (Zpos m2)) as [q r].
  destruct Hdm as [Hqr Hr].
  assert (Hq : 2 ^ 52 <= q).
  { change (2 ^ 52) with 4503599627370496 in *.
    change (2 ^ 53) with 9007199254740992 in *. nia. }
  destruct (@round_aux_large false q (e1 - e2 - 53)
              (new_location (Zpos m2) r) Hq ltac:(lia))
    as [->|(m & e & -> & _ & He & _)]; [now left|].
  right. exists m, e. split; [reflexivity | lia].
Qed.


Lemma round_within U x : 0 <= U -> within U x -> 0 <= Num.round x <= U.
Proof.
  intros HU. destruct x as [s|s| |[|] m e]; cbn [within Num.round];
    try tauto; try lia.
  intros [He Hm]. destruct (0 <=? e) eqn:E.
  - apply Z.leb_le in E. assert (E0 : e = 0) by lia. subst e.
    change (- 0) with 0 in Hm. rewrite Z.pow_0_r in *. lia.
  - apply Z.leb_gt in E.
    assert (P : 0 < 2 ^ (- e)) by (apply pow2_pos; lia).
    assert (S : 2 ^ (1 - e) = 2 * 2 ^ (- e)).
    { replace (1 - e) with (1 + - e) by lia. rewrite pow2_split by lia.
      reflexivity. }
    rewrite S. split.
    + apply Z.div_pos; lia.
    + apply Z.lt_succ_r, Z.div_lt_upper_bound; [lia|]. nia.
Qed.

End NumFacts.


(* ================================================================== *)
(** * Impact analyzer: properties                                      *)
(* ================================================================== *)

Section ImpactFacts.

Import Impact.

Local Open Scope Z_scope.

Definition withinb (U : Z) (x : spec_float) : bool :=
  match x with
  | S754_zero _ => true
  | S754_finite false m e => (e <=? 0) && (Zpos m <=? U * 2 ^ (- e))
  | _ => false
  end.

Lemma withinb_sound U x : withinb U x = true -> within U x.
Proof.
  destruct x as [s|s| |[|] m e]; simpl; try discriminate; try tauto.
  intros H. apply andb_prop in H as [H1 H2].
  apply Z.leb_le in H1. apply Z.leb_le in H2. now split.
Qed.

Lemma ofZ_one : Num.ofZ 1 = one.
Proof. reflexivity. Qed.

(** From the divisor on, the quotient is at least 1 and the capped ratio
    is exactly 1. *)
Lemma cap_full (n : nat) (d : Z) (m2 : positive) (e2 : Z) :
  Num.ofZ d = S754_finite false m2 e2 ->
  1 <= d -> d <= Z.of_nat n ->
  -52 <= e2 <= -1 -> 2 ^ 52 <= Zpos m2 < 2 ^ 53 ->
  Zpos m2 = d * 2 ^ (- e2) ->
  cap n d = Num.ofZ 1.
Proof.
  intros Hy Hd Hdn He2 Hm2 Hv2.
  unfold cap, Num.ofNat. rewrite Hy, ofZ_one. unfold Num.div, Num.ofZ.
  destruct (Z_lt_le_dec (Z.of_nat n) (2 ^ 53)) as [Hsmall|Hlarge].
  - destruct (@ofZ_exact (Z.of_nat n) ltac:(lia))
      as (m1 & e1 & -> & He1 & _ & Hv1).
    pose proof (@SFdiv_ge_one m1 e1 m2 e2 (Z.of_nat n) d
                  Hd Hdn Hsmall He1 ltac:(lia) Hv1 Hv2) as Hq.
    destruct (SFdiv Num.prec Num.emax (S754_finite false m1 e1)
                    (S754_finite false m2 e2))
      as [s|s| |[|] m e]; try contradiction.
    destruct Hq as (He & Hm & Hlo).
    apply min_one_finite.
    assert (Hexp : - e <= 52).
    { destruct (Z_le_gt_dec (- e) 52) as [|Hgt]; [assumption|]. exfalso.
      assert (2 ^ 53 <= 2 ^ (- e)) by (apply Z.pow_le_mono_r; lia). lia. }
    destruct (Z.eq_dec e (-52)) as [->|Hne]; [right | left; lia].
    split; [reflexivity | exact Hlo].
  - destruct (@ofZ_large (Z.of_nat n) Hlarge)
      as [->|(m1 & e1 & -> & He1 & Hm1)].
    + reflexivity.
    + destruct (@SFdiv_large m1 e1 m2 e2 He1 Hm1 He2 Hm2)
        as [->|(m & e & -> & He)].
      * reflexivity.
      * apply min_one_finite. now left.
Qed.

Lemma fanInScore_within (n : nat) : within 35 (fanInScore n).
Proof.
  destruct (le_lt_dec 30 n) as [Hge|Hlt].
  - unfold fanInScore.
    rewrite (@cap_full n 30 8444249301319680 (-48));
      try reflexivity; try lia.
    apply withinb_sound. reflexivity.
  - assert (H : forallb (fun k => withinb 35 (fanInScore k)) (seq 0 30) = true)
      by (vm_compute; reflexivity).
    apply withinb_sound. rewrite forallb_forall in H. apply H.
    apply in_seq. lia.
Qed.

Lemma featureScore_within (n : nat) : within 25 (featureScore n).
Proof.
  destruct (le_lt_dec 5 n) as [Hge|Hlt].
  - unfold featureScore.
    rewrite (@cap_full n 5 5629499534213120 (-50));
      try reflexivity; try lia.
    apply withinb_sound. reflexivity.
  - assert (H : forallb (fun k => withinb 25 (featureScore k)) (seq 0 5) = true)
      by (vm_compute; reflexivity).
    apply withinb_sound. rewrite forallb_forall in H. apply H.
    apply in_seq. lia.
Qed.

Lemma churnScore_within (n : nat) : within 20 (churnScore n).
Proof.
  destruct (le_lt_dec 100 n) as [Hge|Hlt].
  - unfold churnScore.
    rewrite (@cap_full n 100 7036874417766400 (-46));
      try reflexivity; try lia.
    apply withinb_sound. reflexivity.
  - assert (H : forallb (fun k => withinb 20 (churnScore k)) (seq 0 100) = true)
      by (vm_compute; reflexivity).
    apply withinb_sound. rewrite forallb_forall in H. apply H.
    apply in_seq. lia.
Qed.

Lemma complexityScore_within (n : nat) : within 10 (complexityScore n).
Proof.
  destruct (le_lt_dec 50 n) as [Hge|Hlt].
  - unfold complexityScore.
    rewrite (@cap_full n 50 7036874417766400 (-47));
      try reflexivity; try lia.
    apply withinb_sound. reflexivity.
  - assert (H : forallb (fun k => withinb 10 (complexityScore k)) (seq 0 50) = true)
      by (vm_compute; reflexivity).
    apply withinb_sound. rewrite forallb_forall in H. apply H.
    apply in_seq. lia.
Qed.

Lemma testScore_within (b : bool) : within 10 (testScore b).
Proof. destruct b; apply withinb_sound; reflexivity. Qed.

Lemma scoreSum_within fanIn featureCount gitChurn hasTests complexity :
  within 100 (scoreSum fanIn featureCount gitChurn hasTests complexity).
Proof.
  unfold scoreSum, Num.add.
  change 100 with (35 + 25 + 20 + 10 + 10).
  apply SFadd_within; try lia; [|apply complexityScore_within].
  apply SFadd_within; try lia; [|apply testScore_within].
  apply SFadd_within; try lia; [|apply churnScore_within].
  apply SFadd_within; try lia;
    [apply fanInScore_within | apply featureScore_within].
Qed.

Lemma scoreOf_range fanIn featureCount gitChurn hasTests complexity :
  0 <= scoreOf fanIn featureCount gitChurn hasTests complexity <= 100.
Proof.
  unfold scoreOf. apply round_within; [lia | apply scoreSum_within].
Qed.

(** ** The scoring loop and the sort *)

Definition byScoreDesc (a b : ImpactNode) : Prop :=
  impactScore b <= impactScore a.

Lemma insertNode_In x y l : In y (insertNode x l) <-> y = x \/ In y l.
Proof.
  induction l as [|z l IH]; simpl.
  - intuition.
  - destruct (compareNodes x z <=? 0); simpl; rewrite ?IH; intuition.
Qed.

Lemma sortNodes_In y l : In y (sortNodes l) <-> In y l.
Proof.
  induction l as [|x l IH]; simpl; [tauto|].
  rewrite insertNode_In, IH. intuition.
Qed.

Lemma insertNode_sorted x l :
  StronglySorted byScoreDesc l -> StronglySorted byScoreDesc (insertNode x l).
Proof.
  induction l as [|z l IH]; intros Hs; simpl.
  - repeat constructor.
  - inversion Hs as [|? ? Hl Hz]; subst.
    destruct (compareNodes x z <=? 0) eqn:E.
    + apply Z.leb_le in E. unfold compareNodes in E.
      constructor; [exact Hs|]. constructor; [unfold byScoreDesc; lia|].
      eapply Forall_impl; [|exact Hz]. unfold byScoreDesc. intros a Ha. lia.
    + apply Z.leb_gt in E. unfold compareNodes in E.
      constructor; [now apply IH|].
      apply Forall_forall. intros a Ha. apply insertNode_In in Ha as [->|Ha].
      * unfold byScoreDesc. lia.
      * rewrite Forall_forall in Hz. now apply Hz.
Qed.

Lemma sortNodes_sorted l : StronglySorted byScoreDesc (sortNodes l).
Proof.
  induction l as [|x l IH]; simpl; [constructor | now apply insertNode_sorted].
Qed.

(** What the scoring loop adds to [nodes]. *)
Lemma scoreFile_fold_In st files : forall nodes node,
  In node (fold_left (scoreFile st) files nodes) <->
  In node nodes
  \/ exists rel fileNode,
       In (rel, fileNode) files
       /\ isTestFile rel = false /\ isAsset fileNode = false
       /\ node = nodeOf st rel /\ 15 <= impactScore node.
Proof.
  induction files as [|[rel fileNode] files IH]; intros nodes node; simpl.
  - split; [auto | intros [H|(r & f & [] & _)]; exact H].
  - rewrite IH. clear IH.
    assert (Hstep : In node (if isTestFile rel then nodes
                             else if isAsset fileNode then nodes
                             else if impactScore (nodeOf st rel) <? 15 then nodes
                             else (nodes ++ [nodeOf st rel])%list)
                    <-> In node nodes
                        \/ (isTestFile rel = false /\ isAsset fileNode = false
                            /\ node = nodeOf st rel /\ 15 <= impactScore node)).
    { destruct (isTestFile rel); [intuition congruence|].
      destruct (isAsset fileNode); [intuition congruence|].
      destruct (impactScore (nodeOf st rel) <? 15) eqn:E.
      - apply Z.ltb_lt in E. split; [auto|].
        intros [H|(_ & _ & -> & H)]; [exact H | lia].
      - apply Z.ltb_ge in E. rewrite in_app_iff. simpl. split.
        + intros [H|[<-|[]]]; auto.
        + intros [H|(_ & _ & -> & _)]; auto. }
    rewrite Hstep. split.
    + intros [[H|(Ht & Ha & Hn & Hs)]|(r & f & Hin & Hrest)].
      * now left.
      * right. exists rel, fileNode. auto.
      * right. exists r, f. auto.
    + intros [H|(r & f & [Heq|Hin] & Hrest)].
      * left. now left.
      * injection Heq as <- <-. left. right. exact Hrest.
      * right. exists r, f. auto.
Qed.

(** C9.  Without any churn data every file has commit count 0 and a
    churn term equal to 0, the emitted records carry [gitChurn = 0], and
    a file that is neither a test nor an asset is emitted exactly when
    the score of its other four terms reaches 15. *)
Theorem impactAnalyzer_without_churn (st : InspectorStore) :
  gitChurns st = [] ->
  let out := impactAnalyzer st [] in
  (forall rel, gitChurnOf st rel = 0%nat
               /\ churnScore (gitChurnOf st rel) = Num.ofZ 0)
  /\ (forall node, In node out -> gitChurn node = 0%nat)
  /\ (forall rel fileNode,
        In (rel, fileNode) (storeFiles st) ->
        isTestFile rel = false -> isAsset fileNode = false ->
        ((exists node, In node out /\ file node = rel)
         <-> 15 <= scoreOf (fanInOf st rel) (featureCountOf st rel) 0
                           (hasTestsOf st rel) (complexityOf st rel))).
Proof.
  intros Hnone. cbv zeta.
  assert (Hzero : forall rel, gitChurnOf st rel = 0%nat).
  { intros rel. unfold gitChurnOf. now rewrite Hnone. }
  split; [|split].
  - intros rel. rewrite Hzero. split; reflexivity.
  - intros node Hin. unfold impactAnalyzer in Hin.
    apply sortNodes_In, scoreFile_fold_In in Hin
      as [[]|(r & f & _ & _ & _ & -> & _)].
    cbn [gitChurn nodeOf]. apply Hzero.
  - intros rel fileNode Hf Ht Ha. unfold impactAnalyzer.
    replace (scoreOf (fanInOf st rel) (featureCountOf st rel) 0
                     (hasTestsOf st rel) (complexityOf st rel))
      with (impactScore (nodeOf st rel))
      by (cbn [impactScore nodeOf]; now rewrite Hzero).
    split.
    + intros (node & Hin & Hfile).
      apply sortNodes_In, scoreFile_fold_In in Hin
        as [[]|(r & f & _ & _ & _ & -> & Hs)].
      cbn [file nodeOf] in Hfile. now subst r.
    + intros Hs. exists (nodeOf st rel). split; [|reflexivity].
      apply sortNodes_In, scoreFile_fold_In.
      right. exists rel, fileNode. auto.
Qed.

End ImpactFacts.

(* ================================================================== *)
(** * Quality analyzer: the test-coverage sub-score                    *)
(* ================================================================== *)

Section QualityFacts.

Import Quality.

(** The filter of the test-coverage block keeps every file as soon as
    one file of the feature is a test, and no file otherwise. *)
Lemma coveredFiles_all_or_nothing (featureFiles : list string) :
  coveredFiles featureFiles
  = if existsb isSpecOrTest featureFiles then featureFiles else [].
Proof.
  unfold coveredFiles.
  destruct (existsb isSpecOrTest featureFiles) eqn:E.
  - clear E. induction featureFiles as [|f fs IH]; simpl; [reflexivity|].
    rewrite orb_true_r. now rewrite IH.
  - assert (H : forall f, In f featureFiles -> isSpecOrTest f = false).
    { intros f Hf. destruct (isSpecOrTest f) eqn:Ef; [|reflexivity].
      assert (existsb isSpecOrTest featureFiles = true)
        by (apply existsb_exists; eauto).
      congruence. }
    clear E. induction featureFiles as [|f fs IH]; simpl; [reflexivity|].
    rewrite (H f) by now left. simpl. apply IH.
    intros x Hx. apply H. now right.
Qed.

(** C4 at the failing input: a feature of three files, one of them a
    test file and no file with a sibling test.  The ratio of the claim is
    1/3, which gives the sub-score 3; the code counts all three files and
    gives 10. *)
Lemma testCoverageScore_counts_every_file :
  let featureFiles := ["src/cart/a.ts"; "src/cart/b.ts"; "src/cart/c.test.ts"] in
  coveredFiles featureFiles = featureFiles
  /\ testCoverageScore featureFiles = 10%Z
  /\ specCoveredFiles featureFiles = ["src/cart/c.test.ts"]
  /\ specTestCoverageScore featureFiles = 3%Z.
Proof. cbv zeta. repeat split; reflexivity. Qed.

End QualityFacts.

(* ================================================================== *)
(** * Instances                                                        *)
(* ================================================================== *)

Section Instances.

Definition sourceFile (rel : string) : string * FileNode :=
  (rel, {| path := "/repo/" ++ rel; relativePath := rel; extension := ".ts";
           loc := 40; language := typescript; package := "root" |}).

Definition sampleStore : InspectorStore :=
  {| skipGit := true; config := None;
     storeFiles := [sourceFile "src/cart/a.ts"; sourceFile "src/cart/a.test.ts";
                    sourceFile "src/cart/b.ts"];
     importGraph := [plainEdge "src/cart/b.ts" "src/cart/a.ts";
                     plainEdge "src/cart/b.ts" "src/cart/a.ts"];
     features := Grouper.featureGrouper None
                   ["src/cart/a.ts"; "src/cart/a.test.ts"; "src/cart/b.ts"]
                   [] true [];
     fileMetrics := [];
     gitChurns := [] |}.

Lemma impactAnalyzer_without_churn_witness :
  gitChurns sampleStore = []
  /\ forall node, In node (Impact.impactAnalyzer sampleStore []) ->
                  Impact.gitChurn node = 0%nat.
Proof.
  split; [reflexivity|].
  apply (impactAnalyzer_without_churn sampleStore). reflexivity.
Defined.

Definition sampleEntry (f : string) (n : nat) : Duplication.Entry :=
  {| Duplication.entryFile := f; Duplication.lineStart := n;
     Duplication.entrySnippet := "const total = items.reduce(sum, 0);" |}.

Definition sampleIndex : list (string * list Duplication.Entry) :=
  [("9f2c4e1a0b7d3358", [sampleEntry "a.ts" 10; sampleEntry "b.ts" 200;
                         sampleEntry "c.ts" 5]);
   ("0d1e2f3a4b5c6d7e", [sampleEntry "a.ts" 1; sampleEntry "a.ts" 20;
                         sampleEntry "a.ts" 40]);
   ("77aa66bb55cc44dd", [sampleEntry "b.ts" 1; sampleEntry "a.ts" 20])].

Lemma duplications_one_match_per_pair_witness :
  List.length (Duplication.duplications sampleIndex) = 3%nat
  /\ Forall (fun m => Duplication.hash m <> "0d1e2f3a4b5c6d7e")
            (Duplication.duplications sampleIndex).
Proof.
  split; [reflexivity|].
  destruct (duplications_one_match_per_pair sampleIndex) as (_ & _ & Hsingle).
  apply (Hsingle "0d1e2f3a4b5c6d7e" "a.ts").
  intros entries e Hin He.
  destruct Hin as [Hin|[Hin|[Hin|[]]]]; try discriminate Hin.
  injection Hin as <-.
  destruct He as [<-|[<-|[<-|[]]]]; reflexivity.
Defined.

Lemma resolveImportPath_probing_order_witness :
  (exists before after,
     ["lib/cart/total";
      "lib/cart/total.ts"; "lib/cart/total.tsx"; "lib/cart/total.js";
      "lib/cart/total.jsx"; "lib/cart/total.vue"; "lib/cart/total.svelte";
      "lib/cart/total.mjs";
      "lib/cart/total/index.ts"; "lib/cart/total/index.tsx";
      "lib/cart/total/index.js"; "lib/cart/total/index.jsx";
      "lib/cart/total/index.vue";
      "lib/cart/total"]
     = (before ++ "lib/cart/total.js" :: after)%list
     /\ In "lib/cart/total.js" ["lib/cart/total/index.vue"; "lib/cart/total.js"]
     /\ forall c, In c before ->
                  ~ In c ["lib/cart/total/index.vue"; "lib/cart/total.js"])
  /\ Indexer.resolveImportPath "lodash" "src/app.ts"
       ["lib/cart/total.js"] [("@/", "lib/")] = None.
Proof.
  split.
  - destruct (resolveImportPath_probing_order "@/cart/total" "src/app.ts"
                ["lib/cart/total/index.vue"; "lib/cart/total.js"]
                [("@/", "lib/")]) as (_ & Hprobe & _).
    apply (Hprobe eq_refl "lib/cart/total.js"). reflexivity.
  - destruct (resolveImportPath_probing_order "lodash" "src/app.ts"
                ["lib/cart/total.js"] [("@/", "lib/")]) as (Hext & _).
    apply Hext. reflexivity.
Defined.

Lemma signal3_one_hop_when_ordered_witness :
  unassigned
    (Grouper.signal3 [plainEdge "lib/b.ts" "lib/c.ts";
                      plainEdge "src/cart/a.ts" "lib/b.ts"] afterSignals12)
    "lib/c.ts".
Proof.
  apply signal3_one_hop_when_ordered.
  - reflexivity.
  - intros pre e post Heq Ht.
    destruct pre as [|x pre].
    + injection Heq as <- _. split; [reflexivity|]. intros e' [].
    + injection Heq as _ Heq.
      destruct pre as [|y pre].
      * injection Heq as <- _. discriminate Ht.
      * injection Heq as _ Heq. destruct pre; discriminate Heq.
Defined.

End Instances.

(* ================================================================== *)
(** * Duplication analyzer: the cap and the origin of a match          *)
(* ================================================================== *)

Section DuplicationScan.

Import Duplication.

Lemma pushMatch_length h groups fi fj matches :
  (List.length (pushMatch h groups fi fj matches) <= S (List.length matches))%nat.
Proof.
  unfold pushMatch.
  destruct (Js.get groups fi) as [[|a ra]|]; try lia.
  destruct (Js.get groups fj) as [[|b rb]|]; try lia.
  rewrite length_app. simpl. lia.
Qed.

Lemma innerLoop_length h groups fi rest : forall matches,
  (List.length matches < MAX_DUPLICATES)%nat ->
  (List.length (innerLoop h groups fi rest matches) <= MAX_DUPLICATES)%nat.
Proof.
  induction rest as [|fj rest IH]; intros matches Hlt; cbn [innerLoop].
  - lia.
  - pose proof (pushMatch_length h groups fi fj matches) as Hp.
    destruct (MAX_DUPLICATES <=? List.length (pushMatch h groups fi fj matches))%nat
      eqn:E.
    + lia.
    + apply Nat.leb_gt in E. now apply IH.
Qed.

Lemma outerLoop_length h groups fileList : forall matches,
  (List.length matches < MAX_DUPLICATES)%nat ->
  (List.length (outerLoop h groups fileList matches) <= MAX_DUPLICATES)%nat.
Proof.
  induction fileList as [|fi rest IH]; intros matches Hlt; cbn [outerLoop].
  - lia.
  - pose proof (@innerLoop_length h groups fi rest matches Hlt) as Hi.
    destruct (MAX_DUPLICATES <=? List.length (innerLoop h groups fi rest matches))%nat
      eqn:E.
    + exact Hi.
    + apply Nat.leb_gt in E. now apply IH.
Qed.

Lemma findMatches_length hashIndex : forall matches,
  (List.length matches < MAX_DUPLICATES)%nat ->
  (List.length (findMatches hashIndex matches) <= MAX_DUPLICATES)%nat.
Proof.
  induction hashIndex as [|[h entries] rest IH]; intros matches Hlt;
    cbn [findMatches].
  - lia.
  - destruct (List.length entries <? 2)%nat; [now apply IH|].
    destruct (List.length (groupByFile entries) <? 2)%nat; [now apply IH|].
    pose proof (@outerLoop_length h (groupByFile entries)
                  (Js.keys (groupByFile entries)) matches Hlt) as Ho.
    destruct (MAX_DUPLICATES <=? _)%nat eqn:E.
    + exact Ho.
    + apply Nat.leb_gt in E. now apply IH.
Qed.

Lemma dedupe_length seen matches :
  (List.length (dedupe seen matches) <= List.length matches)%nat.
Proof.
  revert seen. induction matches as [|m rest IH]; intros seen; simpl; [lia|].
  destruct (Js.has seen (pairKey (fileA m) (fileB m))).
  - specialize (IH seen). lia.
  - simpl. specialize (IH (Js.add seen (pairKey (fileA m) (fileB m)))). lia.
Qed.

(** X1: the analyzer never reports more than [MAX_DUPLICATES] matches. *)
Theorem duplicationAnalyzer_capped (digest : string -> string)
  (codeContent : FileNode -> string) (files : list (string * FileNode)) :
  (List.length (duplicationAnalyzer digest codeContent files) <= 200)%nat.
Proof.
  unfold duplicationAnalyzer, duplications.
  etransitivity; [apply dedupe_length|].
  apply findMatches_length. unfold MAX_DUPLICATES. simpl. lia.
Qed.

(** ** The group of a file is the list of its entries, in order *)

Definition ofFile (f : string) (e : Entry) : bool :=
  String.eqb (entryFile e) f.

Lemma filter_ofFile_app f l e :
  filter (ofFile f) (l ++ [e])%list
  = (filter (ofFile f) l ++ if ofFile f e then [e] else [])%list.
Proof. rewrite filter_app. reflexivity. Qed.

Lemma groupByFile_get entries f :
  Js.get (groupByFile entries) f
  = match filter (ofFile f) entries with
    | [] => None
    | es => Some es
    end.
Proof.
  unfold groupByFile.
  induction entries as [|e entries IH] using rev_ind; [reflexivity|].
  rewrite fold_left_app. cbn [fold_left].
  set (groups := fold_left _ entries []) in *.
  rewrite filter_ofFile_app. unfold ofFile at 2.
  destruct (String.eqb (entryFile e) f) eqn:E.
  - apply String.eqb_eq in E. subst f.
    rewrite get_modify_same.
    destruct (Js.hasKey groups (entryFile e)) eqn:Hk.
    + rewrite IH. apply hasKey_true, key_get_Some in Hk as [v Hv].
      rewrite IH in Hv.
      destruct (filter (ofFile (entryFile e)) entries) as [|x l];
        [discriminate | reflexivity].
    + rewrite get_set_same. apply hasKey_false in Hk. rewrite IH in Hk.
      destruct (filter (ofFile (entryFile e)) entries) as [|x l];
        [reflexivity | discriminate].
  - apply String.eqb_neq in E. rewrite get_modify_other by exact E.
    rewrite app_nil_r.
    destruct (Js.hasKey groups (entryFile e)); [exact IH|].
    rewrite get_set_other by exact E. exact IH.
Qed.

Lemma filter_head_first {A} (p : A -> bool) (l : list A) x rest :
  filter p l = x :: rest ->
  exists before after,
    l = (before ++ x :: after)%list /\ p x = true
    /\ forall y, In y before -> p y = false.
Proof.
  induction l as [|a l IH]; simpl; [discriminate|].
  destruct (p a) eqn:E.
  - intros [= <- <-]. exists [], l. repeat split; [exact E | intros y []].
  - intros H. destruct (IH H) as (before & after & -> & Hp & Hb).
    exists (a :: before), after. repeat split; [exact Hp|].
    intros y [<-|Hy]; [exact E | now apply Hb].
Qed.

(** The match [m] is backed by the hash index: under the hash of the
    match there are entries of the two (distinct) files, and the match
    reports, for each file, the first entry of that file. *)
Definition backedBy (hashIndex : list (string * list Entry))
  (m : DuplicationMatch) : Prop :=
  exists entries beforeA entryA afterA beforeB entryB afterB,
    In (hash m, entries) hashIndex
    /\ entries = (beforeA ++ entryA :: afterA)%list
    /\ entries = (beforeB ++ entryB :: afterB)%list
    /\ entryFile entryA = fileA m /\ entryFile entryB = fileB m
    /\ (forall e, In e beforeA -> entryFile e <> fileA m)
    /\ (forall e, In e beforeB -> entryFile e <> fileB m)
    /\ lineStartA m = lineStart entryA /\ lineStartB m = lineStart entryB
    /\ snippet m = entrySnippet entryA
    /\ fileA m <> fileB m.

Lemma duplications_backed (hashIndex : list (string * list Entry))
  (m : DuplicationMatch) :
  In m (duplications hashIndex) -> backedBy hashIndex m.
Proof.
  intros Hm. unfold backedBy. unfold duplications in Hm.
  apply dedupe_In, findMatches_In in Hm as [[]|Hgen].
  pose proof (generated_facts Hgen) as (_ & Hne & _).
  destruct Hgen as (h & entries & pre & fi & post & fj & Hin & _ & _ & _ & Hb).
  destruct Hb as (entryA & restA & entryB & restB & HA & HB & Heq).
  rewrite groupByFile_get in HA, HB.
  destruct (filter (ofFile fi) entries) as [|a ra] eqn:FA; [discriminate|].
  destruct (filter (ofFile fj) entries) as [|b rb] eqn:FB; [discriminate|].
  injection HA as -> ->. injection HB as -> ->.
  apply filter_head_first in FA as (beforeA & afterA & EA & PA & BA).
  apply filter_head_first in FB as (beforeB & afterB & EB & PB & BB).
  unfold ofFile in PA, PB. apply String.eqb_eq in PA, PB.
  subst m. cbn [hash fileA fileB lineStartA lineStartB snippet] in *.
  exists entries, beforeA, entryA, afterA, beforeB, entryB, afterB.
  repeat split; try assumption; try reflexivity.
  - intros e He. rewrite PA. specialize (BA e He). unfold ofFile in BA.
    now apply String.eqb_neq in BA.
  - intros e He. rewrite PB. specialize (BB e He). unfold ofFile in BB.
    now apply String.eqb_neq in BB.
Qed.

(** X2: every reported match is backed by the hash index. *)
Theorem duplications_sound (hashIndex : list (string * list Entry))
  (m : DuplicationMatch) :
  In m (duplications hashIndex) -> backedBy hashIndex m.
Proof. apply duplications_backed. Qed.

(** ** Where an entry of the hash index comes from *)

Lemma set_In {V} (m : list (string * V)) k v k' v' :
  In (k', v') (Js.set m k v) -> (k' = k /\ v' = v) \/ In (k', v') m.
Proof.
  induction m as [|[k0 v0] m IH]; simpl.
  - intros [[= <- <-]|[]]. now left.
  - destruct (String.eqb k0 k).
    + intros [[= <- <-]|H]; [now left | right; now right].
    + intros [H|H]; [right; now left|].
      apply IH in H as [H|H]; [now left | right; now right].
Qed.

Lemma modify_In {V} (m : list (string * V)) k (f : V -> V) k' v' :
  In (k', v') (Js.modify m k f) ->
  In (k', v') m \/ (k' = k /\ exists v, Js.get m k = Some v /\ v' = f v).
Proof.
  unfold Js.modify. destruct (Js.get m k) as [v|] eqn:E; [|now left].
  intros H. apply set_In in H as [[-> ->]|H]; [|now left].
  right. split; [reflexivity|]. now exists v.
Qed.

Lemma loopValues_In fuel : forall from step upto x,
  In x (loopValues fuel from step upto) -> (from <= x <= upto)%nat.
Proof.
  induction fuel as [|fuel IH]; intros from step upto x; simpl; [contradiction|].
  destruct (from <=? upto)%nat eqn:E; [|contradiction].
  apply Nat.leb_le in E. intros [<-|H]; [lia|].
  apply IH in H. lia.
Qed.

Section Origin.

Variable digest : string -> string.
Variable codeContent : FileNode -> string.
Variable files : list (string * FileNode).

(** The entry [e], kept under the hash [h], records a window that was
    really scanned. *)
Definition scanned (h : string) (e : Entry) : Prop :=
  exists fileNode chunkSize,
    In (entryFile e, fileNode) files
    /\ isAsset fileNode = false
    /\ (MIN_CHUNK_SIZE <= loc fileNode)%nat
    /\ codeContent fileNode <> ""
    /\ (MIN_CHUNK_SIZE <= chunkSize <= MAX_CHUNK_SIZE)%nat
    /\ (1 <= lineStart e)%nat
    /\ (lineStart e - 1 + chunkSize
        <= List.length (Js.split (ascii_of_nat 10) (codeContent fileNode)))%nat
    /\ (100 <= String.length
                 (normalizedChunk (Js.split (ascii_of_nat 10) (codeContent fileNode))
                                  (lineStart e - 1) chunkSize))%nat
    /\ h = digest (normalizedChunk
                     (Js.split (ascii_of_nat 10) (codeContent fileNode))
                     (lineStart e - 1) chunkSize).

Definition indexOk (hashIndex : list (string * list Entry)) : Prop :=
  forall h entries e, In (h, entries) hashIndex -> In e entries -> scanned h e.

Lemma recordChunk_ok rel fileNode chunkSize hashIndex start :
  In (rel, fileNode) files -> isAsset fileNode = false ->
  (MIN_CHUNK_SIZE <= loc fileNode)%nat -> codeContent fileNode <> "" ->
  (MIN_CHUNK_SIZE <= chunkSize <= MAX_CHUNK_SIZE)%nat ->
  (start + chunkSize
   <= List.length (Js.split (ascii_of_nat 10) (codeContent fileNode)))%nat ->
  indexOk hashIndex ->
  indexOk (recordChunk digest rel
             (Js.split (ascii_of_nat 10) (codeContent fileNode))
             chunkSize hashIndex start).
Proof.
  intros Hf Ha Hl Hc Hsz Hin Hok. unfold recordChunk.
  set (lines := Js.split (ascii_of_nat 10) (codeContent fileNode)) in *.
  destruct (String.length (normalizedChunk lines start chunkSize) <? 100)%nat
    eqn:Elen; [exact Hok|].
  apply Nat.ltb_ge in Elen.
  set (h0 := digest (normalizedChunk lines start chunkSize)).
  set (idx1 := if Js.hasKey hashIndex h0 then hashIndex
               else Js.set hashIndex h0 []).
  assert (Hok1 : indexOk idx1).
  { unfold idx1. destruct (Js.hasKey hashIndex h0); [exact Hok|].
    intros h entries e Hi He. apply set_In in Hi as [[-> ->]|Hi];
      [contradiction | eapply Hok; eauto]. }
  intros h entries e Hi He.
  apply modify_In in Hi as [Hi|(-> & v & Hv & ->)]; [eapply Hok1; eauto|].
  apply get_In in Hv.
  destruct (existsb _ v); [eapply Hok1; eauto|].
  apply in_app_or in He as [He|[<-|[]]]; [eapply Hok1; eauto|].
  exists fileNode, chunkSize. cbn [entryFile lineStart].
  replace (start + 1 - 1)%nat with start by lia.
  repeat split; try assumption; try lia.
Qed.

Lemma scanFile_ok hashIndex entry :
  In entry files -> indexOk hashIndex ->
  indexOk (scanFile digest codeContent hashIndex entry).
Proof.
  intros Hin Hok. destruct entry as [rel fileNode]. unfold scanFile.
  destruct (isAsset fileNode) eqn:Ea; [exact Hok|].
  destruct (loc fileNode <? MIN_CHUNK_SIZE)%nat eqn:El; [exact Hok|].
  apply Nat.ltb_ge in El.
  destruct (Js.truthy (codeContent fileNode)) eqn:Et; [|exact Hok].
  cbn [negb].
  assert (Hc : codeContent fileNode <> "").
  { unfold Js.truthy in Et. apply negb_true_iff, String.eqb_neq in Et. exact Et. }
  set (lines := Js.split (ascii_of_nat 10) (codeContent fileNode)).
  assert (Hsizes : forall sizes idx,
             (forall c, In c sizes ->
                (MIN_CHUNK_SIZE <= c <= Nat.min MAX_CHUNK_SIZE (List.length lines))%nat) ->
             indexOk idx ->
             indexOk (fold_left (scanChunkSize digest rel lines) sizes idx)).
  { induction sizes as [|c sizes IH]; intros idx Hs Hi; [exact Hi|].
    simpl. apply IH; [intros c' Hc'; apply Hs; now right|].
    unfold scanChunkSize.
    assert (Hc0 : (MIN_CHUNK_SIZE <= c <= Nat.min MAX_CHUNK_SIZE (List.length lines))%nat)
      by (apply Hs; now left).
    assert (Hstarts : forall starts idx0,
               (forall s, In s starts -> (s <= List.length lines - c)%nat) ->
               indexOk idx0 ->
               indexOk (fold_left (recordChunk digest rel lines c) starts idx0)).
    { induction starts as [|s starts IHs]; intros idx0 Hst Hi0; [exact Hi0|].
      simpl. apply IHs; [intros s' Hs'; apply Hst; now right|].
      apply recordChunk_ok with (fileNode := fileNode); try assumption.
      - lia.
      - specialize (Hst s (or_introl eq_refl)). fold lines. lia. }
    apply Hstarts; [|exact Hi].
    intros s Hs0. unfold forRange in Hs0. apply loopValues_In in Hs0. lia. }
  apply Hsizes; [|exact Hok].
  intros c Hc0. unfold forRange in Hc0. apply loopValues_In in Hc0. exact Hc0.
Qed.

Lemma buildHashIndex_ok : indexOk (buildHashIndex digest codeContent files).
Proof.
  unfold buildHashIndex.
  assert (H : forall l idx, incl l files -> indexOk idx ->
                            indexOk (fold_left (scanFile digest codeContent) l idx)).
  { induction l as [|x l IH]; intros idx Hincl Hok; [exact Hok|].
    simpl. apply IH.
    - intros y Hy. apply Hincl. now right.
    - apply scanFile_ok; [apply Hincl; now left | exact Hok]. }
  apply H; [apply incl_refl|]. intros h entries e [].
Qed.

(** X3: both sides of a reported match are windows that were really scanned:
    each lies inside an indexed file that is not an asset, has at least
    6 lines and a non-empty content, and its normalized text, of at least
    100 characters, has the digest reported as the hash of the match. *)
Theorem duplicationAnalyzer_windows (m : DuplicationMatch) :
  In m (duplicationAnalyzer digest codeContent files) ->
  scanned (hash m) {| entryFile := fileA m; lineStart := lineStartA m;
                      entrySnippet := snippet m |}
  /\ exists snippetB,
       scanned (hash m) {| entryFile := fileB m; lineStart := lineStartB m;
                           entrySnippet := snippetB |}.
Proof.
  intros Hm. unfold duplicationAnalyzer in Hm.
  apply duplications_backed in Hm
    as (entries & bA & eA & aA & bB & eB & aB & Hin & EA & EB
        & FA & FB & _ & _ & LA & LB & SA & _).
  pose proof buildHashIndex_ok as Hok.
  assert (HA : scanned (hash m) eA).
  { apply (Hok _ entries); [exact Hin|]. rewrite EA. apply in_or_app.
    right. now left. }
  assert (HB : scanned (hash m) eB).
  { apply (Hok _ entries); [exact Hin|]. rewrite EB. apply in_or_app.
    right. now left. }
  split.
  - destruct eA as [fa la sa]. cbn [entryFile lineStart entrySnippet] in *.
    now rewrite <- FA, LA, SA.
  - exists (entrySnippet eB).
    destruct eB as [fb lb sb]. cbn [entryFile lineStart entrySnippet] in *.
    now rewrite <- FB, LB.
Qed.

End Origin.

End DuplicationScan.

(* ================================================================== *)
(** * Feature grouper: invariants of the two maps                      *)
(* ================================================================== *)

Section GrouperInvariants.

Import Grouper.

(** [if (!m.has(k)) m.set(k, v)] *)
Definition ensure (m : list (string * Feature)) (k : string) (v : Feature)
  : list (string * Feature) :=
  if Js.hasKey m k then m else Js.set m k v.

(** The common shape of every assignment: make sure the cluster [k]
    exists, update it with [g], record [rel -> k] in the index. *)
Definition assignTo (st : State) (k : string) (fresh : Feature)
  (g : Feature -> Feature) (rel : string) : State :=
  {| featureMap := Js.modify (ensure (featureMap st) k fresh) k g;
     fileToFeature := Js.set (fileToFeature st) rel k |}.

Lemma get_ensure m k v k' :
  Js.get (ensure m k v) k'
  = if String.eqb k k'
    then Some (match Js.get m k with Some F => F | None => v end)
    else Js.get m k'.
Proof.
  unfold ensure. destruct (String.eqb k k') eqn:E.
  - apply String.eqb_eq in E. subst k'.
    destruct (Js.hasKey m k) eqn:H.
    + apply hasKey_true, key_get_Some in H as [F HF]. now rewrite HF.
    + rewrite get_set_same. apply hasKey_false in H. now rewrite H.
  - apply String.eqb_neq in E.
    destruct (Js.hasKey m k); [reflexivity | now apply get_set_other].
Qed.

Lemma keys_ensure m k v :
  Js.keys (ensure m k v)
  = if Js.hasKey m k then Js.keys m else (Js.keys m ++ [k])%list.
Proof.
  unfold ensure. destruct (Js.hasKey m k) eqn:H; [reflexivity|].
  now rewrite keys_set, H.
Qed.

Lemma get_assignTo st k fresh g rel k' :
  Js.get (featureMap (assignTo st k fresh g rel)) k'
  = if String.eqb k k'
    then Some (g (match Js.get (featureMap st) k with
                  | Some F => F | None => fresh end))
    else Js.get (featureMap st) k'.
Proof.
  cbn [assignTo featureMap]. destruct (String.eqb k k') eqn:E.
  - apply String.eqb_eq in E. subst k'.
    rewrite get_modify_same, get_ensure, String.eqb_refl. reflexivity.
  - assert (Hne : k <> k') by now apply String.eqb_neq.
    rewrite get_modify_other by exact Hne.
    now rewrite get_ensure, E.
Qed.

Lemma keys_assignTo st k fresh g rel :
  Js.keys (featureMap (assignTo st k fresh g rel))
  = if Js.hasKey (featureMap st) k then Js.keys (featureMap st)
    else (Js.keys (featureMap st) ++ [k])%list.
Proof. cbn [assignTo featureMap]. now rewrite keys_modify, keys_ensure. Qed.

Lemma index_assignTo st k fresh g rel f :
  Js.get (fileToFeature (assignTo st k fresh g rel)) f
  = if String.eqb rel f then Some k else Js.get (fileToFeature st) f.
Proof.
  cbn [assignTo fileToFeature]. destruct (String.eqb rel f) eqn:E.
  - apply String.eqb_eq in E. subst f. apply get_set_same.
  - apply String.eqb_neq in E. now apply get_set_other.
Qed.

(** An update that appends [rel] to the member list and keeps the id. *)
Definition addsMember (rel : string) (g : Feature -> Feature) : Prop :=
  forall F, id (g F) = id F /\ files (g F) = (files F ++ [rel])%list.

(** An update that keeps the id and the member list. *)
Definition keepsMembers (g : Feature -> Feature) : Prop :=
  forall F, id (g F) = id F /\ files (g F) = files F.

(** The two maps agree: keys are distinct and non-empty, a cluster is
    stored under its id, the index of a file names an existing cluster
    that lists the file, and every listed file has an index entry. *)
Definition wellFormed (st : State) : Prop :=
  NoDup (Js.keys (featureMap st))
  /\ (forall k, In k (Js.keys (featureMap st)) -> Js.truthy k = true)
  /\ (forall k F, Js.get (featureMap st) k = Some F -> id F = k)
  /\ (forall f c, Js.get (fileToFeature st) f = Some c ->
        Js.truthy c = true
        /\ exists F, Js.get (featureMap st) c = Some F /\ In f (files F))
  /\ (forall k F f, Js.get (featureMap st) k = Some F -> In f (files F) ->
        exists c, Js.get (fileToFeature st) f = Some c).

Lemma wellFormed_initial : wellFormed initial.
Proof.
  repeat split; simpl; try constructor; try contradiction; discriminate.
Qed.

Lemma assignTo_wellFormed st k fresh g rel :
  wellFormed st -> Js.truthy k = true ->
  id fresh = k -> files fresh = [] -> addsMember rel g ->
  wellFormed (assignTo st k fresh g rel).
Proof.
  intros (Hnd & Htr & Hid & Hidx & Hmem) Hk Hfid Hffiles Hg.
  split; [|split; [|split; [|split]]].
  - rewrite keys_assignTo. destruct (Js.hasKey (featureMap st) k) eqn:E;
      [exact Hnd|].
    apply hasKey_false, get_None_key in E.
    apply NoDup_app; [exact Hnd | repeat constructor; simpl; tauto |].
    intros x Hx [<-|[]]. contradiction.
  - intros k' Hin. rewrite keys_assignTo in Hin.
    destruct (Js.hasKey (featureMap st) k); [now apply Htr|].
    apply in_app_or in Hin as [Hin|[<-|[]]]; [now apply Htr | exact Hk].
  - intros k' F HF. rewrite get_assignTo in HF.
    destruct (String.eqb k k') eqn:E.
    + apply String.eqb_eq in E. subst k'. injection HF as <-.
      rewrite (proj1 (Hg _)).
      destruct (Js.get (featureMap st) k) as [F0|] eqn:E0;
        [now apply Hid | exact Hfid].
    + now apply Hid.
  - intros f c Hc. rewrite index_assignTo in Hc.
    destruct (String.eqb rel f) eqn:E.
    + apply String.eqb_eq in E. subst f. injection Hc as <-.
      split; [exact Hk|]. eexists. rewrite get_assignTo, String.eqb_refl.
      split; [reflexivity|]. rewrite (proj2 (Hg _)).
      apply in_or_app. right. now left.
    + destruct (Hidx f c Hc) as (Hc1 & F & HF & Hin).
      split; [exact Hc1|]. rewrite get_assignTo.
      destruct (String.eqb k c) eqn:Ekc.
      * apply String.eqb_eq in Ekc. subst c. rewrite HF.
        eexists. split; [reflexivity|]. rewrite (proj2 (Hg _)).
        apply in_or_app. now left.
      * now exists F.
  - intros k' F f HF Hin. rewrite get_assignTo in HF. rewrite index_assignTo.
    destruct (String.eqb rel f) eqn:Erf; [now eexists|].
    destruct (String.eqb k k') eqn:E; [|now apply (Hmem k' F)].
    apply String.eqb_eq in E. subst k'. injection HF as <-.
    rewrite (proj2 (Hg _)) in Hin. apply in_app_or in Hin as [Hin|[<-|[]]].
    + destruct (Js.get (featureMap st) k) as [F0|] eqn:E0.
      * now apply (Hmem k F0).
      * rewrite Hffiles in Hin. contradiction.
    + rewrite String.eqb_refl in Erf. discriminate.
Qed.

Lemma modify_wellFormed st k g :
  wellFormed st -> keepsMembers g ->
  wellFormed {| featureMap := Js.modify (featureMap st) k g;
                fileToFeature := fileToFeature st |}.
Proof.
  intros (Hnd & Htr & Hid & Hidx & Hmem) Hg.
  unfold wellFormed. cbn [featureMap fileToFeature].
  assert (Hget : forall k',
             Js.get (Js.modify (featureMap st) k g) k'
             = if String.eqb k k' then option_map g (Js.get (featureMap st) k)
               else Js.get (featureMap st) k').
  { intros k'. destruct (String.eqb k k') eqn:E.
    - apply String.eqb_eq in E. subst k'. apply get_modify_same.
    - apply String.eqb_neq in E. now apply get_modify_other. }
  split; [|split; [|split; [|split]]].
  - now rewrite keys_modify.
  - intros k'. rewrite keys_modify. apply Htr.
  - intros k' F HF. rewrite Hget in HF. destruct (String.eqb k k') eqn:E.
    + apply String.eqb_eq in E. subst k'.
      destruct (Js.get (featureMap st) k) as [F0|] eqn:E0; [|discriminate].
      injection HF as <-. rewrite (proj1 (Hg _)). now apply Hid.
    + now apply Hid.
  - intros f c Hc. destruct (Hidx f c Hc) as (Hc1 & F & HF & Hin).
    split; [exact Hc1|]. rewrite Hget. destruct (String.eqb k c) eqn:E.
    + apply String.eqb_eq in E. subst c. rewrite HF. simpl.
      eexists. split; [reflexivity|]. now rewrite (proj2 (Hg _)).
    + now exists F.
  - intros k' F f HF Hin. rewrite Hget in HF. destruct (String.eqb k k') eqn:E.
    + apply String.eqb_eq in E. subst k'.
      destruct (Js.get (featureMap st) k) as [F0|] eqn:E0; [|discriminate].
      injection HF as <-. rewrite (proj2 (Hg _)) in Hin. now apply (Hmem k F0).
    + now apply (Hmem k' F).
Qed.

(** ** The passes as assignments *)

Lemma addsMember_push rel sig : addsMember rel (fun f => pushSignal sig (pushFile rel f)).
Proof. intros F. split; reflexivity. Qed.

Lemma addsMember_route rel sig :
  addsMember rel (fun f => pushSignal sig (pushEntryPoint rel (pushFile rel f))).
Proof. intros F. split; reflexivity. Qed.

Lemma addsMember_pushFile rel : addsMember rel (pushFile rel).
Proof. intros F. split; reflexivity. Qed.

Lemma keepsMembers_entry rel sig :
  keepsMembers (fun f => pushSignal sig
                  (if Js.has (entryPoints f) rel then f else pushEntryPoint rel f)).
Proof.
  intros F. destruct (Js.has (entryPoints F) rel); split; reflexivity.
Qed.

Lemma set_as_assignTo st k F g rel :
  Js.get (featureMap st) k = Some F ->
  {| featureMap := Js.set (featureMap st) k (g F);
     fileToFeature := Js.set (fileToFeature st) rel k |}
  = assignTo st k (createFeature k) g rel.
Proof.
  intros H. unfold assignTo, ensure, Js.modify.
  assert (Hk : Js.hasKey (featureMap st) k = true)
    by (unfold Js.hasKey; now rewrite H).
  now rewrite Hk, H.
Qed.

(** The steps of the passes, each as the identity, an assignment of a
    file [rel] for which [R rel st] holds, or an update that leaves the
    member lists alone. *)
Inductive stepOn (R : string -> State -> Prop) (st : State) : State -> Prop :=
| step_idle : stepOn R st st
| step_assign k fresh g rel :
    R rel st ->
    Js.truthy k = true -> id fresh = k -> files fresh = [] ->
    addsMember rel g ->
    stepOn R st (assignTo st k fresh g rel)
| step_update k g :
    keepsMembers g ->
    stepOn R st {| featureMap := Js.modify (featureMap st) k g;
                   fileToFeature := fileToFeature st |}.

Lemma stepOn_weaken (R R' : string -> State -> Prop) st st' :
  (forall rel, R rel st -> R' rel st) -> stepOn R st st' -> stepOn R' st st'.
Proof.
  intros HR [ |k fresh g rel Hr Hk Hid Hf Hg|k g Hg].
  - apply step_idle.
  - apply step_assign; auto.
  - now apply step_update.
Qed.

Lemma stepOn_wellFormed R st st' : stepOn R st st' -> wellFormed st -> wellFormed st'.
Proof.
  intros [ |k fresh g rel _ Hk Hid Hf Hg|k g Hg] Hwf.
  - exact Hwf.
  - now apply assignTo_wellFormed.
  - now apply modify_wellFormed.
Qed.

(** What each pass knows about the file it assigns. *)
Definition isFile (rel : string) : string -> State -> Prop :=
  fun r _ => r = rel.

Definition freeTarget (e : ImportEdge) : string -> State -> Prop :=
  fun r st => r = target e /\ truthyOpt (Js.get (fileToFeature st) r) = false.

Definition freeIndexed (fileKeys : list string) : string -> State -> Prop :=
  fun r st => In r fileKeys /\ Js.hasKey (fileToFeature st) r = false.

Definition freeFile (rel : string) : string -> State -> Prop :=
  fun r st => r = rel /\ Js.hasKey (fileToFeature st) r = false.

Lemma signal1_file_step config st rel :
  stepOn (isFile rel) st (signal1_file config st rel).
Proof.
  unfold signal1_file.
  destruct (detectFeatureFromPath rel config) as [featureId|]; [|constructor].
  destruct (Js.truthy featureId) eqn:E; [|constructor].
  apply (@step_assign (isFile rel) st featureId (createFeature featureId)
           (fun f => pushSignal _ (pushFile rel f)) rel);
    try reflexivity; [exact E|].
  apply addsMember_push.
Qed.

Lemma route_truthy rel pagesDir r :
  detectFeatureFromRoute rel pagesDir = Some r -> Js.truthy r = true.
Proof.
  unfold detectFeatureFromRoute.
  destruct (Js.truthy _ && negb _ && negb _); [|discriminate].
  destruct (Js.truthy (Js.stripExtension _)) eqn:E; [|discriminate].
  destruct (negb _); [|discriminate].
  intros [= <-]. exact E.
Qed.

Lemma signal2_dir_step rel st pagesDir :
  stepOn (isFile rel) st (signal2_dir rel st pagesDir).
Proof.
  unfold signal2_dir.
  destruct (negb (Js.startsWith rel pagesDir)); [constructor|].
  destruct (detectFeatureFromRoute rel pagesDir) as [routeFeature|] eqn:Er;
    [|constructor].
  destruct (Js.hasKey (featureMap st) routeFeature) eqn:E.
  - apply step_update. apply keepsMembers_entry.
  - match goal with
    | |- stepOn _ st {| featureMap := Js.modify _ _ ?g; fileToFeature := _ |} =>
        replace (Js.set (featureMap st) routeFeature (createFeature routeFeature))
          with (ensure (featureMap st) routeFeature (createFeature routeFeature))
          by (unfold ensure; now rewrite E);
        apply (@step_assign (isFile rel) st routeFeature
                 (createFeature routeFeature) g rel)
    end; try reflexivity; [exact (route_truthy _ _ Er)|].
    apply addsMember_route.
Qed.

Lemma signal3_edge_step st e : stepOn (freeTarget e) st (signal3_edge st e).
Proof.
  unfold signal3_edge.
  destruct (Js.get (fileToFeature st) (source e)) as [sf|]; [|constructor].
  destruct (Js.truthy sf) eqn:Et; [|constructor]. cbn [andb].
  destruct (truthyOpt (Js.get (fileToFeature st) (target e))) eqn:Ef0;
    [constructor|]. cbn [negb].
  destruct (Js.get (featureMap st) sf) as [feature|] eqn:Ef; [|constructor].
  destruct (negb (Js.has (files feature) (target e))); [|constructor].
  rewrite (@set_as_assignTo st sf feature
             (fun f => pushSignal _ (pushFile (target e) f)) (target e) Ef).
  apply step_assign; try reflexivity;
    [now split | exact Et | apply addsMember_push].
Qed.

Lemma signal4_cofile_step fileKeys file myFeature st coFile :
  Js.truthy myFeature = true ->
  stepOn (freeIndexed fileKeys) st (signal4_cofile fileKeys file myFeature st coFile).
Proof.
  intros Ht. unfold signal4_cofile.
  destruct (Js.hasKey (fileToFeature st) coFile) eqn:Eh; [constructor|].
  destruct (Js.has fileKeys coFile) eqn:Ei; [|constructor]. cbn [negb andb].
  destruct (Js.get (featureMap st) myFeature) as [feature|] eqn:Ef; [|constructor].
  destruct (negb (Js.has (files feature) coFile)); [|constructor].
  rewrite (@set_as_assignTo st myFeature feature
             (fun f => pushSignal _ (pushFile coFile f)) coFile Ef).
  apply step_assign; try reflexivity;
    [split; [now apply has_true | exact Eh] | exact Ht | apply addsMember_push].
Qed.

Lemma fallback_file_step st rel : stepOn (freeFile rel) st (fallback_file st rel).
Proof.
  unfold fallback_file.
  destruct (Js.hasKey (fileToFeature st) rel) eqn:Eh; [constructor|]. cbn [negb].
  apply (@step_assign (freeFile rel) st "cross-cutting" crossCuttingFeature
           (pushFile rel) rel);
    try reflexivity; [now split|].
  apply addsMember_pushFile.
Qed.

(** A property kept by the steps of a pass is kept by the pass. *)
Section Passes.

Variable P : State -> Prop.

Lemma fold_steps {A} (R : A -> string -> State -> Prop)
  (f : State -> A -> State) (l : list A) :
  (forall st a, stepOn (R a) st (f st a)) ->
  (forall a st st', In a l -> stepOn (R a) st st' -> P st -> P st') ->
  forall st, P st -> P (fold_left f l st).
Proof.
  intros Hf. induction l as [|a l IH]; intros HP st Hst; [exact Hst|].
  simpl. apply IH.
  - intros b s s' Hb. apply HP. now right.
  - eapply HP; [now left | apply Hf | exact Hst].
Qed.

Variable fileKeys : list string.
Variable importGraph : list ImportEdge.

Hypothesis P_indexed : forall rel st st',
  In rel fileKeys -> stepOn (isFile rel) st st' -> P st -> P st'.
Hypothesis P_target : forall e st st',
  In e importGraph -> stepOn (freeTarget e) st st' -> P st -> P st'.
Hypothesis P_coChanged : forall st st',
  stepOn (freeIndexed fileKeys) st st' -> P st -> P st'.
Hypothesis P_fallback : forall rel st st',
  In rel fileKeys -> stepOn (freeFile rel) st st' -> P st -> P st'.

Lemma signal1_keeps config st : P st -> P (signal1 config fileKeys st).
Proof.
  apply (fold_steps isFile); [intros; apply signal1_file_step | exact P_indexed].
Qed.

Lemma signal2_keeps config st : P st -> P (signal2 config fileKeys st).
Proof.
  unfold signal2, signal2_file.
  assert (H : forall l, incl l fileKeys -> forall st,
             P st ->
             P (fold_left (fun s rel => fold_left (signal2_dir rel) (pagesDirsOf config) s)
                  l st)).
  { induction l as [|rel l IH]; intros Hincl s Hs; [exact Hs|].
    simpl. apply IH; [intros x Hx; apply Hincl; now right|].
    revert Hs.
    apply (fold_steps (fun _ : string => isFile rel));
      [intros; apply signal2_dir_step|].
    intros _ s1 s2 _. apply P_indexed, Hincl. now left. }
  apply H, incl_refl.
Qed.

Lemma signal3_keeps st : P st -> P (signal3 importGraph st).
Proof.
  apply (fold_steps freeTarget); [intros; apply signal3_edge_step | exact P_target].
Qed.

Lemma signal4_keeps skip churns st :
  P st -> P (signal4 skip churns fileKeys st).
Proof.
  unfold signal4. destruct (negb skip && _); [|auto]. revert st.
  induction churns as [|[file churn] churns IH]; intros st Hst; [exact Hst|].
  simpl. apply IH.
  destruct (Js.get (fileToFeature st) file) as [myFeature|]; [|exact Hst].
  destruct (Js.truthy myFeature) eqn:Et; [|exact Hst].
  revert Hst.
  apply (fold_steps (fun _ : string => freeIndexed fileKeys));
    [intros; now apply signal4_cofile_step|].
  intros _ s1 s2 _. apply P_coChanged.
Qed.

Lemma fallback_keeps st : P st -> P (fallback fileKeys st).
Proof.
  apply (fold_steps freeFile); [intros; apply fallback_file_step | exact P_fallback].
Qed.

Lemma clusters_keeps config skip churns :
  P initial -> P (clusters config fileKeys importGraph skip churns).
Proof.
  intros H. unfold clusters.
  apply fallback_keeps, signal4_keeps, signal3_keeps, signal2_keeps,
    signal1_keeps, H.
Qed.

End Passes.

Lemma clusters_wellFormed config fileKeys graph skip churns :
  wellFormed (clusters config fileKeys graph skip churns).
Proof.
  apply clusters_keeps; try apply wellFormed_initial;
    intros; eapply stepOn_wellFormed; eauto.
Qed.

Lemma In_get {V : Type} (m : list (string * V)) k v :
  NoDup (Js.keys m) -> In (k, v) m -> Js.get m k = Some v.
Proof.
  induction m as [|[k' v'] m IH]; simpl; [contradiction|].
  intros Hnd [[= -> ->]|Hin].
  - now rewrite String.eqb_refl.
  - inversion Hnd as [|? ? Hnot Hnd']; subst.
    destruct (String.eqb k' k) eqn:E; [|now apply IH].
    apply String.eqb_eq in E. subst k'. exfalso. apply Hnot.
    change k with (fst (k, v)). now apply in_map.
Qed.

Lemma get_values {V : Type} (m : list (string * V)) k v :
  Js.get m k = Some v -> In v (Js.values m).
Proof.
  intros H. apply get_In in H. change v with (snd (k, v)). now apply in_map.
Qed.

Lemma values_get {V : Type} (m : list (string * V)) v :
  NoDup (Js.keys m) -> In v (Js.values m) -> exists k, Js.get m k = Some v.
Proof.
  intros Hnd Hin. apply in_map_iff in Hin as [[k v'] [<- Hin]].
  exists k. now apply In_get.
Qed.

Lemma wellFormed_ids st :
  wellFormed st -> map id (Js.values (featureMap st)) = Js.keys (featureMap st).
Proof.
  intros (Hnd & _ & Hid & _). unfold Js.values, Js.keys. rewrite map_map.
  apply map_ext_in. intros [k F] Hin. simpl. apply Hid. now apply In_get.
Qed.

Lemma output_member config fileKeys graph skip churns G :
  In G (featureGrouper config fileKeys graph skip churns) ->
  exists F, Js.get (featureMap (clusters config fileKeys graph skip churns)) (id G)
            = Some F
            /\ files G = files F /\ G = scoreConfidence F.
Proof.
  intros Hin. unfold featureGrouper in Hin.
  apply in_map_iff in Hin as [F [<- Hin]].
  pose proof (clusters_wellFormed config fileKeys graph skip churns) as Hwf.
  destruct (@values_get _ _ F (proj1 Hwf) Hin) as [k Hk].
  destruct Hwf as (_ & _ & Hid & _). rewrite <- (Hid _ _ Hk) in Hk.
  exists F. repeat split. exact Hk.
Qed.

(** ** Every indexed file ends in a cluster *)

Lemma fallback_file_index st r f :
  Js.hasKey (fileToFeature st) f = true ->
  Js.hasKey (fileToFeature (fallback_file st r)) f = true.
Proof.
  intros H. unfold fallback_file.
  destruct (negb (Js.hasKey (fileToFeature st) r)); [|exact H].
  cbn [fileToFeature]. apply hasKey_true. rewrite keys_set.
  apply hasKey_true in H.
  destruct (Js.hasKey (fileToFeature st) r); [exact H|].
  apply in_or_app. now left.
Qed.

Lemma fallback_file_self st r :
  Js.hasKey (fileToFeature (fallback_file st r)) r = true.
Proof.
  unfold fallback_file.
  destruct (Js.hasKey (fileToFeature st) r) eqn:E; [exact E|].
  cbn [negb fileToFeature]. unfold Js.hasKey. now rewrite get_set_same.
Qed.

Lemma fallback_indexes fileKeys st rel :
  In rel fileKeys \/ Js.hasKey (fileToFeature st) rel = true ->
  Js.hasKey (fileToFeature (fallback fileKeys st)) rel = true.
Proof.
  unfold fallback. revert st.
  induction fileKeys as [|r fileKeys IH]; intros st [Hin|Hk]; simpl.
  - contradiction.
  - exact Hk.
  - destruct Hin as [->|Hin]; apply IH.
    + right. apply fallback_file_self.
    + now left.
  - apply IH. right. now apply fallback_file_index.
Qed.

Lemma featureGrouper_covers_aux config fileKeys graph skip churns rel :
  In rel fileKeys ->
  exists F, In F (featureGrouper config fileKeys graph skip churns)
            /\ In rel (files F).
Proof.
  intros Hin.
  pose proof (clusters_wellFormed config fileKeys graph skip churns) as Hwf.
  assert (Hk : Js.hasKey
                 (fileToFeature (clusters config fileKeys graph skip churns)) rel
               = true)
    by (unfold clusters; apply fallback_indexes; now left).
  apply hasKey_true, key_get_Some in Hk as [c Hc].
  destruct Hwf as (_ & _ & _ & Hidx & _).
  destruct (Hidx rel c Hc) as (_ & F & HF & HinF).
  exists (scoreConfidence F). split; [|exact HinF].
  unfold featureGrouper. apply in_map. eapply get_values; eauto.
Qed.

(** X4: no indexed file is left out: it is a member of at least one
    cluster of [store.features]. *)
Theorem featureGrouper_covers config fileKeys graph skip churns rel :
  In rel fileKeys ->
  exists F, In F (featureGrouper config fileKeys graph skip churns)
            /\ In rel (files F).
Proof. apply featureGrouper_covers_aux. Qed.

Lemma featureGrouper_ids_aux config fileKeys graph skip churns :
  NoDup (map id (featureGrouper config fileKeys graph skip churns))
  /\ forall F, In F (featureGrouper config fileKeys graph skip churns) ->
               id F <> "".
Proof.
  pose proof (clusters_wellFormed config fileKeys graph skip churns) as Hwf.
  assert (Hids : map id (featureGrouper config fileKeys graph skip churns)
                 = Js.keys (featureMap (clusters config fileKeys graph skip churns))).
  { unfold featureGrouper. rewrite map_map.
    rewrite <- (wellFormed_ids Hwf). apply map_ext. reflexivity. }
  split.
  - rewrite Hids. apply Hwf.
  - intros F HF E.
    assert (Hin : In (id F) (map id (featureGrouper config fileKeys graph skip churns)))
      by now apply in_map.
    rewrite Hids in Hin. destruct Hwf as (_ & Htr & _).
    apply Htr in Hin. rewrite E in Hin. discriminate.
Qed.

(** X5: the ids of the clusters of [store.features] are pairwise
    distinct and none is the empty string. *)
Theorem featureGrouper_ids_distinct config fileKeys graph skip churns :
  NoDup (map id (featureGrouper config fileKeys graph skip churns))
  /\ forall F, In F (featureGrouper config fileKeys graph skip churns) ->
               id F <> "".
Proof. apply featureGrouper_ids_aux. Qed.

(** ** Members are indexed files *)

Definition membersIn (fileKeys : list string) (st : State) : Prop :=
  forall k F f, Js.get (featureMap st) k = Some F -> In f (files F) ->
                In f fileKeys.

Lemma stepOn_membersIn fileKeys st st' :
  stepOn (fun r _ => In r fileKeys) st st' ->
  membersIn fileKeys st -> membersIn fileKeys st'.
Proof.
  intros [ |k fresh g rel Hr Hk Hid Hf Hg|k g Hg] Hm.
  - exact Hm.
  - intros k' F f HF Hin. rewrite get_assignTo in HF.
    destruct (String.eqb k k') eqn:E; [|now apply (Hm k' F)].
    injection HF as <-. rewrite (proj2 (Hg _)) in Hin.
    apply in_app_or in Hin as [Hin|[<-|[]]]; [|exact Hr].
    destruct (Js.get (featureMap st) k) as [F0|] eqn:E0.
    + now apply (Hm k F0).
    + rewrite Hf in Hin. contradiction.
  - intros k' F f HF Hin. cbn [featureMap] in HF.
    destruct (String.eqb k k') eqn:E.
    + apply String.eqb_eq in E. subst k'. rewrite get_modify_same in HF.
      destruct (Js.get (featureMap st) k) as [F0|] eqn:E0; [|discriminate].
      injection HF as <-. rewrite (proj2 (Hg _)) in Hin. now apply (Hm k F0).
    + apply String.eqb_neq in E. rewrite get_modify_other in HF by exact E.
      now apply (Hm k' F).
Qed.

Lemma featureGrouper_members_aux config fileKeys graph skip churns :
  (forall e, In e graph -> In (target e) fileKeys) ->
  forall F f, In F (featureGrouper config fileKeys graph skip churns) ->
              In f (files F) -> In f fileKeys.
Proof.
  intros Hgraph F f HF Hin.
  destruct (@output_member _ _ _ _ _ _ HF) as (F0 & HF0 & Hfiles & _).
  rewrite Hfiles in Hin.
  assert (Hm : membersIn fileKeys (clusters config fileKeys graph skip churns)).
  { apply clusters_keeps.
    - intros rel st st' Hrel Hs. apply stepOn_membersIn.
      eapply stepOn_weaken; [|exact Hs]. intros r ->. exact Hrel.
    - intros e st st' He Hs. apply stepOn_membersIn.
      eapply stepOn_weaken; [|exact Hs]. intros r [-> _]. now apply Hgraph.
    - intros st st' Hs. apply stepOn_membersIn.
      eapply stepOn_weaken; [|exact Hs]. intros r [Hr _]. exact Hr.
    - intros rel st st' Hrel Hs. apply stepOn_membersIn.
      eapply stepOn_weaken; [|exact Hs]. intros r [-> _]. exact Hrel.
    - intros k F1 f1 H1. discriminate. }
  exact (Hm _ _ _ HF0 Hin).
Qed.

(** X6: when every import edge points at an indexed file, every member
    of every cluster is an indexed file. *)
Theorem featureGrouper_members_indexed config fileKeys graph skip churns :
  (forall e, In e graph -> In (target e) fileKeys) ->
  forall F f, In F (featureGrouper config fileKeys graph skip churns) ->
              In f (files F) -> In f fileKeys.
Proof. apply featureGrouper_members_aux. Qed.

(** ** One cluster per file when no route directory is configured *)

(** Index and member lists agree exactly: a member of a cluster is
    indexed under that cluster, and is listed once. *)
Definition exclusive (st : State) : Prop :=
  (forall k F f, Js.get (featureMap st) k = Some F -> In f (files F) ->
                 Js.get (fileToFeature st) f = Some k)
  /\ (forall k F, Js.get (featureMap st) k = Some F -> NoDup (files F)).

Definition unindexed : string -> State -> Prop :=
  fun r st => Js.get (fileToFeature st) r = None.

Lemma stepOn_exclusive st st' :
  stepOn unindexed st st' -> exclusive st -> exclusive st'.
Proof.
  intros [ |k fresh g rel Hr Hk Hid Hf Hg|k g Hg] [Hx Hnd].
  - now split.
  - unfold unindexed in Hr.
    assert (Hold : forall F0 f, Js.get (featureMap st) k = Some F0 ->
                                In f (files F0) -> f <> rel).
    { intros F0 f H0 Hin ->. rewrite (Hx _ _ _ H0 Hin) in Hr. discriminate. }
    split.
    + intros k' F f HF Hin. rewrite get_assignTo in HF. rewrite index_assignTo.
      destruct (String.eqb k k') eqn:E.
      * apply String.eqb_eq in E. subst k'. injection HF as <-.
        rewrite (proj2 (Hg _)) in Hin.
        apply in_app_or in Hin as [Hin|[<-|[]]];
          [|now rewrite String.eqb_refl].
        destruct (Js.get (featureMap st) k) as [F0|] eqn:E0.
        -- assert (Hne : String.eqb rel f = false)
             by (apply String.eqb_neq; intros ->; now apply (Hold F0 f)).
           rewrite Hne. now apply (Hx k F0).
        -- rewrite Hf in Hin. contradiction.
      * assert (Hne : String.eqb rel f = false).
        { apply String.eqb_neq. intros ->.
          rewrite (Hx _ _ _ HF Hin) in Hr. discriminate. }
        rewrite Hne. now apply (Hx k' F).
    + intros k' F HF. rewrite get_assignTo in HF.
      destruct (String.eqb k k') eqn:E; [|now apply (Hnd k' F)].
      injection HF as <-. rewrite (proj2 (Hg _)).
      destruct (Js.get (featureMap st) k) as [F0|] eqn:E0.
      * apply NoDup_app; [now apply (Hnd k F0) | repeat constructor; simpl; tauto |].
        intros x Hx0 [<-|[]]. now apply (Hold F0 rel).
      * rewrite Hf. repeat constructor. simpl. tauto.
  - cbn [featureMap fileToFeature] in *.
    assert (Hget : forall k' F, Js.get (Js.modify (featureMap st) k g) k' = Some F ->
                     exists F0, Js.get (featureMap st) k' = Some F0
                                /\ files F = files F0).
    { intros k' F HF. destruct (String.eqb k k') eqn:E.
      - apply String.eqb_eq in E. subst k'. rewrite get_modify_same in HF.
        destruct (Js.get (featureMap st) k) as [F0|]; [|discriminate].
        injection HF as <-. exists F0. split; [reflexivity | apply Hg].
      - apply String.eqb_neq in E. rewrite get_modify_other in HF by exact E.
        now exists F. }
    split; cbn [featureMap fileToFeature].
    + intros k' F f HF Hin. destruct (Hget _ _ HF) as (F0 & H0 & Hfiles).
      rewrite Hfiles in Hin. now apply (Hx k' F0).
    + intros k' F HF. destruct (Hget _ _ HF) as (F0 & H0 & Hfiles).
      rewrite Hfiles. now apply (Hnd k' F0).
Qed.

Definition consistent (st : State) : Prop := wellFormed st /\ exclusive st.

Lemma stepOn_consistent R st st' :
  (forall r, R r st -> truthyOpt (Js.get (fileToFeature st) r) = false) ->
  stepOn R st st' -> consistent st -> consistent st'.
Proof.
  intros HR Hs [Hwf Hx]. split; [eapply stepOn_wellFormed; eauto|].
  apply (@stepOn_exclusive st st'); [|exact Hx].
  eapply stepOn_weaken; [|exact Hs].
  intros r Hr. apply HR in Hr. unfold unindexed.
  destruct (Js.get (fileToFeature st) r) as [c|] eqn:E; [|reflexivity].
  destruct Hwf as (_ & _ & _ & Hidx & _).
  destruct (Hidx r c E) as [Ht _]. simpl in Hr. congruence.
Qed.

Lemma hasKey_truthyOpt (m : list (string * string)) r :
  Js.hasKey m r = false -> truthyOpt (Js.get m r) = false.
Proof. intros H. apply hasKey_false in H. now rewrite H. Qed.

Lemma stepOn_index_keys rel st st' f :
  stepOn (isFile rel) st st' ->
  In f (Js.keys (fileToFeature st')) ->
  In f (Js.keys (fileToFeature st)) \/ f = rel.
Proof.
  intros [ |k fresh g r Hr Hk Hid Hf Hg|k g Hg] Hin.
  - now left.
  - unfold isFile in Hr. subst r. cbn [assignTo fileToFeature] in Hin.
    rewrite keys_set in Hin.
    destruct (Js.hasKey (fileToFeature st) rel); [now left|].
    apply in_app_or in Hin as [Hin|[<-|[]]]; [now left | now right].
  - now left.
Qed.

Lemma signal1_consistent config rest :
  forall done st,
    NoDup (done ++ rest) -> consistent st ->
    (forall f, In f (Js.keys (fileToFeature st)) -> In f done) ->
    consistent (fold_left (signal1_file config) rest st).
Proof.
  induction rest as [|a rest IH]; intros done st Hnd Hc Hdone; [exact Hc|].
  simpl. pose proof (signal1_file_step config st a) as Hs.
  apply (IH (done ++ [a])%list).
  - now rewrite <- app_assoc.
  - eapply stepOn_consistent; [|exact Hs|exact Hc].
    intros r ->. destruct (Js.get (fileToFeature st) a) as [c|] eqn:E;
      [|reflexivity].
    exfalso. apply get_Some_key, Hdone in E.
    apply NoDup_remove_2 in Hnd. apply Hnd, in_or_app. now left.
  - intros f Hf. apply in_or_app.
    destruct (@stepOn_index_keys a st _ f Hs Hf) as [H| ->]; [left; now apply Hdone|].
    right. now left.
Qed.

Lemma signal2_no_routes config fileKeys st :
  pagesDirsOf config = [] -> signal2 config fileKeys st = st.
Proof.
  intros H. unfold signal2, signal2_file. rewrite H.
  induction fileKeys as [|rel fileKeys IH]; [reflexivity | exact IH].
Qed.

Lemma clusters_consistent config fileKeys graph skip churns :
  pagesDirsOf config = [] -> NoDup fileKeys ->
  consistent (clusters config fileKeys graph skip churns).
Proof.
  intros Hno Hnd. unfold clusters. rewrite signal2_no_routes by exact Hno.
  apply fallback_keeps.
  { intros rel st st' _. apply stepOn_consistent.
    intros r [_ Hr]. now apply hasKey_truthyOpt. }
  apply signal4_keeps.
  { intros st st'. apply stepOn_consistent.
    intros r [_ Hr]. now apply hasKey_truthyOpt. }
  apply (@signal3_keeps consistent graph).
  { intros e st st' _. apply stepOn_consistent. intros r [_ Hr]. exact Hr. }
  unfold signal1. apply (@signal1_consistent config fileKeys []).
  - exact Hnd.
  - split; [apply wellFormed_initial|].
    split; intros k F; discriminate.
  - intros f [].
Qed.

Lemma featureGrouper_partition_aux config fileKeys graph skip churns rel :
  pagesDirsOf config = [] -> NoDup fileKeys -> In rel fileKeys ->
  exists F, In F (featureGrouper config fileKeys graph skip churns)
            /\ In rel (files F) /\ NoDup (files F)
            /\ forall G, In G (featureGrouper config fileKeys graph skip churns) ->
                         In rel (files G) -> G = F.
Proof.
  intros Hno Hnd Hin.
  destruct (@featureGrouper_covers_aux config fileKeys graph skip churns rel Hin)
    as (F & HF & HinF).
  destruct (@clusters_consistent config fileKeys graph skip churns Hno Hnd)
    as [Hwf [Hx Hfiles]].
  exists F. split; [exact HF|]. split; [exact HinF|].
  destruct (@output_member _ _ _ _ _ _ HF) as (F0 & HF0 & HfilesF & HF1).
  split; [rewrite HfilesF; now apply (Hfiles (id F) F0)|].
  intros G HG HinG.
  destruct (@output_member _ _ _ _ _ _ HG) as (G0 & HG0 & HfilesG & HG1).
  rewrite HfilesF in HinF. rewrite HfilesG in HinG.
  pose proof (Hx _ _ _ HF0 HinF) as E1. pose proof (Hx _ _ _ HG0 HinG) as E2.
  rewrite E1 in E2. injection E2 as E2. rewrite E2 in HF0.
  rewrite HF0 in HG0. injection HG0 as ->. now rewrite HF1, HG1.
Qed.

(** X7: without a route directory in the configuration (no convention
    path ending in [pages/], [app/] or [routes/]) the clusters partition
    the indexed files: each indexed file is listed by exactly one
    cluster, and once. *)
Theorem featureGrouper_partition config fileKeys graph skip churns rel :
  pagesDirsOf config = [] -> NoDup fileKeys -> In rel fileKeys ->
  exists F, In F (featureGrouper config fileKeys graph skip churns)
            /\ In rel (files F) /\ NoDup (files F)
            /\ forall G, In G (featureGrouper config fileKeys graph skip churns) ->
                         In rel (files G) -> G = F.
Proof. apply featureGrouper_partition_aux. Qed.

(** ** What signal 2 can and cannot change *)

Lemma signal2_dir_members rel st pagesDir k F :
  Js.get (featureMap st) k = Some F ->
  exists F', Js.get (featureMap (signal2_dir rel st pagesDir)) k = Some F'
             /\ files F' = files F /\ id F' = id F.
Proof.
  intros HF. unfold signal2_dir.
  destruct (negb (Js.startsWith rel pagesDir)); [now exists F|].
  destruct (detectFeatureFromRoute rel pagesDir) as [routeFeature|];
    [|now exists F].
  destruct (Js.hasKey (featureMap st) routeFeature) eqn:E; cbn [featureMap].
  - destruct (String.eqb routeFeature k) eqn:Ek.
    + apply String.eqb_eq in Ek. subst k.
      rewrite get_modify_same, HF. simpl. eexists. split; [reflexivity|].
      destruct (Js.has (entryPoints F) rel); split; reflexivity.
    + apply String.eqb_neq in Ek. rewrite get_modify_other by exact Ek.
      now exists F.
  - assert (Hne : routeFeature <> k).
    { intros ->. apply hasKey_false in E. congruence. }
    rewrite get_modify_other, get_set_other by exact Hne. now exists F.
Qed.

(** X8: signal 2 never changes the member list or the id of a cluster
    that exists when it starts. *)
Theorem signal2_members_unchanged config fileKeys st k F :
  Js.get (featureMap st) k = Some F ->
  exists F', Js.get (featureMap (signal2 config fileKeys st)) k = Some F'
             /\ files F' = files F /\ id F' = id F.
Proof.
  unfold signal2, signal2_file. revert st F.
  induction fileKeys as [|rel fileKeys IH]; intros st F HF; [now exists F|].
  simpl.
  assert (Hdirs : forall dirs s F0,
             Js.get (featureMap s) k = Some F0 ->
             exists F', Js.get (featureMap (fold_left (signal2_dir rel) dirs s)) k
                        = Some F'
                        /\ files F' = files F0 /\ id F' = id F0).
  { induction dirs as [|d dirs IHd]; intros s F0 H0; [now exists F0|].
    simpl. destruct (@signal2_dir_members rel s d k F0 H0) as (F1 & H1 & Hf1 & Hi1).
    destruct (IHd _ _ H1) as (F2 & H2 & Hf2 & Hi2).
    exists F2. repeat split; congruence. }
  destruct (Hdirs (pagesDirsOf config) st F HF) as (F1 & H1 & Hf1 & Hi1).
  destruct (IH _ _ H1) as (F2 & H2 & Hf2 & Hi2).
  exists F2. repeat split; congruence.
Qed.

(** Relative to a starting state [st0]: no cluster was removed, and an
    index entry is the one of [st0] or names a cluster created since. *)
Definition reindexedFrom (st0 st : State) : Prop :=
  (forall k, In k (Js.keys (featureMap st0)) -> In k (Js.keys (featureMap st)))
  /\ (forall f c, Js.get (fileToFeature st) f = Some c ->
        Js.get (fileToFeature st0) f = Some c
        \/ ~ In c (Js.keys (featureMap st0))).

Lemma signal2_dir_reindexed st0 rel st pagesDir :
  reindexedFrom st0 st -> reindexedFrom st0 (signal2_dir rel st pagesDir).
Proof.
  intros [Hkeys Hidx]. unfold signal2_dir.
  destruct (negb (Js.startsWith rel pagesDir)); [now split|].
  destruct (detectFeatureFromRoute rel pagesDir) as [routeFeature|];
    [|now split].
  destruct (Js.hasKey (featureMap st) routeFeature) eqn:E;
    split; cbn [featureMap fileToFeature].
  - intros k Hk. rewrite keys_modify. now apply Hkeys.
  - exact Hidx.
  - intros k Hk. rewrite keys_modify, keys_set, E.
    apply in_or_app. left. now apply Hkeys.
  - intros f c Hc. destruct (String.eqb rel f) eqn:Ef.
    + apply String.eqb_eq in Ef. subst f. rewrite get_set_same in Hc.
      injection Hc as <-. right. intros Hin. apply Hkeys in Hin.
      apply hasKey_true in Hin. congruence.
    + apply String.eqb_neq in Ef. rewrite get_set_other in Hc by exact Ef.
      now apply Hidx.
Qed.

(** X9: after signal 2 the cluster id of a file is the one it had
    before, or the id of a cluster that signal 2 created. *)
Theorem signal2_reindexes_to_new_clusters config fileKeys st f c :
  Js.get (fileToFeature (signal2 config fileKeys st)) f = Some c ->
  Js.get (fileToFeature st) f = Some c
  \/ ~ In c (Js.keys (featureMap st)).
Proof.
  assert (H : reindexedFrom st (signal2 config fileKeys st)).
  { unfold signal2, signal2_file.
    assert (H0 : reindexedFrom st st) by (split; auto).
    revert H0. generalize st at 2 4 as s.
    induction fileKeys as [|rel fileKeys IH]; intros s Hs; [exact Hs|].
    simpl. apply IH. clear IH. revert s Hs.
    generalize (pagesDirsOf config) as dirs.
    induction dirs as [|d dirs IHd]; intros s Hs; [exact Hs|].
    simpl. apply IHd. now apply signal2_dir_reindexed. }
  intros Hc. now apply (proj2 H).
Qed.

(** ** The names the two detectors can return *)

Lemma includes_slash_cons c s :
  Js.includes (String c s) "/" = Ascii.eqb c "/" || Js.includes s "/".
Proof.
  cbn [Js.includes]. f_equal. cbn [String.prefix].
  destruct (ascii_dec "/" c) as [<-|Hne].
  - now destruct s.
  - symmetry. apply Ascii.eqb_neq. congruence.
Qed.

Lemma split_parts_no_sep s p :
  In p (Js.split "/" s) -> Js.includes p "/" = false.
Proof.
  revert p. induction s as [|c s IH]; intros p; simpl.
  - intros [<-|[]]. reflexivity.
  - destruct (Ascii.eqb c "/") eqn:E.
    + intros [<-|Hin]; [reflexivity | now apply IH].
    + destruct (Js.split "/" s) as [|h rest] eqn:Es.
      * intros [<-|[]]. rewrite includes_slash_cons, E. reflexivity.
      * intros [<-|Hin].
        -- rewrite includes_slash_cons, E. apply IH. now left.
        -- apply IH. now right.
Qed.

Lemma stripExtension_no_slash s :
  Js.includes s "/" = false -> Js.includes (Js.stripExtension s) "/" = false.
Proof.
  induction s as [|c s IH]; [reflexivity|].
  rewrite includes_slash_cons. intros H. apply orb_false_iff in H as [Hc Hs].
  simpl. destruct (Ascii.eqb c "." && negb (Js.hasDot s) && negb (String.eqb s ""));
    [reflexivity|].
  rewrite includes_slash_cons, Hc. now apply IH.
Qed.

Lemma nth_split_no_slash s n :
  Js.includes (nth n (Js.split "/" s) "") "/" = false.
Proof.
  destruct (nth_in_or_default n (Js.split "/" s) "") as [H| ->].
  - now apply (@split_parts_no_sep s).
  - reflexivity.
Qed.

Lemma startsWith_char c d s :
  Js.startsWith (String c s) (String d "") = Ascii.eqb c d.
Proof.
  unfold Js.startsWith. cbn [String.prefix].
  destruct (ascii_dec d c) as [->|Hne].
  - rewrite Ascii.eqb_refl. now destruct s.
  - symmetry. apply Ascii.eqb_neq. congruence.
Qed.

(** X10: a route feature name is never empty, never [index], does not
    start with [_] or [.], and has no [/] in it. *)
Theorem detectFeatureFromRoute_name rel pagesDir r :
  detectFeatureFromRoute rel pagesDir = Some r ->
  r <> "" /\ r <> "index"
  /\ Js.startsWith r "_" = false /\ Js.startsWith r "." = false
  /\ Js.includes r "/" = false.
Proof.
  unfold detectFeatureFromRoute.
  set (p0 := nth 0 (Js.split "/" (Js.replace rel pagesDir "")) "").
  assert (Hp : Js.includes p0 "/" = false) by apply nth_split_no_slash.
  destruct p0 as [|c s]; [discriminate|].
  change (Js.truthy (String c s)) with true. rewrite !startsWith_char.
  destruct (Ascii.eqb c "_") eqn:E1; [discriminate|].
  destruct (Ascii.eqb c ".") eqn:E2; [discriminate|].
  cbn [negb andb].
  destruct (Js.truthy (Js.stripExtension (String c s))) eqn:Et; [|discriminate].
  destruct (String.eqb (Js.stripExtension (String c s)) "index") eqn:Ei;
    [discriminate|].
  cbn [negb andb]. intros H.
  assert (Hr0 : r = Js.stripExtension (String c s)) by congruence.
  clear H. subst r.
  assert (Hr : Js.stripExtension (String c s) = String c (Js.stripExtension s))
    by (cbn [Js.stripExtension]; now rewrite E2).
  split; [rewrite Hr; discriminate|].
  split; [now apply String.eqb_neq|].
  split; [rewrite Hr, startsWith_char; exact E1|].
  split; [rewrite Hr, startsWith_char; exact E2|].
  now apply stripExtension_no_slash.
Qed.

Lemma skipn_In {A} (n : nat) (l : list A) x : In x (skipn n l) -> In x l.
Proof.
  revert l. induction n as [|n IH]; intros [|a l]; simpl; auto.
Qed.

Lemma nth_In_length (l : list string) n :
  (S n <=? List.length l)%nat = true -> In (nth n l "") l.
Proof. intros H. apply Nat.leb_le in H. apply nth_In. lia. Qed.

Lemma detectInPackage_name filePath parts pkg r :
  detectInPackage filePath parts pkg = Some r ->
  candidateOk r = true /\ In r parts.
Proof.
  unfold detectInPackage.
  destruct (negb (Js.startsWith filePath (dir pkg ++ "/"))); [discriminate|].
  set (inner := skipn _ parts).
  assert (Hinner : forall x, In x inner -> In x parts)
    by (intros x; apply skipn_In).
  destruct ((2 <=? List.length inner)%nat) eqn:E2; cbn [andb].
  - destruct (Js.has FEATURE_CONTAINERS (nth 0 inner "")) eqn:Ec.
    + destruct (candidateOk (nth 1 inner "")) eqn:Eok.
      * intros [= <-]. split; [exact Eok|]. now apply Hinner, nth_In_length.
      * destruct ((3 <=? List.length inner)%nat) eqn:E3; cbn [andb];
          [|discriminate].
        destruct (Js.has FEATURE_CONTAINERS (nth 1 inner "")
                  || String.eqb (nth 1 inner "") "patterns"); [|discriminate].
        destruct (candidateOk (nth 2 inner "")) eqn:Eok2; [|discriminate].
        intros [= <-]. split; [exact Eok2|]. now apply Hinner, nth_In_length.
    + destruct ((3 <=? List.length inner)%nat); discriminate.
  - destruct ((3 <=? List.length inner)%nat) eqn:E3; [|discriminate].
    apply Nat.leb_le in E3. apply Nat.leb_gt in E2. lia.
Qed.

(** X11: a folder feature name is a segment of the file's path that
    passes [candidateOk]: it is not one of the shared directory names
    (compared in lower case) and does not start with a dot. *)
Theorem detectFeatureFromPath_name filePath config r :
  detectFeatureFromPath filePath config = Some r ->
  In r (Js.split "/" filePath)
  /\ Js.has SHARED_DIRS (Js.toLowerCase r) = false
  /\ Js.startsWith r "." = false.
Proof.
  intros H.
  assert (Hok : candidateOk r = true /\ In r (Js.split "/" filePath)).
  { revert H. unfold detectFeatureFromPath.
    set (parts := Js.split "/" filePath).
    generalize (match config with Some c => packages c | None => [] end).
    intros pkgs.
    destruct (detectInPackages filePath parts pkgs) as [c|] eqn:E.
    - intros [= <-]. clear -E. induction pkgs as [|pkg pkgs IH]; [discriminate|].
      simpl in E. destruct (detectInPackage filePath parts pkg) eqn:Ep.
      + injection E as <-. eapply detectInPackage_name; eauto.
      + now apply IH.
    - destruct ((2 <=? List.length parts)%nat) eqn:E2; [|discriminate].
      cbn [andb].
      destruct (Js.has FEATURE_CONTAINERS (nth 0 parts "")); [|discriminate].
      destruct (candidateOk (nth 1 parts "")) eqn:Eok; [|discriminate].
      intros [= <-]. split; [exact Eok | now apply nth_In_length]. }
  destruct Hok as [Hok Hin]. split; [exact Hin|].
  unfold candidateOk in Hok. apply andb_true_iff in Hok as [H1 H2].
  split; [now apply negb_true_iff in H1 | now apply negb_true_iff in H2].
Qed.

End GrouperInvariants.

(* ================================================================== *)
(** * Quality analyzer: the sub-scores                                 *)
(* ================================================================== *)

Section QualityScores.

Import Quality.

(** A finite positive number divided by itself is exactly 1. *)
Lemma SFdiv_self m e :
  SFdiv Num.prec Num.emax (S754_finite false m e) (S754_finite false m e) = one.
Proof.
  unfold SFdiv, SFdiv_core_binary. cbn [xorb].
  rewrite !Z.sub_diag.
  change (Z.min (SpecFloat.fexp Num.prec Num.emax 0) 0) with (-53)%Z.
  change (0 - -53)%Z with 53%Z. cbv iota.
  assert (E : Z.div_eucl (Z.shiftl (Zpos m) 53) (Zpos m) = (2 ^ 53, 0)%Z).
  { assert (H : forall a b, Z.div_eucl a b = (a / b, a mod b)%Z).
    { intros a b. unfold Z.div, Z.modulo. now destruct (Z.div_eucl a b). }
    rewrite H, Z.shiftl_mul_pow2 by lia. rewrite Z.mul_comm.
    rewrite Z.div_mul, Z.mod_mul by lia. reflexivity. }
  rewrite E.
  assert (L : new_location (Zpos m) 0 = loc_Exact).
  { unfold new_location, new_location_even, new_location_odd.
    now destruct (Z.even (Zpos m)). }
  rewrite L. reflexivity.
Qed.

Lemma ofNat_positive n :
  (0 < n)%nat -> (Z.of_nat n < 2 ^ 53)%Z ->
  exists m e, Num.ofNat n = S754_finite false m e.
Proof.
  intros Hpos Hlt.
  destruct (@ofZ_exact (Z.of_nat n) ltac:(lia)) as (m & e & H & _).
  now exists m, e.
Qed.

(** X12: the test-coverage sub-score of a feature has two values only:
    10 when the name of at least one measured file contains [.spec.]
    or [.test.], 0 otherwise. *)
Theorem testCoverageScore_all_or_nothing (featureFiles : list string) :
  (Z.of_nat (List.length featureFiles) < 2 ^ 53)%Z ->
  testCoverageScore featureFiles
  = if existsb isSpecOrTest featureFiles then 10%Z else 0%Z.
Proof.
  intros Hlt. unfold testCoverageScore.
  rewrite coveredFiles_all_or_nothing.
  destruct featureFiles as [|f fs]; [reflexivity|].
  change (0 <? List.length (f :: fs))%nat with true. cbv iota.
  destruct (@ofNat_positive (List.length (f :: fs)) ltac:(simpl; lia) Hlt)
    as (m & e & Hn).
  destruct (existsb isSpecOrTest (f :: fs)).
  - rewrite Hn. unfold Num.div. rewrite SFdiv_self. reflexivity.
  - change (Num.ofNat (List.length (@nil string))) with (S754_zero false).
    rewrite Hn. reflexivity.
Qed.

(** X13: each of the three penalty scores is 10 minus the sum of its
    penalties, as the tables of the source give them: the clamp never
    changes the value.  The penalties of the architecture score add up
    to at most 10, those of the code-quality score to at most 8 (so that
    score is never below 2) and those of the bug-risk score to at most
    10; the three lowest values 0, 2 and 0 are reached. *)
Theorem penalty_scores_range (skip : bool) (churns : list (string * GitChurn))
  (featureFiles : list string) (metrics : list FileMetrics) :
  let over := fun (x : Num.number) (n : Z) => Num.ltb (Num.ofZ n) x in
  let three := fun (x : Num.number) (a b c : Z) =>
    (if over x a then 3 else if over x b then 2 else if over x c then 1 else 0)%Z in
  let two := fun (x : Num.number) (a b : Z) =>
    (if over x a then 2 else if over x b then 1 else 0)%Z in
  let twoOf := fun (n a b : nat) =>
    (if (a <? n)%nat then 2 else if (b <? n)%nat then 1 else 0)%Z in
  let mean := fun (field : FileMetrics -> nat) => avg (map field metrics) in
  let most := fun (field : FileMetrics -> nat) => maxOf (map field metrics) in
  let churnMean :=
    if skip then Num.ofZ 0
    else avg (map (fun f => match Js.get churns f with
                            | Some churn => commitCount churn
                            | None => O
                            end) featureFiles) in
  let architecturePenalty :=
    (three (mean fanOut) 15 10 5 + three (mean metricsLoc) 500 300 150
     + twoOf (most metricsLoc) 1000%nat 500%nat
     + twoOf (List.length metrics) 50%nat 30%nat)%Z in
  let codeQualityPenalty :=
    (three (mean cyclomaticComplexity) 30 20 10
     + three (mean cognitiveComplexity) 40 25 15
     + two (mean maxFunctionLength) 100 50)%Z in
  let bugRiskPenalty :=
    (three (mean fanIn) 20 10 5 + twoOf (most fanIn) 30%nat 15%nat
     + three churnMean 50 20 10
     + two (mean cyclomaticComplexity) 25 15)%Z in
  (architectureScore metrics = 10 - architecturePenalty
   /\ 0 <= architecturePenalty <= 10)%Z
  /\ (codeQualityScore metrics = 10 - codeQualityPenalty
      /\ 0 <= codeQualityPenalty <= 8)%Z
  /\ (bugRiskScore skip churns featureFiles metrics = 10 - bugRiskPenalty
      /\ 0 <= bugRiskPenalty <= 10)%Z
  /\ (exists worst, architectureScore worst = 0%Z)
  /\ (exists worst, codeQualityScore worst = 2%Z)
  /\ (exists worstChurns worstFiles worst,
        bugRiskScore false worstChurns worstFiles worst = 0%Z).
Proof.
  cbv zeta.
  unfold architectureScore, codeQualityScore, bugRiskScore, clamp, gt.
  cbv zeta.
  split; [|split; [|split; [|split; [|split]]]].
  - repeat match goal with
           | |- context [if ?b then _ else _] => destruct b
           end; lia.
  - repeat match goal with
           | |- context [if ?b then _ else _] => destruct b
           end; lia.
  - destruct skip; cbn [negb];
      repeat match goal with
             | |- context [if ?b then _ else _] => destruct b
             end; lia.
  - exists (repeat {| metricsFile := "src/big.ts"; metricsLoc := 1001;
                      cyclomaticComplexity := 1; cognitiveComplexity := 1;
                      importCount := 16; exportCount := 0; functionCount := 1;
                      maxFunctionLength := 10; propCount := 0;
                      fanIn := 0; fanOut := 16 |} 51).
    vm_compute. reflexivity.
  - exists [ {| metricsFile := "src/knot.ts"; metricsLoc := 200;
                cyclomaticComplexity := 31; cognitiveComplexity := 41;
                importCount := 0; exportCount := 0; functionCount := 1;
                maxFunctionLength := 101; propCount := 0;
                fanIn := 0; fanOut := 0 |} ].
    vm_compute. reflexivity.
  - exists [("src/hub.ts",
             {| churnFile := "src/hub.ts"; commitCount := 51; authorCount := 1;
                lastModified := ""; coChangedWith := [] |})],
           ["src/hub.ts"],
           [ {| metricsFile := "src/hub.ts"; metricsLoc := 200;
                cyclomaticComplexity := 26; cognitiveComplexity := 1;
                importCount := 0; exportCount := 0; functionCount := 1;
                maxFunctionLength := 10; propCount := 0;
                fanIn := 31; fanOut := 0 |} ].
    vm_compute. reflexivity.
Qed.

End QualityScores.


(* ================================================================== *)
(** * Impact analyzer: the inputs of the formula                       *)
(* ================================================================== *)

Section ImpactInputs.

Import Impact.

(** ** One record per file *)

Definition emitted (st : InspectorStore) (entry : string * FileNode) : bool :=
  negb (isTestFile (fst entry)) && negb (isAsset (snd entry))
  && negb (impactScore (nodeOf st (fst entry)) <? 15)%Z.

Lemma scoreFile_fold st files : forall nodes,
  fold_left (scoreFile st) files nodes
  = (nodes ++ map (fun entry => nodeOf st (fst entry))
                  (filter (emitted st) files))%list.
Proof.
  induction files as [|[rel fileNode] files IH]; intros nodes.
  - simpl. now rewrite app_nil_r.
  - cbn [fold_left filter]. rewrite IH.
    unfold scoreFile at 1. unfold emitted at 2. cbn [fst snd].
    destruct (isTestFile rel); [reflexivity|].
    destruct (isAsset fileNode); [reflexivity|].
    destruct (impactScore (nodeOf st rel) <? 15)%Z; [reflexivity|].
    cbn [negb andb map fst]. now rewrite <- app_assoc.
Qed.

Lemma insertNode_perm x l : Permutation (insertNode x l) (x :: l).
Proof.
  induction l as [|y l IH]; simpl; [reflexivity|].
  destruct (compareNodes x y <=? 0)%Z; [reflexivity|].
  rewrite IH. apply perm_swap.
Qed.

Lemma sortNodes_perm l : Permutation (sortNodes l) l.
Proof.
  induction l as [|x l IH]; simpl; [reflexivity|].
  rewrite insertNode_perm. now constructor.
Qed.

Lemma NoDup_keys_filter {V : Type} (p : string * V -> bool) (l : list (string * V)) :
  NoDup (map fst l) -> NoDup (map fst (filter p l)).
Proof.
  induction l as [|x l IH]; simpl; [auto|].
  intros H. inversion H as [|? ? Hnot Hnd]; subst.
  destruct (p x); simpl; [|now apply IH].
  constructor; [|now apply IH].
  intros Hin. apply Hnot. apply in_map_iff in Hin as [y [Hy Hin]].
  apply filter_In in Hin as [Hin _]. rewrite <- Hy. now apply in_map.
Qed.

(** X14: the report has at most one record per file, and the records are
    those of the files that pass the three tests of the loop, each
    computed by [nodeOf]. *)
Theorem impactAnalyzer_one_record_per_file (st : InspectorStore) :
  NoDup (Js.keys (storeFiles st)) ->
  NoDup (map file (impactAnalyzer st []))
  /\ Permutation (impactAnalyzer st [])
       (map (fun entry => nodeOf st (fst entry))
            (filter (emitted st) (storeFiles st))).
Proof.
  intros Hnd. unfold impactAnalyzer. rewrite scoreFile_fold. simpl.
  split; [|apply sortNodes_perm].
  eapply Permutation_NoDup.
  - apply Permutation_map. symmetry. apply sortNodes_perm.
  - rewrite map_map. cbn [file nodeOf]. now apply NoDup_keys_filter.
Qed.

(** ** The feature count *)

(** The pairs (feature id, member) in the order of the two loops. *)
Definition memberships (fs : list Grouper.Feature) : list ImportEdge :=
  flat_map (fun F => map (plainEdge (Grouper.id F)) (Grouper.files F)) fs.

Lemma fileToFeatures_as_fanInMap fs :
  fileToFeatures fs = fanInMap (memberships fs).
Proof.
  unfold fileToFeatures, fanInMap. generalize (@nil (string * list string)).
  induction fs as [|F fs IH]; intros m; [reflexivity|].
  simpl. rewrite fold_left_app, <- IH. f_equal.
  generalize m. clear. induction (Grouper.files F) as [|f l IHl]; intros m;
    [reflexivity|].
  simpl. apply IHl.
Qed.

Lemma nodup_length_same (l1 l2 : list string) :
  (forall x, In x l1 <-> In x l2) ->
  List.length (nodup string_dec l1) = List.length (nodup string_dec l2).
Proof.
  intros H. apply Permutation_length.
  apply NoDup_Permutation; try apply NoDup_nodup.
  intros x. rewrite !nodup_In. apply H.
Qed.

Lemma featureCountOf_value (st : InspectorStore) (rel : string) :
  featureCountOf st rel
  = List.length
      (nodup string_dec
         (map Grouper.id
              (filter (fun F => Js.has (Grouper.files F) rel) (features st)))).
Proof.
  unfold featureCountOf. rewrite fileToFeatures_as_fanInMap.
  change (sizeAt (fanInMap (memberships (features st))) rel)
    with (fanInOf (storeOfGraph (memberships (features st))) rel).
  rewrite impact_fanIn_counts_importers. cbn [importGraph storeOfGraph].
  apply nodup_length_same. intros x. rewrite !in_map_iff. split.
  - intros (e & <- & He). apply filter_In in He as [He Ht].
    unfold memberships in He. apply in_flat_map in He as (F & HF & He).
    apply in_map_iff in He as (f & <- & Hf).
    unfold targets in Ht. cbn [target plainEdge] in Ht.
    apply String.eqb_eq in Ht. subst f.
    exists F. split; [reflexivity|]. apply filter_In. split; [exact HF|].
    now apply has_true.
  - intros (F & <- & HF). apply filter_In in HF as [HF Hhas].
    apply has_true in Hhas.
    exists (plainEdge (Grouper.id F) rel). split; [reflexivity|].
    apply filter_In. split.
    + unfold memberships. apply in_flat_map. exists F. split; [exact HF|].
      now apply in_map.
    + unfold targets. cbn [target plainEdge]. apply String.eqb_refl.
Qed.

(** X15: the feature count of a file is the number of distinct ids among
    the clusters that list it. *)
Theorem featureCount_counts_cluster_ids (st : InspectorStore) (rel : string) :
  featureCountOf st rel
  = List.length
      (nodup string_dec
         (map Grouper.id
              (filter (fun F => Js.has (Grouper.files F) rel) (features st)))).
Proof. apply featureCountOf_value. Qed.

Lemma filter_unique {A} (p : A -> bool) (l : list A) (a : A) :
  NoDup l -> In a l -> p a = true ->
  (forall x, In x l -> p x = true -> x = a) ->
  filter p l = [a].
Proof.
  induction l as [|x l IH]; intros Hnd Hin Hp Hu; [contradiction|].
  inversion Hnd as [|? ? Hnot Hnd']; subst. simpl.
  assert (Hrest : forall y, In y l -> p y = true -> y = a)
    by (intros y Hy; apply Hu; now right).
  destruct Hin as [->|Hin].
  - rewrite Hp. f_equal.
    assert (H : forall y, In y l -> p y = false).
    { intros y Hy. destruct (p y) eqn:E; [|reflexivity].
      exfalso. apply Hnot. now rewrite <- (Hrest y Hy E). }
    clear -H. induction l as [|y l IHl]; [reflexivity|].
    simpl. rewrite (H y) by now left. apply IHl. intros z Hz. apply H. now right.
  - destruct (p x) eqn:E.
    + exfalso. apply Hnot. rewrite (Hu x (or_introl eq_refl) E). exact Hin.
    + now apply IH.
Qed.

(** X16: on the clusters of a project without a route directory the
    feature count of every indexed file is 1 (so the multi-feature term
    of the impact formula is the same for every file). *)
Theorem featureCount_one_without_routes (st : InspectorStore)
  cfg fileKeys graph skip churns rel :
  features st = Grouper.featureGrouper cfg fileKeys graph skip churns ->
  Grouper.pagesDirsOf cfg = [] -> NoDup fileKeys -> In rel fileKeys ->
  featureCountOf st rel = 1%nat.
Proof.
  intros Hf Hno Hnd Hin. rewrite featureCountOf_value, Hf.
  destruct (@featureGrouper_partition_aux cfg fileKeys graph skip churns rel
              Hno Hnd Hin) as (F & HF & HinF & _ & Huniq).
  rewrite (@filter_unique _ (fun F => Js.has (Grouper.files F) rel) _ F).
  - reflexivity.
  - eapply NoDup_map_inv.
    apply (featureGrouper_ids_aux cfg fileKeys graph skip churns).
  - exact HF.
  - now apply has_true.
  - intros G HG Hhas. apply Huniq; [exact HG | now apply has_true].
Qed.

(** ** The has-tests flag *)

Lemma fold_add_In {A} (p : A -> bool) (g : A -> string) (l : list A) :
  forall acc x,
    In x (fold_left (fun acc a => if p a then Js.add acc (g a) else acc) l acc)
    <-> In x acc \/ exists a, In a l /\ p a = true /\ g a = x.
Proof.
  induction l as [|a l IH]; intros acc x; simpl.
  - split; [auto | intros [H|(a & [] & _)]; exact H].
  - rewrite IH. destruct (p a) eqn:E.
    + rewrite In_add. split.
      * intros [[H| ->]|(b & Hb & Hp & Hg)].
        -- now left.
        -- right. exists a. repeat split; [now left | exact E].
        -- right. exists b. repeat split; [now right | exact Hp | exact Hg].
      * intros [H|(b & [<-|Hb] & Hp & Hg)].
        -- left. now left.
        -- left. right. now symmetry.
        -- right. exists b. auto.
    + split.
      * intros [H|(b & Hb & Hp & Hg)]; [now left|].
        right. exists b. repeat split; [now right | exact Hp | exact Hg].
      * intros [H|(b & [<-|Hb] & Hp & Hg)];
          [now left | congruence | right; exists b; auto].
Qed.

(** The source file a test file stands for. *)
Definition testedBy (testFile : string) : string :=
  Js.replace (Js.replace testFile ".spec." ".") ".test." ".".

(** X17: a file is flagged as tested exactly when it is indexed and is
    the name of an indexed test file with its first [.spec.] and then
    its first [.test.] replaced by a dot. *)
Theorem hasTests_iff (st : InspectorStore) (rel : string) :
  hasTestsOf st rel = true
  <-> In rel (Js.keys (storeFiles st))
      /\ exists testFile, In testFile (Js.keys (storeFiles st))
                          /\ isTestFile testFile = true
                          /\ testedBy testFile = rel.
Proof.
  unfold hasTestsOf. rewrite has_true. unfold filesWithTests, testFiles.
  set (fileKeys := Js.keys (storeFiles st)).
  rewrite (fold_add_In (fun t => Js.has fileKeys (testedBy t)) testedBy).
  split.
  - intros [[]|(t0 & Ht & Hhas & <-)].
    apply (fold_add_In isTestFile (fun r => r)) in Ht
      as [[]|(a & Ha & Hp & ->)].
    split; [now apply has_true|]. now exists t0.
  - intros (Hin & t0 & Ht & Hp & <-). right. exists t0.
    split; [|split; [now apply has_true | reflexivity]].
    apply (fold_add_In isTestFile (fun r => r)). right. now exists t0.
Qed.

End ImpactInputs.

(* ================================================================== *)
(** * Impact analyzer: how close the doubles are to the exact sum      *)
(* ================================================================== *)

(** The bounds of [NumFacts] are in whole numbers.  Here a number is
    held between two bounds counted in units of [2^-k], which is fine
    enough to tell which integer a sum rounds to. *)

Section NumAccuracy.

Local Open Scope Z_scope.

Variable k : Z.
Hypothesis Hk : 0 <= k <= 1000.

Lemma fexp_scaled d : d <= 53 - k -> SpecFloat.fexp Num.prec Num.emax d <= - k.
Proof. unfold SpecFloat.fexp, emin, Num.prec, Num.emax. lia. Qed.

Lemma round_aux_between sx mx ex lx L U :
  0 <= L -> U < 2 ^ 53 -> ex <= - k -> 0 <= mx ->
  L * 2 ^ (- ex - k) <= mx ->
  mx + slack lx <= U * 2 ^ (- ex - k) ->
  match binary_round_aux Num.prec Num.emax sx mx ex lx with
  | S754_zero s => s = sx /\ L = 0
  | S754_finite s m e =>
      s = sx /\ e <= - k /\ Zpos m < 2 ^ 53
      /\ L * 2 ^ (- e - k) <= Zpos m <= U * 2 ^ (- e - k)
  | _ => False
  end.
Proof.
  intros HL HU Hex Hmx Hlo Hhi.
  destruct (@round_aux_shape sx mx ex lx Hmx)
    as (e1 & m1 & e2 & m2 & He1 & Hm1lo & Hm1hi & He2 & Hm2 & ->).
  assert (Hsl : 0 <= slack lx) by (destruct lx; simpl; lia).
  assert (P0 : 0 < 2 ^ (- ex - k)) by (apply pow2_pos; lia).
  assert (Hd : Zdigits2 mx + ex <= 53 - k).
  { assert (mx < 2 ^ (53 - ex - k)).
    { replace (53 - ex - k) with (53 + (- ex - k)) by lia.
      rewrite pow2_split by lia. nia. }
    pose proof (@Zdigits2_bound mx (53 - ex - k)). lia. }
  assert (He1le : e1 <= - k).
  { pose proof (@fexp_scaled _ Hd). lia. }
  assert (He1ge : ex <= e1) by lia.
  assert (P1 : 0 < 2 ^ (- e1 - k)) by (apply pow2_pos; lia).
  assert (Q1 : 0 < 2 ^ (e1 - ex)) by (apply pow2_pos; lia).
  assert (S1 : 2 ^ (- ex - k) = 2 ^ (- e1 - k) * 2 ^ (e1 - ex)).
  { rewrite <- pow2_split by lia. f_equal. lia. }
  assert (Hm1U : m1 <= U * 2 ^ (- e1 - k)).
  { apply Hm1hi. rewrite <- Z.mul_assoc, <- S1. exact Hhi. }
  assert (Hm1L : L * 2 ^ (- e1 - k) <= m1).
  { etransitivity; [|exact Hm1lo].
    apply Z.div_le_lower_bound; [exact Q1|].
    rewrite S1 in Hlo. lia. }
  assert (Hm1nn : 0 <= m1) by nia.
  assert (Hd1 : Zdigits2 m1 + e1 <= 53 - k).
  { assert (m1 < 2 ^ (53 - e1 - k)).
    { replace (53 - e1 - k) with (53 + (- e1 - k)) by lia.
      rewrite pow2_split by lia. nia. }
    pose proof (@Zdigits2_bound m1 (53 - e1 - k)). lia. }
  assert (He2le : e2 <= - k).
  { pose proof (@fexp_scaled _ Hd1). lia. }
  assert (He2ge : e1 <= e2) by lia.
  assert (P2 : 0 < 2 ^ (- e2 - k)) by (apply pow2_pos; lia).
  assert (Q2 : 0 < 2 ^ (e2 - e1)) by (apply pow2_pos; lia).
  assert (S2 : 2 ^ (- e1 - k) = 2 ^ (- e2 - k) * 2 ^ (e2 - e1)).
  { rewrite <- pow2_split by lia. f_equal. lia. }
  assert (Hm2U : m2 <= U * 2 ^ (- e2 - k)).
  { subst m2. apply Z.lt_succ_r, Z.div_lt_upper_bound; [exact Q2|].
    rewrite S2 in Hm1U. nia. }
  assert (Hm2L : L * 2 ^ (- e2 - k) <= m2).
  { subst m2. apply Z.div_le_lower_bound; [exact Q2|].
    rewrite S2 in Hm1L. lia. }
  assert (Hm2small : m2 < 2 ^ 53).
  { subst m2. apply Z.div_lt_upper_bound; [exact Q2|].
    pose proof (@Zdigits2_upper m1 Hm1nn) as Hup.
    pose proof (fexp_ge (Zdigits2 m1 + e1)) as Hf.
    pose proof (Zdigits2_nonneg m1) as Hdn.
    assert (2 ^ Zdigits2 m1 <= 2 ^ (e2 - e1 + 53)).
    { apply Z.pow_le_mono_r; lia. }
    rewrite pow2_split in H by lia. lia. }
  destruct m2 as [|p|p].
  - split; [reflexivity|]. nia.
  - replace (e2 <=? Num.emax - Num.prec) with true
      by (symmetry; apply Z.leb_le; unfold Num.emax, Num.prec; lia).
    repeat split; try assumption.
  - nia.
Qed.

Lemma binary_round_between sx mx ex L U :
  0 <= L -> U < 2 ^ 53 -> ex <= - k ->
  L * 2 ^ (- ex - k) <= Zpos mx <= U * 2 ^ (- ex - k) ->
  match binary_round Num.prec Num.emax sx mx ex with
  | S754_zero s => s = sx /\ L = 0
  | S754_finite s m e =>
      s = sx /\ e <= - k /\ Zpos m < 2 ^ 53
      /\ L * 2 ^ (- e - k) <= Zpos m <= U * 2 ^ (- e - k)
  | _ => False
  end.
Proof.
  intros HL HU Hex [Hlo Hhi]. unfold binary_round.
  pose proof (shl_align_spec mx ex
                (SpecFloat.fexp Num.prec Num.emax (Zpos (digits2_pos mx) + ex)))
    as (Hle & _ & _ & Hval).
  destruct (shl_align mx ex
              (SpecFloat.fexp Num.prec Num.emax (Zpos (digits2_pos mx) + ex)))
    as [mz ez].
  cbn [fst snd] in Hle, Hval.
  assert (S : 2 ^ (- ez - k) = 2 ^ (- ex - k) * 2 ^ (ex - ez)).
  { rewrite <- pow2_split by lia. f_equal. lia. }
  assert (0 < 2 ^ (ex - ez)) by (apply pow2_pos; lia).
  apply round_aux_between; try assumption; try lia.
  - rewrite Hval, S. nia.
  - simpl slack. rewrite Hval, S. nia.
Qed.

(* a zero, when L is 0, or a finite positive number between L and U
   units of 2^-k, held at an exponent of at most -k *)
Definition between (L U : Z) (x : spec_float) : Prop :=
  match x with
  | S754_zero _ => L = 0 /\ 0 <= U
  | S754_finite false m e =>
      e <= - k /\ L * 2 ^ (- e - k) <= Zpos m <= U * 2 ^ (- e - k)
  | _ => False
  end.

Lemma SFadd_between L1 U1 L2 U2 x y :
  0 <= L1 -> 0 <= L2 -> U1 + U2 < 2 ^ 53 ->
  between L1 U1 x -> between L2 U2 y ->
  between (L1 + L2) (U1 + U2) (SFadd Num.prec Num.emax x y).
Proof.
  intros HL1 HL2 HU Hx Hy.
  destruct x as [sx|sx| |[|] mx ex]; simpl in Hx; try contradiction;
  destruct y as [sy|sy| |[|] my ey]; simpl in Hy; try contradiction.
  - simpl. destruct sx, sy; simpl; lia.
  - simpl. destruct Hx as [-> HU1], Hy as [He [Hlo Hhi]].
    split; [assumption|].
    assert (0 < 2 ^ (- ey - k)) by (apply pow2_pos; lia). nia.
  - simpl. destruct Hy as [-> HU2], Hx as [He [Hlo Hhi]].
    split; [assumption|].
    assert (0 < 2 ^ (- ex - k)) by (apply pow2_pos; lia). nia.
  - destruct Hx as [Hex [Hlx Hmx]], Hy as [Hey [Hly Hmy]].
    unfold SFadd. cbn [cond_Zopp].
    set (ez := Z.min ex ey).
    pose proof (shl_align_spec mx ex ez) as (_ & _ & Ex & Vx).
    pose proof (shl_align_spec my ey ez) as (_ & _ & Ey & Vy).
    specialize (Ex ltac:(lia)). specialize (Ey ltac:(lia)).
    rewrite Ex in Vx. rewrite Ey in Vy.
    destruct (shl_align mx ex ez) as [mx' ex'].
    destruct (shl_align my ey ez) as [my' ey'].
    cbn [fst snd] in *.
    change (Zpos mx' + Zpos my') with (Zpos (mx' + my')).
    unfold binary_normalize.
    assert (Sx : 2 ^ (- ez - k) = 2 ^ (- ex - k) * 2 ^ (ex - ez)).
    { rewrite <- pow2_split by lia. f_equal. lia. }
    assert (Sy : 2 ^ (- ez - k) = 2 ^ (- ey - k) * 2 ^ (ey - ez)).
    { rewrite <- pow2_split by lia. f_equal. lia. }
    assert (0 < 2 ^ (ex - ez)) by (apply pow2_pos; lia).
    assert (0 < 2 ^ (ey - ez)) by (apply pow2_pos; lia).
    assert (0 < 2 ^ (- ex - k)) by (apply pow2_pos; lia).
    assert (0 < 2 ^ (- ey - k)) by (apply pow2_pos; lia).
    assert (Hsum : (L1 + L2) * 2 ^ (- ez - k) <= Zpos (mx' + my')
                   <= (U1 + U2) * 2 ^ (- ez - k)).
    { rewrite Pos2Z.inj_add, Vx, Vy, !Z.mul_add_distr_r.
      rewrite Sx at 1 3. rewrite Sy. nia. }
    pose proof (@binary_round_between false (mx' + my') ez (L1 + L2) (U1 + U2)) as Hb.
    specialize (Hb ltac:(lia) HU ltac:(lia) Hsum).
    destruct (binary_round Num.prec Num.emax false (mx' + my') ez) as [s|s| |s m e];
      try contradiction.
    + simpl. destruct Hb as [_ Hb]. split; [lia | nia].
    + destruct Hb as (-> & He & _ & Hm). simpl. auto.
Qed.

Lemma round_of_between L U x :
  1 <= k -> 0 <= L -> between L U x ->
  (2 * L + 2 ^ k) / (2 * 2 ^ k) <= Num.round x <= (2 * U + 2 ^ k) / (2 * 2 ^ k).
Proof.
  intros Hk1 HL. 
  assert (PK : 0 < 2 ^ k) by (apply pow2_pos; lia).
  destruct x as [s|s| |[|] m e]; cbn [between Num.round];
    try tauto.
  - intros [-> HU]. split.
    + rewrite Z.mul_0_r, Z.add_0_l. rewrite Z.div_small; lia.
    + apply Z.div_pos; lia.
  - intros [He [Hlo Hhi]].
    replace (0 <=? e) with false by (symmetry; apply Z.leb_gt; lia).
    set (P := 2 ^ (- e - k)) in *.
    assert (PP : 0 < P) by (apply pow2_pos; lia).
    assert (S0 : 2 ^ (- e) = P * 2 ^ k).
    { unfold P. rewrite <- pow2_split by lia. f_equal. lia. }
    assert (S1 : 2 ^ (1 - e) = P * (2 * 2 ^ k)).
    { replace (1 - e) with (1 + - e) by lia. rewrite pow2_split by lia.
      rewrite S0. change (2 ^ 1) with 2. ring. }
    rewrite S0, S1. split.
    + replace ((2 * L + 2 ^ k) / (2 * 2 ^ k))
        with ((P * (2 * L + 2 ^ k)) / (P * (2 * 2 ^ k)))
        by (apply Z.div_mul_cancel_l; lia).
      apply Z.div_le_mono; nia.
    + replace ((2 * U + 2 ^ k) / (2 * 2 ^ k))
        with ((P * (2 * U + 2 ^ k)) / (P * (2 * 2 ^ k)))
        by (apply Z.div_mul_cancel_l; lia).
      apply Z.div_le_mono; nia.
Qed.

End NumAccuracy.

Section ScoreAccuracy.

Import Impact.

Local Open Scope Z_scope.

Definition betweenb (k L U : Z) (x : spec_float) : bool :=
  match x with
  | S754_zero _ => (L =? 0) && (0 <=? U)
  | S754_finite false m e =>
      (e <=? - k) && (L * 2 ^ (- e - k) <=? Zpos m) && (Zpos m <=? U * 2 ^ (- e - k))
  | _ => false
  end.

Lemma betweenb_sound k L U x : betweenb k L U x = true -> between k L U x.
Proof.
  destruct x as [s|s| |[|] m e]; simpl; try discriminate.
  - intros H. apply andb_prop in H as [H1 H2].
    apply Z.eqb_eq in H1. apply Z.leb_le in H2. now split.
  - intros H. apply andb_prop in H as [H H3]. apply andb_prop in H as [H1 H2].
    apply Z.leb_le in H1. apply Z.leb_le in H2. apply Z.leb_le in H3. auto.
Qed.

(* the exact value of a term, in units of 2^-40, rounded down *)
Definition termUnits (weight full : Z) (n : nat) : Z :=
  weight * Z.min (Z.of_nat n) full * 2 ^ 40 / full.

Definition termNear (weight full : Z) (n : nat) (x : spec_float) : Prop :=
  between 40 (Z.max 0 (termUnits weight full n - 1)) (termUnits weight full n + 2) x.

Lemma fanInScore_near (n : nat) : termNear 35 30 n (fanInScore n).
Proof.
  unfold termNear.
  destruct (le_lt_dec 30 n) as [Hge|Hlt].
  - unfold fanInScore, termUnits.
    rewrite (@cap_full n 30 8444249301319680 (-48));
      try reflexivity; try lia.
    replace (Z.min (Z.of_nat n) 30) with 30 by lia.
    apply betweenb_sound. vm_compute. reflexivity.
  - assert (H : forallb (fun i => betweenb 40 (Z.max 0 (termUnits 35 30 i - 1))
                                     (termUnits 35 30 i + 2) (fanInScore i))
                        (seq 0 30) = true)
      by (vm_compute; reflexivity).
    apply betweenb_sound. rewrite forallb_forall in H. apply H.
    apply in_seq. lia.
Qed.

Lemma featureScore_near (n : nat) : termNear 25 5 n (featureScore n).
Proof.
  unfold termNear.
  destruct (le_lt_dec 5 n) as [Hge|Hlt].
  - unfold featureScore, termUnits.
    rewrite (@cap_full n 5 5629499534213120 (-50));
      try reflexivity; try lia.
    replace (Z.min (Z.of_nat n) 5) with 5 by lia.
    apply betweenb_sound. vm_compute. reflexivity.
  - assert (H : forallb (fun i => betweenb 40 (Z.max 0 (termUnits 25 5 i - 1))
                                     (termUnits 25 5 i + 2) (featureScore i))
                        (seq 0 5) = true)
      by (vm_compute; reflexivity).
    apply betweenb_sound. rewrite forallb_forall in H. apply H.
    apply in_seq. lia.
Qed.

Lemma churnScore_near (n : nat) : termNear 20 100 n (churnScore n).
Proof.
  unfold termNear.
  destruct (le_lt_dec 100 n) as [Hge|Hlt].
  - unfold churnScore, termUnits.
    rewrite (@cap_full n 100 7036874417766400 (-46));
      try reflexivity; try lia.
    replace (Z.min (Z.of_nat n) 100) with 100 by lia.
    apply betweenb_sound. vm_compute. reflexivity.
  - assert (H : forallb (fun i => betweenb 40 (Z.max 0 (termUnits 20 100 i - 1))
                                     (termUnits 20 100 i + 2) (churnScore i))
                        (seq 0 100) = true)
      by (vm_compute; reflexivity).
    apply betweenb_sound. rewrite forallb_forall in H. apply H.
    apply in_seq. lia.
Qed.

Lemma complexityScore_near (n : nat) : termNear 10 50 n (complexityScore n).
Proof.
  unfold termNear.
  destruct (le_lt_dec 50 n) as [Hge|Hlt].
  - unfold complexityScore, termUnits.
    rewrite (@cap_full n 50 7036874417766400 (-47));
      try reflexivity; try lia.
    replace (Z.min (Z.of_nat n) 50) with 50 by lia.
    apply betweenb_sound. vm_compute. reflexivity.
  - assert (H : forallb (fun i => betweenb 40 (Z.max 0 (termUnits 10 50 i - 1))
                                     (termUnits 10 50 i + 2) (complexityScore i))
                        (seq 0 50) = true)
      by (vm_compute; reflexivity).
    apply betweenb_sound. rewrite forallb_forall in H. apply H.
    apply in_seq. lia.
Qed.

Lemma testScore_near (b : bool) :
  between 40 ((if b then 0 else 10) * 2 ^ 40) ((if b then 0 else 10) * 2 ^ 40)
          (testScore b).
Proof. destruct b; apply betweenb_sound; vm_compute; reflexivity. Qed.

Lemma scoreOf_nearest (fanIn featureCount gitChurn : nat) (hasTests : bool)
  (complexity : nat) :
  let exact30 :=
    35 * Z.min (Z.of_nat fanIn) 30 + 150 * Z.min (Z.of_nat featureCount) 5
    + 6 * Z.min (Z.of_nat gitChurn) 100 + (if hasTests then 0 else 300)
    + 6 * Z.min (Z.of_nat complexity) 50 in
  let score := scoreOf fanIn featureCount gitChurn hasTests complexity in
  30 * score - 15 <= exact30 <= 30 * score + 15
  /\ (exact30 mod 30 <> 15 -> score = (exact30 + 15) / 30).
Proof.
  cbv zeta.
  pose proof (fanInScore_near fanIn) as H1.
  pose proof (featureScore_near featureCount) as H2.
  pose proof (churnScore_near gitChurn) as H3.
  pose proof (testScore_near hasTests) as H4.
  pose proof (complexityScore_near complexity) as H5.
  unfold termNear in *.
  set (u1 := termUnits 35 30 fanIn) in *.
  set (u2 := termUnits 25 5 featureCount) in *.
  set (u3 := termUnits 20 100 gitChurn) in *.
  set (u5 := termUnits 10 50 complexity) in *.
  set (t := if hasTests then 0 else 10) in *.
  assert (Ht : (if hasTests then 0 else 300) = 30 * t /\ 0 <= t <= 10)
    by (unfold t; destruct hasTests; lia).
  destruct Ht as [Ht Ht'].  rewrite Ht. clearbody t.
  assert (E1 : 30 * u1 <= 35 * Z.min (Z.of_nat fanIn) 30 * 2 ^ 40 < 30 * u1 + 30).
  { unfold u1, termUnits. 
    pose proof (Z.div_mod (35 * Z.min (Z.of_nat fanIn) 30 * 2 ^ 40) 30 ltac:(lia)).
    pose proof (Z.mod_pos_bound (35 * Z.min (Z.of_nat fanIn) 30 * 2 ^ 40) 30 ltac:(lia)).
    lia. }
  assert (E2 : 5 * u2 <= 25 * Z.min (Z.of_nat featureCount) 5 * 2 ^ 40 < 5 * u2 + 5).
  { unfold u2, termUnits. 
    pose proof (Z.div_mod (25 * Z.min (Z.of_nat featureCount) 5 * 2 ^ 40) 5 ltac:(lia)).
    pose proof (Z.mod_pos_bound (25 * Z.min (Z.of_nat featureCount) 5 * 2 ^ 40) 5 ltac:(lia)).
    lia. }
  assert (E3 : 100 * u3 <= 20 * Z.min (Z.of_nat gitChurn) 100 * 2 ^ 40 < 100 * u3 + 100).
  { unfold u3, termUnits. 
    pose proof (Z.div_mod (20 * Z.min (Z.of_nat gitChurn) 100 * 2 ^ 40) 100 ltac:(lia)).
    pose proof (Z.mod_pos_bound (20 * Z.min (Z.of_nat gitChurn) 100 * 2 ^ 40) 100 ltac:(lia)).
    lia. }
  assert (E5 : 50 * u5 <= 10 * Z.min (Z.of_nat complexity) 50 * 2 ^ 40 < 50 * u5 + 50).
  { unfold u5, termUnits. 
    pose proof (Z.div_mod (10 * Z.min (Z.of_nat complexity) 50 * 2 ^ 40) 50 ltac:(lia)).
    pose proof (Z.mod_pos_bound (10 * Z.min (Z.of_nat complexity) 50 * 2 ^ 40) 50 ltac:(lia)).
    lia. }
  clearbody u1 u2 u3 u5.
  assert (Hsum : between 40
            (Z.max 0 (u1 - 1) + Z.max 0 (u2 - 1) + Z.max 0 (u3 - 1) + t * 2 ^ 40
             + Z.max 0 (u5 - 1))
            (u1 + 2 + (u2 + 2) + (u3 + 2) + t * 2 ^ 40 + (u5 + 2))
            (scoreSum fanIn featureCount gitChurn hasTests complexity)).
  { assert (P : 2 ^ 40 = 1099511627776) by reflexivity.
    assert (P53 : 2 ^ 53 = 9007199254740992) by reflexivity.
    unfold scoreSum, Num.add.
    apply SFadd_between; try lia; [|exact H5].
    apply SFadd_between; try lia; [|exact H4].
    apply SFadd_between; try lia; [|exact H3].
    apply SFadd_between; try lia; [exact H1 | exact H2]. }
  apply round_of_between in Hsum; [|lia|lia|lia].
  fold (scoreOf fanIn featureCount gitChurn hasTests complexity) in Hsum.
  set (score := scoreOf fanIn featureCount gitChurn hasTests complexity) in *.
  clearbody score. clear H1 H2 H3 H4 H5.
  assert (P : 2 ^ 40 = 1099511627776) by reflexivity.
  rewrite P in *. clear P.
  set (m1 := Z.min (Z.of_nat fanIn) 30) in *.
  set (m2 := Z.min (Z.of_nat featureCount) 5) in *.
  set (m3 := Z.min (Z.of_nat gitChurn) 100) in *.
  set (m5 := Z.min (Z.of_nat complexity) 50) in *.
  assert (0 <= m1 <= 30) by (unfold m1; lia).
  assert (0 <= m2 <= 5) by (unfold m2; lia).
  assert (0 <= m3 <= 100) by (unfold m3; lia).
  assert (0 <= m5 <= 50) by (unfold m5; lia).
  clearbody m1 m2 m3 m5.
  Z.div_mod_to_equations. lia.
Qed.

End ScoreAccuracy.

(* ================================================================== *)
(** * Impact analyzer: the score of a file, from the store             *)
(* ================================================================== *)

Section ImpactScores.

Import Impact.

Local Open Scope Z_scope.

Lemma get_find {V : Type} (m : list (string * V)) (k : string) :
  Js.get m k
  = match find (fun entry : string * V => String.eqb (fst entry) k) m with
    | Some (_, v) => Some v
    | None => None
    end.
Proof.
  induction m as [|[k' v] m IH]; cbn [Js.get find fst]; [reflexivity|].
  destruct (String.eqb k' k); [reflexivity | exact IH].
Qed.

Lemma hasTestsOf_value (st : InspectorStore) (rel : string) :
  hasTestsOf st rel
  = existsb (fun testFile =>
               isTestFile testFile
               && String.eqb
                    (Js.replace (Js.replace testFile ".spec." ".") ".test." ".")
                    rel)
            (Js.keys (storeFiles st))
    && existsb (String.eqb rel) (Js.keys (storeFiles st)).
Proof.
  apply Bool.eq_iff_eq_true.
  unfold hasTestsOf. rewrite has_true. unfold filesWithTests, testFiles.
  set (fileKeys := Js.keys (storeFiles st)).
  rewrite (fold_add_In
             (fun t => Js.has fileKeys
                         (Js.replace (Js.replace t ".spec." ".") ".test." "."))
             (fun t => Js.replace (Js.replace t ".spec." ".") ".test." ".")).
  rewrite andb_true_iff, existsb_exists.
  change (existsb (String.eqb rel) fileKeys) with (Js.has fileKeys rel).
  rewrite has_true. split.
  - intros [[]|(t0 & Ht & Hhas & <-)].
    apply (fold_add_In isTestFile (fun r => r)) in Ht
      as [[]|(a & Ha & Hp & ->)].
    split; [|now apply has_true].
    exists t0. split; [exact Ha|]. now rewrite Hp, String.eqb_refl.
  - intros [(t0 & Ht & Hp) Hin]. apply andb_true_iff in Hp as [Hp He].
    apply String.eqb_eq in He. right. exists t0.
    split; [|split; [rewrite He; now apply has_true | exact He]].
    apply (fold_add_In isTestFile (fun r => r)). right. now exists t0.
Qed.

Lemma isAsset_false (fileNode : FileNode) :
  isAsset fileNode = false
  <-> language fileNode <> json /\ language fileNode <> css.
Proof.
  unfold isAsset. destruct (language fileNode);
    split; try discriminate; try (intros [H1 H2]; congruence);
    intros _; split; discriminate.
Qed.

(** C3.  Run on a fresh store, the analyzer emits records whose five
    inputs are read from the store: the fan-in is the number of distinct
    importers of the file in the import graph, the feature count the
    number of distinct ids of the features that list the file, the churn
    the commit count of the churn entry of the file (0 without an
    entry), the test flag says whether the file is indexed and is the
    name of an indexed test file without its [.spec.] and [.test.], and
    the complexity is the cyclomatic complexity of the metrics entry of
    the file (0 without an entry).  The score of a record is
    [Math.round] of the sum of the five weighted terms, computed in
    double precision as the code does.  Every score lies between 0 and
    100 and is an integer nearest to the exact value of the formula: it
    is the exact value rounded half up, except possibly when the exact
    value lies half-way between two integers, where it is one of the
    two.  A file that is neither a test nor an asset has a record
    exactly when its score is at least 15; the severity of a record
    follows the thresholds 70, 50 and 30; and the list is in descending
    order of score. *)
Theorem impactAnalyzer_scores (st : InspectorStore) :
  let out := impactAnalyzer st [] in
  let indexed := map fst (storeFiles st) in
  let importers := fun rel : string =>
    nodup string_dec
      (map source
           (filter (fun edge => String.eqb (target edge) rel) (importGraph st))) in
  let memberships := fun rel : string =>
    nodup string_dec
      (map Grouper.id
           (filter (fun feature => existsb (String.eqb rel) (Grouper.files feature))
                   (features st))) in
  let commits := fun rel : string =>
    match find (fun entry : string * GitChurn => String.eqb (fst entry) rel)
               (gitChurns st) with
    | Some (_, churn) => commitCount churn
    | None => O
    end in
  let tested := fun rel : string =>
    existsb (fun testFile =>
               isTestFile testFile
               && String.eqb
                    (Js.replace (Js.replace testFile ".spec." ".") ".test." ".")
                    rel)
            indexed
    && existsb (String.eqb rel) indexed in
  let cyclomatic := fun rel : string =>
    match find (fun entry : string * FileMetrics => String.eqb (fst entry) rel)
               (fileMetrics st) with
    | Some (_, metrics) => cyclomaticComplexity metrics
    | None => O
    end in
  let term := fun (count : nat) (full weight : Z) =>
    Num.mul (Num.min (Num.div (Num.ofNat count) (Num.ofZ full)) (Num.ofZ 1))
            (Num.ofZ weight) in
  let score := fun rel : string =>
    Num.round
      (Num.add
         (Num.add
            (Num.add
               (Num.add (term (List.length (importers rel)) 30 35)
                        (term (List.length (memberships rel)) 5 25))
               (term (commits rel) 100 20))
            (if tested rel then Num.ofZ 0 else Num.ofZ 10))
         (term (cyclomatic rel) 50 10)) in
  let exact30 := fun rel : string =>
    35 * Z.min (Z.of_nat (List.length (importers rel))) 30
    + 150 * Z.min (Z.of_nat (List.length (memberships rel))) 5
    + 6 * Z.min (Z.of_nat (commits rel)) 100
    + (if tested rel then 0 else 300)
    + 6 * Z.min (Z.of_nat (cyclomatic rel)) 50 in
  let scored := fun rel : string =>
    exists fileNode,
      In (rel, fileNode) (storeFiles st) /\ isTestFile rel = false
      /\ language fileNode <> json /\ language fileNode <> css in
  (forall node, In node out ->
     scored (file node)
     /\ nodeFanIn node = List.length (importers (file node))
     /\ featureCount node = List.length (memberships (file node))
     /\ gitChurn node = commits (file node)
     /\ hasTests node = tested (file node)
     /\ impactScore node = score (file node)
     /\ 15 <= impactScore node <= 100
     /\ severity node
        = (if 70 <=? impactScore node then critical
           else if 50 <=? impactScore node then high
           else if 30 <=? impactScore node then medium
           else low))
  /\ (forall rel,
        0 <= score rel <= 100
        /\ 30 * score rel - 15 <= exact30 rel <= 30 * score rel + 15
        /\ (exact30 rel mod 30 <> 15 -> score rel = (exact30 rel + 15) / 30))
  /\ (forall rel,
        scored rel ->
        ((exists node, In node out /\ file node = rel) <-> 15 <= score rel))
  /\ StronglySorted (fun a b => impactScore b <= impactScore a) out.
Proof.
  intros out indexed importers memberships commits tested cyclomatic term
         score exact30 scored.
  assert (Hf : forall rel, fanInOf st rel = List.length (importers rel))
    by (intros rel; apply impact_fanIn_counts_importers).
  assert (Hm : forall rel, featureCountOf st rel = List.length (memberships rel))
    by (intros rel; apply featureCountOf_value).
  assert (Hc : forall rel, gitChurnOf st rel = commits rel).
  { intros rel. unfold gitChurnOf, commits. rewrite get_find.
    now destruct (find _ (gitChurns st)) as [[k0 churn]|]. }
  assert (Ht : forall rel, hasTestsOf st rel = tested rel)
    by (intros rel; apply hasTestsOf_value).
  assert (Hx : forall rel, complexityOf st rel = cyclomatic rel).
  { intros rel. unfold complexityOf, cyclomatic. rewrite get_find.
    now destruct (find _ (fileMetrics st)) as [[k0 metrics]|]. }
  assert (Hscore : forall rel,
             score rel
             = scoreOf (List.length (importers rel))
                       (List.length (memberships rel)) (commits rel)
                       (tested rel) (cyclomatic rel))
    by reflexivity.
  assert (Hnode : forall rel, impactScore (nodeOf st rel) = score rel).
  { intros rel. cbn [impactScore nodeOf].
    now rewrite Hf, Hm, Hc, Ht, Hx, Hscore. }
  assert (Hrange : forall rel, 0 <= score rel <= 100)
    by (intros rel; rewrite Hscore; apply scoreOf_range).
  assert (Hout : forall node,
             In node out
             <-> exists rel fileNode,
                   In (rel, fileNode) (storeFiles st)
                   /\ isTestFile rel = false /\ isAsset fileNode = false
                   /\ node = nodeOf st rel /\ 15 <= impactScore node).
  { intros node. unfold out, impactAnalyzer.
    rewrite sortNodes_In, scoreFile_fold_In. split.
    - intros [[]|H]. exact H.
    - intros H. now right. }
  split; [|split; [|split]].
  - intros node Hin. apply Hout in Hin
      as (rel & fileNode & Hfile & Htest & Hasset & -> & Hs).
    cbn [file nodeOf nodeFanIn featureCount gitChurn hasTests severity].
    apply isAsset_false in Hasset as [Hj Hcss].
    split; [exists fileNode; auto|].
    split; [apply Hf|]. split; [apply Hm|]. split; [apply Hc|].
    split; [apply Ht|]. split; [apply Hnode|].
    split; [rewrite Hnode in *; split; [exact Hs | apply Hrange]|].
    reflexivity.
  - intros rel. split; [apply Hrange|]. rewrite Hscore.
    apply (scoreOf_nearest (List.length (importers rel))
                           (List.length (memberships rel)) (commits rel)
                           (tested rel) (cyclomatic rel)).
  - intros rel (fileNode & Hfile & Htest & Hj & Hcss).
    assert (Hasset : isAsset fileNode = false) by now apply isAsset_false.
    rewrite <- Hnode. split.
    + intros (node & Hin & Hrel). apply Hout in Hin
        as (r & f & _ & _ & _ & -> & Hs).
      cbn [file nodeOf] in Hrel. now subst r.
    + intros Hs. exists (nodeOf st rel). split; [|reflexivity].
      apply Hout. exists rel, fileNode. auto.
  - apply sortNodes_sorted.
Qed.

(** At an exact tie the doubles decide.  Three importers, eight commits,
    complexity 47 and a test give 3.5 + 1.6 + 9.4 = 14.5 exactly; the
    doubles add up to just under 14.5 and the score is 14. *)
Lemma scoreOf_tie :
  scoreOf 3 0 8 true 47 = 14
  /\ 35 * 3 + 150 * 0 + 6 * 8 + 0 + 6 * 47 = 30 * 14 + 15.
Proof. split; vm_compute; reflexivity. Qed.

Definition churnedStore : InspectorStore :=
  {| skipGit := false; config := None;
     storeFiles := [sourceFile "src/cart/a.ts"; sourceFile "src/cart/a.test.ts";
                    sourceFile "src/cart/b.ts"];
     importGraph := [plainEdge "src/cart/b.ts" "src/cart/a.ts";
                     plainEdge "src/cart/b.ts" "src/cart/a.ts"];
     features := [ {| Grouper.id := "cart";
                      Grouper.files := ["src/cart/a.ts"; "src/cart/a.test.ts"];
                      Grouper.entryPoints := [];
                      Grouper.confidence := Num.ofZ 1;
                      Grouper.signals := [];
                      Grouper.isCrossCutting := false |} ];
     fileMetrics :=
       [("src/cart/a.ts",
         {| metricsFile := "src/cart/a.ts"; metricsLoc := 40;
            cyclomaticComplexity := 25; cognitiveComplexity := 30;
            importCount := 0; exportCount := 1; functionCount := 3;
            maxFunctionLength := 12; propCount := 0;
            fanIn := 2; fanOut := 0 |})];
     gitChurns :=
       [("src/cart/a.ts",
         {| churnFile := "src/cart/a.ts"; commitCount := 40; authorCount := 2;
            lastModified := "2024-05-01"; coChangedWith := [] |})] |}.

Lemma impactAnalyzer_scores_witness :
  (exists node,
     In node (impactAnalyzer churnedStore [])
     /\ file node = "src/cart/a.ts"
     /\ nodeFanIn node = 1%nat /\ featureCount node = 1%nat
     /\ gitChurn node = 40%nat /\ hasTests node = true
     /\ impactScore node = 19 /\ severity node = low)
  /\ ~ (exists node,
          In node (impactAnalyzer churnedStore [])
          /\ file node = "src/cart/b.ts").
Proof.
  pose proof (impactAnalyzer_scores churnedStore) as H.
  cbv zeta in H.
  destruct H as (Hfields & _ & Hemit & _).
  split.
  - assert (Hs : exists fileNode,
               In ("src/cart/a.ts", fileNode) (storeFiles churnedStore)
               /\ isTestFile "src/cart/a.ts" = false
               /\ language fileNode <> json /\ language fileNode <> css).
    { exists (snd (sourceFile "src/cart/a.ts")). split; [left; reflexivity|].
      split; [reflexivity|]. split; discriminate. }
    apply Hemit in Hs. destruct Hs as [_ Hs].
    destruct Hs as (node & Hin & Hfile); [vm_compute; discriminate|].
    exists node. destruct (Hfields node Hin)
      as (_ & H1 & H2 & H3 & H4 & H5 & _ & H7).
    clear Hfields Hemit.
    rewrite Hfile in H1, H2, H3, H4, H5.
    split; [exact Hin|]. split; [exact Hfile|].
    split; [rewrite H1; vm_compute; reflexivity|].
    split; [rewrite H2; vm_compute; reflexivity|].
    split; [rewrite H3; vm_compute; reflexivity|].
    split; [rewrite H4; vm_compute; reflexivity|].
    split; [rewrite H5; vm_compute; reflexivity|].
    rewrite H7, H5. vm_compute. reflexivity.
  - intros Hb.
    assert (Hs : exists fileNode,
               In ("src/cart/b.ts", fileNode) (storeFiles churnedStore)
               /\ isTestFile "src/cart/b.ts" = false
               /\ language fileNode <> json /\ language fileNode <> css).
    { exists (snd (sourceFile "src/cart/b.ts")).
      split; [right; right; left; reflexivity|].
      split; [reflexivity|]. split; discriminate. }
    apply Hemit in Hs. apply Hs in Hb. vm_compute in Hb. now apply Hb.
Defined.

End ImpactScores.


(* ================================================================== *)
(** * Repo indexer: the import graph and the package of a file         *)
(* ================================================================== *)

Section IndexerGraph.

Import Indexer.

Lemma probe_In files p exts c : probe files p exts = Some c -> In c files.
Proof.
  induction exts as [|ext exts IH]; simpl; [discriminate|].
  destruct (Js.has files (p ++ ext)) eqn:E; [|exact IH].
  intros [= <-]. now apply has_true.
Qed.

Lemma resolveImportPath_In importPath fromFile files aliases r :
  resolveImportPath importPath fromFile files aliases = Some r ->
  In r files
  /\ (Js.startsWith importPath "." = true
      \/ Js.startsWith importPath "/" = true
      \/ exists alias, In alias (Js.keys aliases)
                       /\ Js.startsWith importPath (Js.stripTrailingSlash alias)
                          = true).
Proof.
  unfold resolveImportPath.
  destruct (Js.startsWith importPath ".") eqn:E1;
    destruct (Js.startsWith importPath "/") eqn:E2;
    destruct (existsb _ (Js.keys aliases)) eqn:E3; cbn [orb negb andb];
    try discriminate;
    (intros H; split;
     [ destruct (Js.has files (resolvedPathOf importPath fromFile aliases)) eqn:Eh;
       [ injection H as <-; now apply has_true |];
       destruct (probe files _ extensions) as [c|] eqn:Ep;
       [ injection H as <-; eapply probe_In; eauto |];
       destruct (Js.has files (Js.stripExtension _)) eqn:Es; [|discriminate];
       injection H as <-; now apply has_true
     | ]);
    try (left; reflexivity); try (right; left; reflexivity).
  right. right. apply existsb_exists in E3 as (alias & Hin & Hs). now exists alias.
Qed.

(** X18: an import resolves only to an indexed file, and only when the
    import path starts with a dot, with a slash, or with the prefix of an
    alias. *)
Theorem resolveImportPath_indexed importPath fromFile files aliases r :
  resolveImportPath importPath fromFile files aliases = Some r ->
  In r files
  /\ (Js.startsWith importPath "." = true
      \/ Js.startsWith importPath "/" = true
      \/ exists alias, In alias (Js.keys aliases)
                       /\ Js.startsWith importPath (Js.stripTrailingSlash alias)
                          = true).
Proof. apply resolveImportPath_In. Qed.

Section Graph.

Variable rawImports : string -> FileNode -> list ImportEdge.

(** The edge pushed for a raw edge that resolves to [resolved]. *)
Definition resolvedEdge (raw : ImportEdge) (resolved : string) : ImportEdge :=
  {| source := source raw; target := resolved; specifiers := specifiers raw;
     isDefault := isDefault raw; isDynamic := isDynamic raw |}.

Lemma pushResolved_fold_In fileKeys aliases rel raws : forall graph e,
  In e (fold_left (pushResolved fileKeys aliases rel) raws graph)
  <-> In e graph
      \/ exists raw resolved,
           In raw raws
           /\ resolveImportPath (target raw) rel fileKeys aliases = Some resolved
           /\ resolved <> "" /\ e = resolvedEdge raw resolved.
Proof.
  induction raws as [|raw raws IH]; intros graph e; cbn [fold_left In].
  - split; [auto | intros [H|(r & s & [] & _)]; exact H].
  - rewrite IH. unfold pushResolved.
    destruct (resolveImportPath (target raw) rel fileKeys aliases)
      as [resolved|] eqn:Er.
    + destruct (Js.truthy resolved) eqn:Et.
      * rewrite in_app_iff. split.
        -- intros [[H|[<-|[]]]|(r & s & Hr & Hs & Hne & He)].
           ++ now left.
           ++ right. exists raw, resolved. repeat split; auto.
              intros ->. discriminate.
           ++ right. exists r, s. repeat split; auto.
        -- intros [H|(r & s & [<-|Hr] & Hs & Hne & He)].
           ++ left. now left.
           ++ left. right. left. rewrite Er in Hs. injection Hs as <-.
              now symmetry.
           ++ right. exists r, s. auto.
      * split.
        -- intros [H|(r & s & Hr & Hs & Hne & He)]; [now left|].
           right. exists r, s. repeat split; auto.
        -- intros [H|(r & s & [<-|Hr] & Hs & Hne & He)]; [now left| |].
           ++ rewrite Er in Hs. injection Hs as <-. exfalso.
              destruct resolved; [now apply Hne | discriminate].
           ++ right. exists r, s. auto.
    + split.
      * intros [H|(r & s & Hr & Hs & Hne & He)]; [now left|].
        right. exists r, s. repeat split; auto.
      * intros [H|(r & s & [<-|Hr] & Hs & Hne & He)];
          [now left | congruence | right; exists r, s; auto].
Qed.

Lemma buildImportGraph_In files aliases : forall previous e,
  In e (buildImportGraph rawImports files aliases previous)
  <-> In e previous
      \/ exists rel fileNode raw resolved,
           In (rel, fileNode) files
           /\ In raw (rawImports rel fileNode)
           /\ resolveImportPath (target raw) rel (Js.keys files) aliases
              = Some resolved
           /\ resolved <> "" /\ e = resolvedEdge raw resolved.
Proof.
  unfold buildImportGraph. generalize (Js.keys files) as fileKeys.
  intros fileKeys.
  induction files as [|[rel fileNode] files IH]; intros previous e; simpl.
  - split; [auto | intros [H|(r & n & x & s & [] & _)]; exact H].
  - rewrite IH, pushResolved_fold_In. split.
    + intros [[H|(raw & s & Hraw & Hs & Hne & He)]
             |(r & n & raw & s & Hin & Hrest)].
      * now left.
      * right. exists rel, fileNode, raw, s. repeat split; auto.
      * right. exists r, n, raw, s. split; [now right | exact Hrest].
    + intros [H|(r & n & raw & s & [[= <- <-]|Hin] & Hraw & Hrest)].
      * left. now left.
      * left. right. exists raw, s. split; [exact Hraw | exact Hrest].
      * right. exists r, n, raw, s. auto.
Qed.

Lemma pushResolved_fold fileKeys aliases rel raws : forall graph,
  fold_left (pushResolved fileKeys aliases rel) raws graph
  = (graph
     ++ flat_map
          (fun raw =>
             match resolveImportPath (target raw) rel fileKeys aliases with
             | Some resolved =>
                 if String.eqb resolved "" then []
                 else [resolvedEdge raw resolved]
             | None => []
             end) raws)%list.
Proof.
  induction raws as [|raw raws IH]; intros graph; cbn [fold_left flat_map].
  - now rewrite app_nil_r.
  - rewrite IH. unfold pushResolved at 1, Js.truthy.
    destruct (resolveImportPath (target raw) rel fileKeys aliases)
      as [resolved|]; [|reflexivity].
    destruct (String.eqb resolved ""); cbn [negb app]; [reflexivity|].
    now rewrite <- app_assoc.
Qed.

(** The raw imports of the indexed files, each with its importer, in
    the order of the two loops. *)
Definition rawPairs (files : list (string * FileNode))
  : list (string * ImportEdge) :=
  flat_map (fun entry => map (pair (fst entry))
                             (rawImports (fst entry) (snd entry))) files.

(** X19: the import graph is, in the order of the two loops, one edge
    for each raw import of each indexed file whose path resolves to a
    non-empty path, and nothing else: a raw import that resolves is
    pushed once, with its importer, specifiers and flags and with the
    resolved file as its target.  So the fan-in that the quality
    analyzer counts for a file is the number of raw imports (with
    repetitions) that resolve to it. *)
Theorem buildImportGraph_edges files aliases :
  let edgesOf := fun entry : string * FileNode =>
    flat_map
      (fun raw =>
         match resolveImportPath (target raw) (fst entry) (Js.keys files) aliases
         with
         | Some resolved =>
             if String.eqb resolved "" then []
             else [ {| source := source raw; target := resolved;
                       specifiers := specifiers raw;
                       isDefault := isDefault raw;
                       isDynamic := isDynamic raw |} ]
         | None => []
         end)
      (rawImports (fst entry) (snd entry)) in
  buildImportGraph rawImports files aliases [] = flat_map edgesOf files
  /\ forall rel, rel <> "" ->
       Quality.fanInOf (buildImportGraph rawImports files aliases []) rel
       = List.length
           (filter
              (fun importerAndRaw =>
                 match resolveImportPath (target (snd importerAndRaw))
                         (fst importerAndRaw) (Js.keys files) aliases with
                 | Some resolved => String.eqb resolved rel
                 | None => false
                 end)
              (rawPairs files)).
Proof.
  cbv zeta.
  assert (Hgraph : forall fileKeys l previous,
             fold_left
               (fun graph entry =>
                  fold_left (pushResolved fileKeys aliases (fst entry))
                            (rawImports (fst entry) (snd entry)) graph)
               l previous
             = (previous
                ++ flat_map
                     (fun entry : string * FileNode =>
                        flat_map
                          (fun raw =>
                             match resolveImportPath (target raw) (fst entry)
                                     fileKeys aliases with
                             | Some resolved =>
                                 if String.eqb resolved "" then []
                                 else [resolvedEdge raw resolved]
                             | None => []
                             end)
                          (rawImports (fst entry) (snd entry))) l)%list).
  { intros fileKeys. induction l as [|entry l IH]; intros previous;
      cbn [fold_left flat_map].
    - now rewrite app_nil_r.
    - rewrite IH, pushResolved_fold. now rewrite <- app_assoc. }
  assert (Heq : buildImportGraph rawImports files aliases []
                = flat_map
                    (fun entry : string * FileNode =>
                       flat_map
                         (fun raw =>
                            match resolveImportPath (target raw) (fst entry)
                                    (Js.keys files) aliases with
                            | Some resolved =>
                                if String.eqb resolved "" then []
                                else [resolvedEdge raw resolved]
                            | None => []
                            end)
                         (rawImports (fst entry) (snd entry))) files)
    by (unfold buildImportGraph; now rewrite Hgraph).
  split; [exact Heq|].
  intros rel Hrel. rewrite quality_fanIn_counts_edges, Heq. clear Heq Hgraph.
  unfold rawPairs. generalize (Js.keys files) as fileKeys. intros fileKeys.
  induction files as [|entry l IH]; [reflexivity|].
  cbn [flat_map]. rewrite !filter_app, !length_app, IH. f_equal.
  generalize (rawImports (fst entry) (snd entry)) as raws.
  induction raws as [|raw raws IHr]; [reflexivity|].
  cbn [flat_map map filter fst snd]. rewrite filter_app, length_app, IHr.
  destruct (resolveImportPath (target raw) (fst entry) fileKeys aliases)
    as [resolved|]; [|reflexivity].
  destruct (String.eqb resolved "") eqn:E.
  - apply String.eqb_eq in E. subst resolved.
    assert (Hne : String.eqb "" rel = false)
      by (apply String.eqb_neq; congruence).
    rewrite Hne. reflexivity.
  - cbn [filter]. unfold targets. cbn [target resolvedEdge].
    destruct (String.eqb resolved rel); reflexivity.
Qed.

Lemma buildImportGraph_closed files aliases e :
  In e (buildImportGraph rawImports files aliases []) ->
  In (target e) (Js.keys files).
Proof.
  intros H. apply buildImportGraph_In in H
    as [[]|(rel & n & raw & s & _ & _ & Hs & _ & ->)].
  cbn [target resolvedEdge]. now apply resolveImportPath_In in Hs.
Qed.

(** X20: on the import graph built by the indexer, every member of every
    cluster of the feature grouper is an indexed file. *)
Theorem featureGrouper_members_of_index files aliases cfg skip churns F f :
  In F (Grouper.featureGrouper cfg (Js.keys files)
          (buildImportGraph rawImports files aliases []) skip churns) ->
  In f (Grouper.files F) -> In f (Js.keys files).
Proof.
  apply featureGrouper_members_aux. intros e. apply buildImportGraph_closed.
Qed.

End Graph.

(** ** The package of a file *)

Definition longerFirst (a b : DetectedPackage) : Prop :=
  (String.length (dir b) <= String.length (dir a))%nat.

Lemma insertPackage_In x y l : In y (insertPackage x l) <-> y = x \/ In y l.
Proof.
  induction l as [|z l IH]; simpl.
  - intuition.
  - destruct (comparePackages x z <=? 0)%Z; simpl; rewrite ?IH; intuition.
Qed.

Lemma sortPackages_In y l : In y (sortPackages l) <-> In y l.
Proof.
  induction l as [|x l IH]; simpl; [tauto|].
  rewrite insertPackage_In, IH. intuition.
Qed.

Lemma insertPackage_sorted x l :
  StronglySorted longerFirst l -> StronglySorted longerFirst (insertPackage x l).
Proof.
  induction l as [|z l IH]; intros Hs; simpl.
  - repeat constructor.
  - inversion Hs as [|? ? Hl Hz]; subst.
    destruct (comparePackages x z <=? 0)%Z eqn:E.
    + apply Z.leb_le in E. unfold comparePackages in E.
      constructor; [exact Hs|]. constructor.
      * unfold longerFirst. lia.
      * eapply Forall_impl; [|exact Hz]. unfold longerFirst. intros a Ha. lia.
    + apply Z.leb_gt in E. unfold comparePackages in E.
      constructor; [now apply IH|].
      apply Forall_forall. intros y Hy. apply insertPackage_In in Hy as [->|Hy].
      * unfold longerFirst. lia.
      * rewrite Forall_forall in Hz. now apply Hz.
Qed.

Lemma sortPackages_sorted l : StronglySorted longerFirst (sortPackages l).
Proof.
  induction l as [|x l IH]; simpl; [constructor | now apply insertPackage_sorted].
Qed.

Definition contains (rel : string) (pkg : DetectedPackage) : Prop :=
  dir pkg <> "." /\ Js.startsWith rel (dir pkg ++ "/") = true.

Lemma firstPackage_longest rel sorted :
  StronglySorted longerFirst sorted ->
  match firstPackage rel sorted with
  | Some d =>
      exists best, In best sorted /\ d = dir best /\ contains rel best
                   /\ forall pkg, In pkg sorted -> contains rel pkg ->
                                  longerFirst best pkg
  | None => forall pkg, In pkg sorted -> ~ contains rel pkg
  end.
Proof.
  induction sorted as [|pkg sorted IH]; intros Hs; simpl; [auto|].
  inversion Hs as [|? ? Hl Hz]; subst. specialize (IH Hl).
  destruct (String.eqb (dir pkg) ".") eqn:Edot.
  - apply String.eqb_eq in Edot.
    destruct (firstPackage rel sorted) as [d|].
    + destruct IH as (best & Hin & Hd & Hc & Hbest).
      exists best. repeat split; auto; try apply Hc.
      intros p [<-|Hp] Hcp; [destruct Hcp; contradiction | now apply Hbest].
    + intros p [<-|Hp]; [intros [H _]; contradiction | now apply IH].
  - apply String.eqb_neq in Edot.
    destruct (Js.startsWith rel (dir pkg ++ "/")) eqn:Es.
    + exists pkg. repeat split; auto.
      intros p [<-|Hp] _; [unfold longerFirst; lia|].
      rewrite Forall_forall in Hz. now apply Hz.
    + destruct (firstPackage rel sorted) as [d|].
      * destruct IH as (best & Hin & Hd & Hc & Hbest).
        exists best. repeat split; auto; try apply Hc.
        intros p [<-|Hp] Hcp; [destruct Hcp; congruence | now apply Hbest].
      * intros p [<-|Hp]; [intros [_ H]; congruence | now apply IH].
Qed.

(** X21: when a file lies under a detected package other than [.], its
    package is the directory of such a package, and no containing
    package has a longer directory name (the deepest match wins). *)
Theorem detectPackage_deepest rel pkgs pkg :
  In pkg pkgs -> contains rel pkg ->
  exists best, In best pkgs /\ detectPackage rel (Some pkgs) = dir best
               /\ contains rel best
               /\ forall other, In other pkgs -> contains rel other ->
                    (String.length (dir other) <= String.length (dir best))%nat.
Proof.
  intros Hin Hc. unfold detectPackage.
  assert (Hlen : (0 <? List.length pkgs)%nat = true)
    by (destruct pkgs; [contradiction | reflexivity]).
  rewrite Hlen.
  pose proof (@firstPackage_longest rel (sortPackages pkgs)
                (sortPackages_sorted pkgs)) as H.
  destruct (firstPackage rel (sortPackages pkgs)) as [d|].
  - destruct H as (best & Hb & -> & Hcb & Hbest).
    exists best. split; [now apply sortPackages_In|].
    split; [reflexivity|]. split; [exact Hcb|].
    intros other Ho Hco. apply Hbest; [now apply sortPackages_In | exact Hco].
  - exfalso. apply (H pkg); [now apply sortPackages_In | exact Hc].
Qed.

(** X22: when no detected package other than [.] contains the file, the
    package is the first segment of a path with a directory (unless that
    segment is [.]), and [root] otherwise. *)
Theorem detectPackage_fallback rel pkgs :
  (forall pkg, In pkg pkgs -> ~ contains rel pkg) ->
  detectPackage rel (Some pkgs)
  = let parts := Js.split "/" rel in
    if (1 <? List.length parts)%nat && negb (String.eqb (nth 0 parts "") ".")
    then nth 0 parts "" else "root".
Proof.
  intros Hnone. unfold detectPackage.
  destruct (0 <? List.length pkgs)%nat; [|reflexivity].
  pose proof (@firstPackage_longest rel (sortPackages pkgs)
                (sortPackages_sorted pkgs)) as H.
  destruct (firstPackage rel (sortPackages pkgs)) as [d|]; [|reflexivity].
  destruct H as (best & Hb & _ & Hcb & _). exfalso.
  apply (Hnone best); [now apply sortPackages_In | exact Hcb].
Qed.

End IndexerGraph.


(* ================================================================== *)
(** * Which convention paths are route directories                     *)
(* ================================================================== *)

Section RouteDirectories.

Import AutoDetect Grouper.

Lemma string_app_length (a b : string) :
  String.length (a ++ b) = (String.length a + String.length b)%nat.
Proof. induction a as [|c a IH]; simpl; [reflexivity | now rewrite IH]. Qed.

Lemma drop_split (n : nat) (s : string) :
  (n <= String.length s)%nat ->
  exists pre, s = pre ++ Js.drop n s /\ String.length pre = n.
Proof.
  revert s. induction n as [|n IH]; intros s Hn.
  - exists "". split; reflexivity.
  - destruct s as [|c s]; [simpl in Hn; lia|].
    destruct (IH s ltac:(simpl in Hn; lia)) as (pre & Hs & Hl).
    exists (String c pre). simpl. split; [now rewrite <- Hs | now rewrite Hl].
Qed.

Lemma drop_app_exact (a b : string) : Js.drop (String.length a) (a ++ b) = b.
Proof. induction a as [|c a IH]; simpl; [now destruct b | exact IH]. Qed.

Lemma endsWith_suffix (s p : string) :
  Js.endsWith s p = true <-> exists pre, s = pre ++ p.
Proof.
  unfold Js.endsWith. split.
  - intros H. apply andb_true_iff in H as [Hl He].
    apply Nat.leb_le in Hl. apply String.eqb_eq in He.
    destruct (@drop_split (String.length s - String.length p) s ltac:(lia))
      as (pre & Hs & _).
    exists pre. now rewrite He in Hs.
  - intros [pre ->]. rewrite string_app_length. apply andb_true_iff. split.
    + apply Nat.leb_le. lia.
    + replace (String.length pre + String.length p - String.length p)%nat
        with (String.length pre) by lia.
      rewrite drop_app_exact. apply String.eqb_refl.
Qed.

(** Two suffixes of one string: the shorter is a suffix of the longer. *)
Lemma suffixes_nest (a b c d : string) :
  a ++ b = c ++ d -> (String.length b <= String.length d)%nat ->
  exists q, d = q ++ b.
Proof.
  revert c. induction a as [|x a IH]; intros c H Hl.
  - simpl in H. subst b. rewrite string_app_length in Hl.
    destruct c; [now exists "" | simpl in Hl; lia].
  - destruct c as [|y c].
    + simpl in H. subst d. now exists (String x a).
    + simpl in H. injection H as _ H. now apply (IH c).
Qed.

Definition isRouteDir (p : string) : bool :=
  Js.endsWith p "pages/" || Js.endsWith p "app/" || Js.endsWith p "routes/".

(** Whether [prefix ++ s] can end with [c] is decided by [s] and [c]
    alone when neither is a suffix of the other. *)
Lemma endsWith_app_false (pre s c : string) :
  Js.endsWith s c = false -> Js.endsWith c s = false ->
  Js.endsWith (pre ++ s) c = false.
Proof.
  intros H1 H2. destruct (Js.endsWith (pre ++ s) c) eqn:E; [|reflexivity].
  apply endsWith_suffix in E as [q Hq].
  destruct (Nat.le_ge_cases (String.length c) (String.length s)) as [Hl|Hl].
  - symmetry in Hq. destruct (suffixes_nest _ _ _ _ Hq Hl) as [r Hr].
    assert (Js.endsWith s c = true) by (apply endsWith_suffix; now exists r).
    congruence.
  - destruct (suffixes_nest _ _ _ _ Hq Hl) as [r Hr].
    assert (Js.endsWith c s = true) by (apply endsWith_suffix; now exists r).
    congruence.
Qed.

Lemma isRouteDir_app_false (pre s : string) :
  Js.endsWith s "pages/" = false -> Js.endsWith "pages/" s = false ->
  Js.endsWith s "app/" = false -> Js.endsWith "app/" s = false ->
  Js.endsWith s "routes/" = false -> Js.endsWith "routes/" s = false ->
  isRouteDir (pre ++ s) = false.
Proof.
  intros. unfold isRouteDir. now rewrite !endsWith_app_false.
Qed.

(** The directories that can make a route directory. *)
Definition routeDirs : list string := ["pages"; "app"; "src/app"; "src/routes"].

Section Discovered.

Variable existsDir : string -> string -> bool.

Lemma discovered_In packages p :
  In p (discoverConventionPaths existsDir packages) <->
  exists pkg d, In pkg packages /\ In d (conventionDirs (framework pkg))
                /\ existsDir (dir pkg) d = true
                /\ p = prefixOf pkg ++ d ++ "/".
Proof.
  unfold discoverConventionPaths.
  assert (Hinner : forall pkg dirs paths,
             In p (fold_left
                     (fun paths d =>
                        if existsDir (dir pkg) d
                        then (paths ++ [String.append (prefixOf pkg) (String.append d "/")])%list
                        else paths) dirs paths)
             <-> In p paths
                 \/ exists d, In d dirs /\ existsDir (dir pkg) d = true
                              /\ p = prefixOf pkg ++ d ++ "/").
  { intros pkg dirs. induction dirs as [|d dirs IH]; intros paths;
      cbn [fold_left In].
    - split; [auto | intros [H|(d & [] & _)]; exact H].
    - rewrite IH. destruct (existsDir (dir pkg) d) eqn:E.
      + rewrite in_app_iff. cbn [In]. split.
        * intros [[H|[<-|[]]]|(d' & Hd & He & Hp)].
          -- now left.
          -- right. exists d. auto.
          -- right. exists d'. auto.
        * intros [H|(d' & [<-|Hd] & He & Hp)].
          -- left. now left.
          -- left. right. left. now symmetry.
          -- right. exists d'. auto.
      + split.
        * intros [H|(d' & Hd & He & Hp)]; [now left|]. right. exists d'. auto.
        * intros [H|(d' & [<-|Hd] & He & Hp)];
            [now left | congruence | right; exists d'; auto]. }
  assert (Houter : forall paths,
             In p (fold_left
                     (fun paths pkg =>
                        fold_left
                          (fun paths d =>
                             if existsDir (dir pkg) d
                             then (paths ++ [String.append (prefixOf pkg) (String.append d "/")])%list
                             else paths)
                          (conventionDirs (framework pkg)) paths)
                     packages paths)
             <-> In p paths
                 \/ exists pkg d, In pkg packages
                                  /\ In d (conventionDirs (framework pkg))
                                  /\ existsDir (dir pkg) d = true
                                  /\ p = prefixOf pkg ++ d ++ "/").
  { induction packages as [|pkg packages IH]; intros paths;
      cbn [fold_left In].
    - split; [auto | intros [H|(k & d & [] & _)]; exact H].
    - rewrite IH, Hinner. split.
      + intros [[H|(d & Hd & He & Hp)]|(k & d & Hk & Hrest)].
        * now left.
        * right. exists pkg, d. auto.
        * right. exists k, d. auto.
      + intros [H|(k & d & [<-|Hk] & Hd & He & Hp)].
        * left. now left.
        * left. right. exists d. auto.
        * right. exists k, d. auto. }
  rewrite Houter. split; [intros [[]|H]; exact H | auto].
Qed.

Lemma conventionDirs_route framework d pre :
  In d (conventionDirs framework) -> isRouteDir (pre ++ d ++ "/") = true ->
  In d routeDirs.
Proof.
  unfold conventionDirs, routeDirs.
  destruct (Js.startsWith framework "nuxt");
    [|destruct (String.eqb framework "next");
      [|destruct (String.eqb framework "angular");
        [|destruct (String.eqb framework "sveltekit")]]];
    cbn [In]; intros Hd Hr;
    repeat (destruct Hd as [<-|Hd]; [|]); try contradiction;
    try (cbn [In]; tauto);
    rewrite isRouteDir_app_false in Hr by reflexivity; discriminate.
Qed.

Lemma pagesDirs_discovered cfg p :
  conventionPaths cfg = discoverConventionPaths existsDir (packages cfg) ->
  In p (pagesDirsOf (Some cfg)) ->
  exists pkg d, In pkg (packages cfg)
                /\ In d (conventionDirs (framework pkg)) /\ In d routeDirs
                /\ existsDir (dir pkg) d = true
                /\ p = prefixOf pkg ++ d ++ "/".
Proof.
  intros Hcfg Hin. unfold pagesDirsOf in Hin. apply filter_In in Hin as [Hin Hr].
  rewrite Hcfg in Hin. apply discovered_In in Hin as (pkg & d & Hpkg & Hd & He & ->).
  exists pkg, d. repeat split; auto.
  now apply (@conventionDirs_route (framework pkg) d (prefixOf pkg)).
Qed.

(** X23: of the convention paths found by the auto-detection, signal 2
    treats as route directories only [pages/] and [app/] (Nuxt, Next),
    [src/app/] (Angular) and [src/routes/] (SvelteKit), each under the
    directory of its package and present on disk. *)
Theorem route_directories_of_detected_config cfg p :
  conventionPaths cfg = discoverConventionPaths existsDir (packages cfg) ->
  In p (pagesDirsOf (Some cfg)) ->
  exists pkg d, In pkg (packages cfg)
                /\ In d (conventionDirs (framework pkg)) /\ In d routeDirs
                /\ existsDir (dir pkg) d = true
                /\ p = prefixOf pkg ++ d ++ "/".
Proof. apply pagesDirs_discovered. Qed.

(** X24: for a detected configuration in which no package has a route
    directory on disk, the clusters partition the indexed files. *)
Theorem featureGrouper_partition_of_detected_config cfg fileKeys graph skip churns rel :
  conventionPaths cfg = discoverConventionPaths existsDir (packages cfg) ->
  (forall pkg d, In pkg (packages cfg) -> In d routeDirs ->
                 existsDir (dir pkg) d = false) ->
  NoDup fileKeys -> In rel fileKeys ->
  exists F, In F (featureGrouper (Some cfg) fileKeys graph skip churns)
            /\ In rel (files F) /\ NoDup (files F)
            /\ forall G, In G (featureGrouper (Some cfg) fileKeys graph skip churns) ->
                         In rel (files G) -> G = F.
Proof.
  intros Hcfg Hnone. apply featureGrouper_partition_aux.
  destruct (pagesDirsOf (Some cfg)) as [|p l] eqn:E; [reflexivity|].
  exfalso.
  destruct (@pagesDirs_discovered cfg p Hcfg) as (pkg & d & Hpkg & _ & Hd & He & _).
  - rewrite E. now left.
  - rewrite (Hnone pkg d Hpkg Hd) in He. discriminate.
Qed.

End Discovered.

End RouteDirectories.


(* ================================================================== *)
(** * Git history: the churn records                                   *)
(* ================================================================== *)

Section GitChurns.

Import Git.

Lemma get_ensured {V : Type} (m : list (string * V)) k v k' :
  Js.get (if Js.hasKey m k then m else Js.set m k v) k'
  = if String.eqb k k'
    then Some (match Js.get m k with Some x => x | None => v end)
    else Js.get m k'.
Proof.
  destruct (String.eqb k k') eqn:E.
  - apply String.eqb_eq in E. subst k'.
    destruct (Js.hasKey m k) eqn:H.
    + apply hasKey_true, key_get_Some in H as [x Hx]. now rewrite Hx.
    + rewrite get_set_same. apply hasKey_false in H. now rewrite H.
  - apply String.eqb_neq in E.
    destruct (Js.hasKey m k); [reflexivity | now apply get_set_other].
Qed.

Lemma get_modify {V : Type} (m : list (string * V)) k (g : V -> V) k' :
  Js.get (Js.modify m k g) k'
  = if String.eqb k k' then option_map g (Js.get m k) else Js.get m k'.
Proof.
  destruct (String.eqb k k') eqn:E.
  - apply String.eqb_eq in E. subst k'. apply get_modify_same.
  - apply String.eqb_neq in E. now apply get_modify_other.
Qed.

Lemma hasKey_get {V : Type} (m : list (string * V)) k :
  Js.hasKey m k = true <-> exists v, Js.get m k = Some v.
Proof.
  unfold Js.hasKey. destruct (Js.get m k) as [v|]; split; try discriminate.
  - intros _. now exists v.
  - reflexivity.
  - intros [v H]. discriminate.
Qed.

(** The records after the first loop. *)
Definition counted (m : list (string * GitChurn)) : Prop :=
  forall file churn, Js.get m file = Some churn ->
    churnFile churn = file /\ file <> "" /\ (1 <= commitCount churn)%nat
    /\ coChangedWith churn = [].

Definition countingOk (st : Counting) : Prop :=
  counted (churns st)
  /\ forall c fs f, In (c, fs) (commitFiles st) -> In f fs ->
                    Js.hasKey (churns st) f = true.

Lemma countLine_ok st line : countingOk st -> countingOk (countLine st line).
Proof.
  intros [Hc Hf]. unfold countLine.
  destruct (Js.startsWith line "COMMIT:").
  - split; [exact Hc|]. cbn [commitFiles churns]. intros c fs f Hin Hfs.
    apply set_In in Hin as [[_ ->]|Hin]; [contradiction | now apply (Hf c fs)].
  - destruct (Js.truthy (Js.trim line)) eqn:Et; [|now split].
    destruct (Js.truthy (currentCommit st)) eqn:Ec; [|now split].
    cbn [andb commitFiles churns].
    set (file := Js.trim line) in *.
    assert (Hget : forall f,
               Js.get (Js.modify
                         (if Js.hasKey (churns st) file then churns st
                          else Js.set (churns st) file
                                 {| churnFile := file; commitCount := 0;
                                    authorCount := 0;
                                    lastModified := currentDate st;
                                    coChangedWith := [] |})
                         file (countCommit (currentDate st))) f
               = if String.eqb file f
                 then Some (countCommit (currentDate st)
                              (match Js.get (churns st) file with
                               | Some x => x
                               | None => {| churnFile := file; commitCount := 0;
                                            authorCount := 0;
                                            lastModified := currentDate st;
                                            coChangedWith := [] |}
                               end))
                 else Js.get (churns st) f).
    { intros f. rewrite get_modify, !get_ensured, String.eqb_refl.
      now destruct (String.eqb file f). }
    assert (Hkeep : forall f, Js.hasKey (churns st) f = true ->
               Js.hasKey (Js.modify
                         (if Js.hasKey (churns st) file then churns st
                          else Js.set (churns st) file
                                 {| churnFile := file; commitCount := 0;
                                    authorCount := 0;
                                    lastModified := currentDate st;
                                    coChangedWith := [] |})
                         file (countCommit (currentDate st))) f = true).
    { intros f Hk. apply hasKey_get. rewrite Hget.
      destruct (String.eqb file f); [now eexists | now apply hasKey_get]. }
    split.
    + intros f churn Hch. rewrite Hget in Hch.
      destruct (String.eqb file f) eqn:E; [|now apply Hc].
      apply String.eqb_eq in E. subst f. injection Hch as <-.
      assert (Hne : file <> "").
      { intros E. rewrite E in Et. discriminate. }
      destruct (Js.get (churns st) file) as [old|] eqn:Eo.
      * destruct (Hc file old Eo) as (H1 & _ & H3 & H4).
        cbn [countCommit churnFile commitCount coChangedWith].
        repeat split; auto. lia.
      * cbn [countCommit churnFile commitCount coChangedWith].
        repeat split; auto.
    + intros c fs f Hin Hfs.
      apply modify_In in Hin as [Hin|(-> & v & Hv & ->)].
      * apply Hkeep. now apply (Hf c fs).
      * apply in_app_or in Hfs as [Hfs|[<-|[]]].
        -- apply Hkeep. apply (Hf (currentCommit st) v); [|exact Hfs].
           now apply get_In.
        -- apply hasKey_get. rewrite Hget, String.eqb_refl. now eexists.
Qed.

Lemma counting_ok lines : countingOk (fold_left countLine lines startCounting).
Proof.
  assert (H : forall st, countingOk st -> countingOk (fold_left countLine lines st)).
  { induction lines as [|l lines IH]; intros st Hst; [exact Hst|].
    simpl. apply IH. now apply countLine_ok. }
  apply H. split.
  - intros file churn. discriminate.
  - intros c fs f [].
Qed.

Lemma setAuthorCount_fold authors : forall m,
  counted m ->
  counted (fold_left setAuthorCount authors m)
  /\ forall f, Js.hasKey m f = true ->
               Js.hasKey (fold_left setAuthorCount authors m) f = true.
Proof.
  induction authors as [|[file names] authors IH]; intros m Hm; [now split|].
  cbn [fold_left]. unfold setAuthorCount at 2 4. cbn [fst snd].
  match goal with
  | |- context [Js.modify m file ?g] => set (g0 := g)
  end.
  assert (Hc : counted (Js.modify m file g0)).
  { intros f churn Hch. rewrite get_modify in Hch.
    destruct (String.eqb file f) eqn:E; [|now apply Hm].
    apply String.eqb_eq in E. subst f.
    destruct (Js.get m file) as [old|] eqn:Eo; [|discriminate].
    injection Hch as <-. exact (Hm file old Eo). }
  destruct (IH _ Hc) as [H1 H2]. split; [exact H1|].
  intros f Hf. apply H2. apply hasKey_true. rewrite keys_modify.
  now apply hasKey_true.
Qed.

(** The records during the third loop. *)
Definition coChangeOk (m : list (string * GitChurn)) : Prop :=
  forall file churn, Js.get m file = Some churn ->
    churnFile churn = file /\ file <> "" /\ (1 <= commitCount churn)%nat
    /\ NoDup (coChangedWith churn)
    /\ ~ In file (coChangedWith churn)
    /\ (List.length (coChangedWith churn) <= 50)%nat
    /\ forall other, In other (coChangedWith churn) -> Js.hasKey m other = true.

Lemma addCoChange_fold f files : forall co,
  NoDup co -> ~ In f co ->
  NoDup (fold_left (addCoChange f) files co)
  /\ ~ In f (fold_left (addCoChange f) files co)
  /\ forall o, In o (fold_left (addCoChange f) files co) ->
               In o co \/ In o files.
Proof.
  induction files as [|x files IH]; intros co Hnd Hf; cbn [fold_left].
  - split; [exact Hnd | split; [exact Hf | intros o Ho; now left]].
  - assert (Hstep : NoDup (addCoChange f co x)
                    /\ ~ In f (addCoChange f co x)
                    /\ forall o, In o (addCoChange f co x) -> In o co \/ o = x).
    { unfold addCoChange.
      destruct (String.eqb x f) eqn:E1; cbn [negb andb]; [auto|].
      destruct (Js.has co x) eqn:E2; cbn [negb]; [auto|].
      apply has_false in E2. apply String.eqb_neq in E1.
      split; [|split].
      - apply NoDup_app; [exact Hnd | repeat constructor; simpl; tauto|].
        intros y Hy [<-|[]]. contradiction.
      - intros Hin. apply in_app_or in Hin as [Hin|[->|[]]]; auto.
      - intros o Ho. apply in_app_or in Ho as [Ho|[<-|[]]]; auto. }
    destruct Hstep as (S1 & S2 & S3).
    destruct (IH _ S1 S2) as (H1 & H2 & H3).
    split; [exact H1 | split; [exact H2|]].
    intros o Ho. destruct (H3 o Ho) as [Hin|Hin]; [|right; now right].
    destruct (S3 o Hin) as [H| ->]; [now left | right; now left].
Qed.

Lemma firstn_incl {A} (n : nat) (l : list A) x : In x (firstn n l) -> In x l.
Proof.
  intros H. rewrite <- (firstn_skipn n l). apply in_or_app. now left.
Qed.

Lemma firstn_NoDup {A} (n : nat) (l : list A) : NoDup l -> NoDup (firstn n l).
Proof.
  intros H. rewrite <- (firstn_skipn n l) in H.
  now apply NoDup_app_remove_r in H.
Qed.

Lemma coChangeFile_ok files m f :
  coChangeOk m -> (forall x, In x files -> Js.hasKey m x = true) ->
  coChangeOk (coChangeFile files m f)
  /\ forall x, Js.hasKey m x = true -> Js.hasKey (coChangeFile files m f) x = true.
Proof.
  intros Hm Hfiles. unfold coChangeFile.
  destruct (Js.get m f) as [churn|] eqn:Ef; [|now split].
  destruct (Hm f churn Ef) as (H1 & H2 & H3 & H4 & H5 & H6 & H7).
  destruct (@addCoChange_fold f files (coChangedWith churn) H4 H5)
    as (P1 & P2 & P3).
  set (pushed := fold_left (addCoChange f) files (coChangedWith churn)) in *.
  set (capped := if (50 <? List.length pushed)%nat then firstn 50 pushed else pushed).
  assert (C1 : NoDup capped)
    by (unfold capped; destruct (50 <? List.length pushed)%nat;
        [now apply firstn_NoDup | exact P1]).
  assert (C2 : forall o, In o capped -> In o pushed)
    by (unfold capped; destruct (50 <? List.length pushed)%nat;
        [intros o; apply firstn_incl | auto]).
  assert (C3 : (List.length capped <= 50)%nat).
  { unfold capped. destruct (50 <? List.length pushed)%nat eqn:E.
    - apply firstn_le_length.
    - now apply Nat.ltb_ge in E. }
  assert (Hkeys : forall x, Js.hasKey m x = true ->
            Js.hasKey (Js.set m f
                         {| churnFile := churnFile churn;
                            commitCount := commitCount churn;
                            authorCount := authorCount churn;
                            lastModified := lastModified churn;
                            coChangedWith := capped |}) x = true).
  { intros x Hx. apply hasKey_true. rewrite keys_set.
    apply hasKey_true in Hx. destruct (Js.hasKey m f); [exact Hx|].
    apply in_or_app. now left. }
  split; [|exact Hkeys].
  intros file c Hc. destruct (String.eqb f file) eqn:E.
  - apply String.eqb_eq in E. subst file. rewrite get_set_same in Hc.
    injection Hc as <-. cbn [churnFile commitCount coChangedWith].
    repeat split; auto.
    intros o Ho. apply Hkeys. apply C2, P3 in Ho as [Ho|Ho];
      [now apply H7 | now apply Hfiles].
  - apply String.eqb_neq in E. rewrite get_set_other in Hc by exact E.
    destruct (Hm file c Hc) as (Q1 & Q2 & Q3 & Q4 & Q5 & Q6 & Q7).
    repeat split; auto.
Qed.

Lemma coChangeFile_fold files fs : forall m,
  coChangeOk m -> (forall x, In x files -> Js.hasKey m x = true) ->
  coChangeOk (fold_left (coChangeFile files) fs m)
  /\ forall x, Js.hasKey m x = true ->
               Js.hasKey (fold_left (coChangeFile files) fs m) x = true.
Proof.
  induction fs as [|f fs IH]; intros m Hm Hfs; [now split|].
  cbn [fold_left].
  destruct (@coChangeFile_ok files m f Hm Hfs) as [H1 H2].
  destruct (IH _ H1) as [H3 H4]; [intros x Hx; apply H2; now apply Hfs|].
  split; [exact H3|]. intros x Hx. now apply H4, H2.
Qed.

Lemma coChangeCommit_fold commits : forall m,
  coChangeOk m ->
  (forall c fs f, In (c, fs) commits -> In f fs -> Js.hasKey m f = true) ->
  coChangeOk (fold_left coChangeCommit commits m).
Proof.
  induction commits as [|[c fs] commits IH]; intros m Hm Hfiles; [exact Hm|].
  cbn [fold_left].
  assert (Hstep : coChangeOk (coChangeCommit m (c, fs))
                  /\ forall x, Js.hasKey m x = true ->
                               Js.hasKey (coChangeCommit m (c, fs)) x = true).
  { unfold coChangeCommit. cbn [snd].
    destruct ((List.length fs <? 2)%nat || (20 <? List.length fs)%nat);
      [now split|].
    apply coChangeFile_fold; [exact Hm|].
    intros x Hx. apply (Hfiles c fs); [now left | exact Hx]. }
  destruct Hstep as [H1 H2]. apply IH; [exact H1|].
  intros c' fs' f Hin Hf. apply H2. apply (Hfiles c' fs'); [now right | exact Hf].
Qed.

(** X25: every churn record is stored under its own file name, counts at
    least one commit, and its co-change list has no duplicates, does not
    name the file itself, has at most 50 entries and names only files
    that have a record of their own. *)
Theorem getFileChurns_records logOutput file churn :
  Js.get (getFileChurns logOutput) file = Some churn ->
  churnFile churn = file /\ file <> "" /\ (1 <= commitCount churn)%nat
  /\ NoDup (coChangedWith churn)
  /\ ~ In file (coChangedWith churn)
  /\ (List.length (coChangedWith churn) <= 50)%nat
  /\ forall other, In other (coChangedWith churn) ->
                   Js.hasKey (getFileChurns logOutput) other = true.
Proof.
  revert file churn. change (coChangeOk (getFileChurns logOutput)).
  unfold getFileChurns.
  destruct (negb (Js.truthy logOutput)); [intros file churn; discriminate|].
  cbv zeta.
  destruct (counting_ok (Js.split (ascii_of_nat 10) logOutput)) as [Hc Hf].
  set (st := fold_left countLine (Js.split (ascii_of_nat 10) logOutput)
               startCounting) in *.
  destruct (@setAuthorCount_fold
              (fileAuthors (fold_left authorLine
                              (Js.split (ascii_of_nat 10) logOutput)
                              startAuthoring))
              (churns st) Hc) as [H1 H2].
  apply coChangeCommit_fold.
  - intros file churn Hch. destruct (H1 file churn Hch) as (Q1 & Q2 & Q3 & Q4).
    rewrite Q4.
    split; [exact Q1|]. split; [exact Q2|]. split; [exact Q3|].
    split; [constructor|]. split; [intros []|]. split; [simpl; lia|].
    intros other [].
  - intros c fs f Hin Hfs. apply H2. now apply (Hf c fs).
Qed.

End GitChurns.


(* ================================================================== *)
(** * Migration tracker                                                *)
(* ================================================================== *)

Section MigrationFacts.

Import Migration.

(** A map of folders built by [groupInto] from the files that pass
    [keep]. *)
Definition grouped (files : list (string * FileNode))
  (keep : string * FileNode -> bool) (m : list (string * list string)) : Prop :=
  NoDup (Js.keys m)
  /\ forall folder members, Js.get m folder = Some members ->
       members <> []
       /\ forall rel, In rel members ->
            Path.dirname rel = folder
            /\ exists node, In (rel, node) files /\ keep (rel, node) = true.

Lemma groupInto_grouped files keep m rel node :
  grouped files keep m -> In (rel, node) files -> keep (rel, node) = true ->
  grouped files keep (groupInto m rel).
Proof.
  intros [Hnd Hm] Hin Hk. unfold groupInto. cbv zeta. split.
  - rewrite keys_modify.
    destruct (Js.hasKey m (Path.dirname rel)); [exact Hnd|].
    now apply NoDup_keys_set.
  - intros folder members Hget. rewrite get_modify in Hget.
    destruct (String.eqb (Path.dirname rel) folder) eqn:E;
      [|rewrite get_ensured, E in Hget; now apply Hm].
    apply String.eqb_eq in E. subst folder.
    rewrite get_ensured, String.eqb_refl in Hget. cbn [option_map] in Hget.
    injection Hget as <-.
    split; [now destruct (Js.get m (Path.dirname rel)) as [[|]|]|].
    intros r Hr. apply in_app_or in Hr as [Hr|[<-|[]]].
    + destruct (Js.get m (Path.dirname rel)) as [old|] eqn:Eo; [|contradiction].
      now apply (Hm _ old Eo).
    + split; [reflexivity|]. now exists node.
Qed.

Lemma grouped_fold (files : list (string * FileNode))
  (keep : string * FileNode -> bool)
  (step : list (string * list string) -> string * FileNode
          -> list (string * list string)) :
  (forall m entry, step m entry
                   = if keep entry then groupInto m (fst entry) else m) ->
  forall l, incl l files ->
  forall m, grouped files keep m -> grouped files keep (fold_left step l m).
Proof.
  intros Hstep. induction l as [|[rel node] l IH]; intros Hincl m Hm; [exact Hm|].
  cbn [fold_left]. apply IH; [intros x Hx; apply Hincl; now right|].
  rewrite Hstep. destruct (keep (rel, node)) eqn:E; [|exact Hm].
  cbn [fst]. apply (@groupInto_grouped files keep m rel node Hm); [|exact E].
  apply Hincl. now left.
Qed.

Definition keepSource (mig : MigrationInfo) (conventionPaths : list string)
  (entry : string * FileNode) : bool :=
  Js.has (sourceExtensions mig) (extension (snd entry))
  && inPackages (sourcePackages mig) (fst entry)
  && negb (existsb (fun cp => Js.startsWith (fst entry) cp) conventionPaths).

Definition keepTarget (mig : MigrationInfo) (entry : string * FileNode) : bool :=
  Js.has (targetExtensions mig) (extension (snd entry))
  && inPackages (targetPackages mig) (fst entry).

Lemma grouped_empty files keep : grouped files keep [].
Proof. split; [constructor | intros folder members; discriminate]. Qed.

Lemma sourceComponents_grouped mig conventionPaths files :
  grouped files (keepSource mig conventionPaths)
          (sourceComponents mig conventionPaths files).
Proof.
  unfold sourceComponents.
  apply (@grouped_fold files (keepSource mig conventionPaths));
    [|apply incl_refl|apply grouped_empty].
  intros m entry. unfold keepSource.
  destruct (Js.has (sourceExtensions mig) (extension (snd entry)));
    [|reflexivity].
  destruct (inPackages (sourcePackages mig) (fst entry)); [|reflexivity].
  now destruct (existsb _ conventionPaths).
Qed.

Lemma targetComponents_grouped mig files :
  grouped files (keepTarget mig) (targetComponents mig files).
Proof.
  unfold targetComponents.
  apply (@grouped_fold files (keepTarget mig));
    [|apply incl_refl|apply grouped_empty].
  intros m entry. unfold keepTarget.
  destruct (Js.has (targetExtensions mig) (extension (snd entry)));
    [|reflexivity].
  now destruct (inPackages (targetPackages mig) (fst entry)).
Qed.

Lemma matchTarget_In sourceFolder targetFolders t :
  matchTarget sourceFolder targetFolders = Some t -> In t targetFolders.
Proof.
  unfold matchTarget, matchByFolder, matchByParent.
  set (first := find _ targetFolders).
  assert (Hfirst : first = Some t -> In t targetFolders)
    by (intros H; now apply find_some in H).
  clearbody first.
  destruct (Grouper.truthyOpt first); [exact Hfirst|].
  destruct (Js.truthy _ && negb _); [|exact Hfirst].
  destruct (find _ targetFolders) as [tf|] eqn:E; [|exact Hfirst].
  intros [= <-]. now apply find_some in E.
Qed.

Section Tracker.

Variable flagsOf : string -> list string.
Variable eventsOf : string -> list string.

Lemma tracker_entry migration conventionPaths files e :
  In e (migrationTracker flagsOf eventsOf migration conventionPaths files []) ->
  exists mig folder members,
    migration = Some mig /\ detected mig = true
    /\ Js.get (sourceComponents mig conventionPaths files) folder = Some members
    /\ In e (entriesOf flagsOf eventsOf (targetComponents mig files)
               (folder, members)).
Proof.
  unfold migrationTracker. destruct migration as [mig|]; [|contradiction].
  destruct (detected mig) eqn:Ed; [|contradiction]. cbn [negb app].
  intros H. apply in_flat_map in H as ([folder members] & Hin & He).
  exists mig, folder, members. repeat split; auto.
  apply In_get; [|exact Hin]. apply sourceComponents_grouped.
Qed.

(** X26: every migration entry is about an indexed file with a source
    extension that lies under a source package and under no convention
    path; its target, when it has one, is the folder (with a slash
    added) of an indexed file with a target extension under a target
    package. *)
Theorem migrationTracker_sound mig conventionPaths files e :
  In e (migrationTracker flagsOf eventsOf (Some mig) conventionPaths files []) ->
  (exists node,
      In (sourceComponent e, node) files
      /\ Js.has (sourceExtensions mig) (extension node) = true
      /\ inPackages (sourcePackages mig) (sourceComponent e) = true
      /\ existsb (fun cp => Js.startsWith (sourceComponent e) cp) conventionPaths
         = false)
  /\ forall t, targetComponent e = Some t ->
       exists rel node,
         In (rel, node) files /\ t = Path.dirname rel ++ "/"
         /\ Js.has (targetExtensions mig) (extension node) = true
         /\ inPackages (targetPackages mig) rel = true.
Proof.
  intros H. apply tracker_entry in H
    as (mig' & folder & members & [= <-] & Hd & Hget & He).
  unfold entriesOf in He. cbn [fst snd] in He. cbv zeta in He.
  apply in_map_iff in He as (sourceFile & <- & Hin).
  cbn [sourceComponent targetComponent]. split.
  - destruct (sourceComponents_grouped mig conventionPaths files) as [_ Hs].
    destruct (Hs folder members Hget) as [_ Hm].
    destruct (Hm sourceFile Hin) as (_ & node & Hnode & Hk).
    exists node. unfold keepSource in Hk. cbn [fst snd] in Hk.
    apply andb_true_iff in Hk as [Hk H3]. apply andb_true_iff in Hk as [H1 H2].
    repeat split; auto. now apply negb_true_iff in H3.
  - intros t Ht.
    destruct (matchTarget folder (Js.keys (targetComponents mig files)))
      as [tf|] eqn:Em; [|discriminate].
    destruct (Js.truthy tf); [|discriminate]. injection Ht as <-.
    apply matchTarget_In, key_get_Some in Em as [tfiles Htf].
    destruct (targetComponents_grouped mig files) as [_ Ht].
    destruct (Ht tf tfiles Htf) as [Hne Hm].
    destruct tfiles as [|rel rest]; [contradiction|].
    destruct (Hm rel (or_introl eq_refl)) as (Hdir & node & Hnode & Hk).
    exists rel, node. unfold keepTarget in Hk. cbn [fst snd] in Hk.
    apply andb_true_iff in Hk as [H1 H2]. rewrite Hdir. repeat split; auto.
Qed.

Lemma fold_add_keeps l : forall acc (x : string),
  In x acc -> In x (fold_left Js.add l acc).
Proof.
  induction l as [|a l IH]; intros acc x Hx; [exact Hx|].
  simpl. apply IH. apply In_add. now left.
Qed.

Lemma dedupe_nil (events : list string) :
  fold_left Js.add events [] = [] <-> events = [].
Proof.
  split; [|intros ->; reflexivity].
  destruct events as [|x events]; [reflexivity|]. simpl. intros H.
  assert (Hin : In x (fold_left Js.add events (Js.add [] x)))
    by (apply fold_add_keeps; now left).
  rewrite H in Hin. contradiction.
Qed.

(** X27: the status of a migration entry is a function of its three
    other findings: unmigrated without a target, feature-flagged with a
    target and a non-empty flag, partial with a target, no flag and at
    least one bridge event, migrated otherwise; the second way to
    [partial] (a target that is not a target folder) is never taken. *)
Theorem migrationTracker_status migration conventionPaths files e :
  In e (migrationTracker flagsOf eventsOf migration conventionPaths files []) ->
  status e
  = match targetComponent e with
    | None => unmigrated
    | Some _ =>
        if Grouper.truthyOpt (featureFlag e) then feature_flagged
        else match bridgeEvents e with
             | [] => migrated
             | _ :: _ => partial
             end
    end.
Proof.
  intros H. apply tracker_entry in H
    as (mig & folder & members & _ & _ & _ & He).
  unfold entriesOf in He. cbn [fst snd] in He. cbv zeta in He.
  apply in_map_iff in He as (sourceFile & <- & _).
  cbn [status targetComponent featureFlag bridgeEvents]. unfold statusOf.
  destruct (matchTarget folder (Js.keys (targetComponents mig files)))
    as [tf|] eqn:Em; [|reflexivity].
  cbn [Grouper.truthyOpt]. destruct (Js.truthy tf); [|reflexivity].
  apply matchTarget_In, hasKey_true in Em. rewrite Em. cbn [andb].
  destruct (Grouper.truthyOpt _); [reflexivity|].
  pose proof (dedupe_nil (bridgeEventsOf eventsOf members)) as Hd.
  destruct (bridgeEventsOf eventsOf members) as [|ev evs].
  - reflexivity.
  - cbn [List.length Nat.ltb Nat.leb].
    destruct (fold_left Js.add (ev :: evs) []) as [|x xs]; [|reflexivity].
    destruct Hd as [Hd _]. specialize (Hd eq_refl). discriminate.
Qed.

End Tracker.

End MigrationFacts.


(* ================================================================== *)
(** * Bridge analyzer                                                  *)
(* ================================================================== *)

Section BridgeFacts.

Import Bridge.

(** The three shapes of a connection of one event. *)
Lemma connectionsOf_In sourceExts c name conn :
  In conn (connectionsOf sourceExts c name) ->
  eventName conn = name
  /\ ((issue conn = Some OrphanListener /\ isHealthy conn = false
       /\ filter (named name) (allEmitters c) = []
       /\ exists listener, In listener (allListenersOn c)
                           /\ event listener = name
                           /\ listenerFile conn = Some (occFile listener)
                           /\ listenerLine conn = Some (line listener))
      \/ (issue conn = Some OrphanEmitter /\ isHealthy conn = false
          /\ listenerFile conn = None
          /\ filter (named name) (allListenersOn c) = []
          /\ exists emitter, In emitter (allEmitters c)
                             /\ event emitter = name
                             /\ emitterFile conn = occFile emitter
                             /\ emitterLine conn = line emitter)
      \/ (exists emitter listener,
            In emitter (allEmitters c) /\ event emitter = name
            /\ In listener (allListenersOn c) /\ event listener = name
            /\ occFile emitter <> occFile listener
            /\ conn = pairOf sourceExts
                        (filter (named name) (allListenersOff c))
                        name emitter listener)).
Proof.
  unfold connectionsOf. cbv zeta.
  assert (Hn : forall l o, In o (filter (named name) l) -> In o l /\ event o = name).
  { intros l o Ho. apply filter_In in Ho as [Ho Hname].
    split; [exact Ho | now apply String.eqb_eq in Hname]. }
  destruct (filter (named name) (allEmitters c)) as [|e0 es] eqn:Ee;
    destruct (filter (named name) (allListenersOn c)) as [|l0 ls] eqn:El;
    cbn [List.length Nat.eqb Nat.ltb Nat.leb andb].
  - contradiction.
  - intros H. apply in_map_iff in H as (listener & <- & Hl).
    cbn [eventName issue isHealthy listenerFile listenerLine].
    split; [reflexivity|]. left. repeat split.
    rewrite <- El in Hl. apply Hn in Hl as [Hl1 Hl2]. now exists listener.
  - intros H. apply in_map_iff in H as (emitter & <- & He).
    cbn [eventName issue isHealthy listenerFile emitterFile emitterLine].
    split; [reflexivity|]. right. left. repeat split.
    rewrite <- Ee in He. apply Hn in He as [He1 He2]. now exists emitter.
  - intros H. apply in_flat_map in H as (emitter & He & H).
    apply in_flat_map in H as (listener & Hl & H).
    destruct (String.eqb (occFile emitter) (occFile listener)) eqn:E;
      [contradiction|].
    destruct H as [<-|[]]. split; [reflexivity|]. right. right.
    rewrite <- Ee in He. rewrite <- El in Hl.
    apply Hn in He as [He1 He2]. apply Hn in Hl as [Hl1 Hl2].
    exists emitter, listener. repeat split; auto.
    now apply String.eqb_neq.
Qed.

Lemma matchBridges_In sourceExts c conn :
  In conn (matchBridges sourceExts c []) ->
  exists name, In conn (connectionsOf sourceExts c name).
Proof.
  unfold matchBridges. cbn [app]. intros H.
  apply in_flat_map in H as (name & _ & H). now exists name.
Qed.

(** X28: a connection is healthy exactly when it has no issue; a healthy
    connection joins an emitter and a listener of two different files,
    and its listener either unsubscribes in its file or is in a file
    whose extension is neither a source extension nor [.vue]. *)
Theorem bridge_health sourceExts c conn :
  In conn (matchBridges sourceExts c []) ->
  (isHealthy conn = true <-> issue conn = None)
  /\ (isHealthy conn = true ->
      exists listenerFile0,
        listenerFile conn = Some listenerFile0
        /\ emitterFile conn <> listenerFile0
        /\ (hasUnsubscribe conn = true
            \/ (Js.has sourceExts (extOf listenerFile0) = false
                /\ extOf listenerFile0 <> ".vue"))).
Proof.
  intros H. apply matchBridges_In in H as [name H].
  apply connectionsOf_In in H as [_ H].
  destruct H as [(Hi & Hh & _)|[(Hi & Hh & _)|(e & l & _ & _ & _ & _ & Hne & ->)]].
  - rewrite Hi, Hh. split; [split; discriminate | discriminate].
  - rewrite Hi, Hh. split; [split; discriminate | discriminate].
  - unfold pairOf. cbv zeta.
    cbn [isHealthy issue listenerFile emitterFile hasUnsubscribe].
    destruct (existsb _ _) eqn:Eoff; cbn [negb].
    + split; [split; reflexivity|]. intros _. exists (occFile l).
      repeat split; auto.
    + destruct (Js.has sourceExts (extOf (occFile l))) eqn:Es;
        destruct (String.eqb (extOf (occFile l)) ".vue") eqn:Ev;
        cbn [orb negb];
        try (split; [split; discriminate | discriminate]).
      split; [split; reflexivity|]. intros _. exists (occFile l).
      repeat split; auto. right. split; [exact Es|].
      now apply String.eqb_neq.
Qed.

Section Collected.

Variable codeContent : FileNode -> string.
Variable extractEventEmits : string -> list (string * nat).
Variable extractEventListeners : string -> list Listener.

(** Where an occurrence comes from. *)
Definition emittedIn (files : list (string * FileNode)) (o : Occurrence) : Prop :=
  exists node, In (occFile o, node) files /\ isAsset node = false
               /\ codeContent node <> ""
               /\ In (event o, line o) (extractEventEmits (codeContent node)).

Definition listenedIn (files : list (string * FileNode)) (o : Occurrence) : Prop :=
  exists node l, In (occFile o, node) files /\ isAsset node = false
                 /\ codeContent node <> ""
                 /\ In l (extractEventListeners (codeContent node))
                 /\ isOn l = true
                 /\ listenerEvent l = event o /\ listenerAt l = line o.

Definition collectedOk (files : list (string * FileNode)) (c : Collected) : Prop :=
  (forall o, In o (allEmitters c) -> emittedIn files o)
  /\ (forall o, In o (allListenersOn c) -> listenedIn files o).

Lemma collectListener_fold files rel node ls : forall acc,
  In (rel, node) files -> isAsset node = false -> codeContent node <> "" ->
  incl ls (extractEventListeners (codeContent node)) ->
  collectedOk files acc ->
  collectedOk files (fold_left (collectListener rel) ls acc).
Proof.
  induction ls as [|l ls IH]; intros acc Hin Ha Hc Hincl Hacc; [exact Hacc|].
  cbn [fold_left]. apply IH; auto; [intros x Hx; apply Hincl; now right|].
  destruct Hacc as [He Hl]. unfold collectListener.
  destruct (isOn l) eqn:Eon; split; cbn [allEmitters allListenersOn]; auto.
  intros o Ho. apply in_app_or in Ho as [Ho|[<-|[]]]; [now apply Hl|].
  exists node, l. cbn [occFile event line]. repeat split; auto.
  apply Hincl. now left.
Qed.

Lemma collect_ok files :
  collectedOk files
    (collect codeContent extractEventEmits extractEventListeners files).
Proof.
  unfold collect.
  assert (H : forall l, incl l files -> forall acc,
             collectedOk files acc ->
             collectedOk files
               (fold_left (collectFile codeContent extractEventEmits
                             extractEventListeners) l acc)).
  { induction l as [|[rel node] l IH]; intros Hincl acc Hacc; [exact Hacc|].
    cbn [fold_left]. apply IH; [intros x Hx; apply Hincl; now right|].
    unfold collectFile. cbn [fst snd].
    destruct (isAsset node) eqn:Ea; [exact Hacc|].
    destruct (Js.truthy (codeContent node)) eqn:Et; [|exact Hacc].
    cbn [negb].
    assert (Hne : codeContent node <> "").
    { intros E. rewrite E in Et. discriminate. }
    assert (Hin : In (rel, node) files) by (apply Hincl; now left).
    apply (@collectListener_fold files rel node); auto; [apply incl_refl|].
    destruct Hacc as [He Hl]. split; cbn [allEmitters allListenersOn]; auto.
    intros o Ho. apply in_app_or in Ho as [Ho|Ho]; [now apply He|].
    apply in_map_iff in Ho as ([ev ln] & <- & Ho).
    exists node. cbn [occFile event line fst snd]. repeat split; auto. }
  apply H; [apply incl_refl|]. split; intros o [].
Qed.

(** X29: the listener of a connection is an [on] listener found in an
    indexed file that is neither JSON nor CSS, for the event of the
    connection and at the reported line; so is its emitter unless the
    connection is an orphan listener (which is reported only when no
    emitter of the event exists); and a connection has no listener
    exactly when it is an orphan emitter. *)
Theorem bridgeAnalyzer_sound sourceExts files conn :
  In conn (bridgeAnalyzer codeContent extractEventEmits extractEventListeners
             sourceExts files []) ->
  (forall lf, listenerFile conn = Some lf ->
     exists node l,
       In (lf, node) files /\ isAsset node = false
       /\ In l (extractEventListeners (codeContent node))
       /\ isOn l = true /\ listenerEvent l = eventName conn
       /\ listenerLine conn = Some (listenerAt l))
  /\ (issue conn <> Some OrphanListener ->
      exists node,
        In (emitterFile conn, node) files /\ isAsset node = false
        /\ In (eventName conn, emitterLine conn)
              (extractEventEmits (codeContent node)))
  /\ (listenerFile conn = None <-> issue conn = Some OrphanEmitter).
Proof.
  unfold bridgeAnalyzer. intros H.
  destruct (collect_ok files) as [He Hl].
  set (c := collect codeContent extractEventEmits extractEventListeners files) in *.
  apply matchBridges_In in H as [name H].
  apply connectionsOf_In in H as [Hname H].
  destruct H as [(Hi & _ & _ & l & Hin & Hev & Hf & Hline)
                |[(Hi & _ & Hnone & _ & e & Hin & Hev & Hf & Hline)
                 |(e & l & Hine & Heve & Hinl & Hevl & _ & Hconn)]].
  - destruct (Hl l Hin) as (node & r & H1 & H2 & _ & H4 & H5 & H6 & H7).
    split; [|split].
    + intros lf Hlf. rewrite Hf in Hlf. injection Hlf as <-.
      exists node, r. rewrite Hline, H7, H6, Hev, Hname. repeat split; auto.
    + intros Hno. congruence.
    + rewrite Hf, Hi. split; discriminate.
  - destruct (He e Hin) as (node & H1 & H2 & _ & H4).
    split; [|split].
    + intros lf Hlf. congruence.
    + intros _. exists node. rewrite Hf, Hline, Hname, <- Hev.
      repeat split; auto.
    + rewrite Hnone, Hi. split; reflexivity.
  - destruct (He e Hine) as (node & H1 & H2 & _ & H4).
    destruct (Hl l Hinl) as (node' & r & G1 & G2 & _ & G4 & G5 & G6 & G7).
    subst conn. unfold pairOf. cbv zeta.
    cbn [listenerFile listenerLine emitterFile emitterLine eventName issue].
    split; [|split].
    + intros lf [= <-]. exists node', r. rewrite G7, G6, Hevl.
      repeat split; auto.
    + intros _. exists node. rewrite <- Heve. repeat split; auto.
    + split; [discriminate|].
      destruct (negb _); [destruct (_ || _)|]; discriminate.
Qed.

End Collected.

End BridgeFacts.


(* ================================================================== *)
(** * More instances                                                   *)
(* ================================================================== *)

Section MoreInstances.

Definition cartKeys : list string :=
  ["src/cart/a.ts"; "src/cart/a.test.ts"; "src/cart/b.ts"].

Lemma cartKeys_NoDup : NoDup cartKeys.
Proof.
  unfold cartKeys.
  repeat (constructor; [simpl; intuition discriminate|]). constructor.
Qed.

(** ** Duplication analyzer *)

Lemma duplications_sound_witness :
  exists m, In m (Duplication.duplications sampleIndex) /\ backedBy sampleIndex m.
Proof.
  destruct (Duplication.duplications sampleIndex) as [|m rest] eqn:E;
    [vm_compute in E; discriminate|].
  exists m. split; [now left|].
  apply (@duplications_sound sampleIndex m). rewrite E. now left.
Defined.

Definition sampleLines : list string :=
  ["export function cartTotal(items) {";
   "  let total = 0;";
   "  for (const item of items) {";
   "    total = total + item.price * item.quantity;";
   "  }";
   "  const rounded = Math.round(total * 100) / 100;";
   "  return rounded;";
   "}"].

(** Two files with the same eight lines; the digest is the identity. *)
Definition sampleCode (fileNode : FileNode) : string :=
  Js.join Duplication.newline sampleLines.

Definition sampleDigest (chunk : string) : string := chunk.

Definition twinFiles : list (string * FileNode) :=
  [sourceFile "src/cart/a.ts"; sourceFile "src/cart/b.ts"].

Lemma duplicationAnalyzer_windows_witness :
  exists m,
    In m (Duplication.duplicationAnalyzer sampleDigest sampleCode twinFiles)
    /\ (scanned sampleDigest sampleCode twinFiles (Duplication.hash m)
          {| Duplication.entryFile := Duplication.fileA m;
             Duplication.lineStart := Duplication.lineStartA m;
             Duplication.entrySnippet := Duplication.snippet m |}
        /\ exists snippetB,
             scanned sampleDigest sampleCode twinFiles (Duplication.hash m)
               {| Duplication.entryFile := Duplication.fileB m;
                  Duplication.lineStart := Duplication.lineStartB m;
                  Duplication.entrySnippet := snippetB |}).
Proof.
  destruct (Duplication.duplicationAnalyzer sampleDigest sampleCode twinFiles)
    as [|m rest] eqn:E; [vm_compute in E; discriminate|].
  exists m. split; [now left|].
  apply (@duplicationAnalyzer_windows sampleDigest sampleCode twinFiles m).
  rewrite E. now left.
Defined.

(** ** Feature grouper *)

Lemma featureGrouper_covers_witness :
  In "src/cart/a.ts" cartKeys
  /\ exists F, In F (Grouper.featureGrouper None cartKeys [] true [])
               /\ In "src/cart/a.ts" (Grouper.files F).
Proof.
  split; [now left|].
  apply (@featureGrouper_covers None cartKeys [] true [] "src/cart/a.ts").
  now left.
Defined.

Definition cartGraph : list ImportEdge :=
  [plainEdge "src/cart/b.ts" "src/cart/a.ts"].

Lemma featureGrouper_members_indexed_witness :
  (forall e, In e cartGraph -> In (target e) cartKeys)
  /\ forall F f, In F (Grouper.featureGrouper None cartKeys cartGraph true []) ->
                 In f (Grouper.files F) -> In f cartKeys.
Proof.
  assert (H : forall e, In e cartGraph -> In (target e) cartKeys)
    by (intros e [<-|[]]; now left).
  split; [exact H|].
  exact (@featureGrouper_members_indexed None cartKeys cartGraph true [] H).
Defined.

Lemma featureGrouper_partition_witness :
  Grouper.pagesDirsOf None = [] /\ NoDup cartKeys /\ In "src/cart/b.ts" cartKeys
  /\ exists F, In F (Grouper.featureGrouper None cartKeys cartGraph true [])
               /\ In "src/cart/b.ts" (Grouper.files F)
               /\ NoDup (Grouper.files F)
               /\ forall G, In G (Grouper.featureGrouper None cartKeys cartGraph
                                    true []) ->
                            In "src/cart/b.ts" (Grouper.files G) -> G = F.
Proof.
  assert (Hin : In "src/cart/b.ts" cartKeys) by (right; right; now left).
  split; [reflexivity|]. split; [exact cartKeys_NoDup|]. split; [exact Hin|].
  exact (@featureGrouper_partition None cartKeys cartGraph true []
           "src/cart/b.ts" eq_refl cartKeys_NoDup Hin).
Defined.

Definition pageKeys : list string := ["pages/checkout.vue"].

Lemma signal2_members_unchanged_witness :
  exists F,
    Js.get (Grouper.featureMap (Grouper.signal1 nuxtConfig pageKeys Grouper.initial))
           "checkout.vue" = Some F
    /\ exists F',
         Js.get (Grouper.featureMap
                   (Grouper.signal2 nuxtConfig pageKeys
                      (Grouper.signal1 nuxtConfig pageKeys Grouper.initial)))
                "checkout.vue" = Some F'
         /\ Grouper.files F' = Grouper.files F
         /\ Grouper.id F' = Grouper.id F.
Proof.
  destruct (Js.get (Grouper.featureMap
                      (Grouper.signal1 nuxtConfig pageKeys Grouper.initial))
                   "checkout.vue") as [F|] eqn:E;
    [|vm_compute in E; discriminate].
  exists F. split; [reflexivity|].
  exact (@signal2_members_unchanged nuxtConfig pageKeys
           (Grouper.signal1 nuxtConfig pageKeys Grouper.initial)
           "checkout.vue" F E).
Defined.

Lemma signal2_reindexes_to_new_clusters_witness :
  Js.get (Grouper.fileToFeature
            (Grouper.signal2 nuxtConfig pageKeys
               (Grouper.signal1 nuxtConfig pageKeys Grouper.initial)))
         "pages/checkout.vue" = Some "checkout"
  /\ (Js.get (Grouper.fileToFeature
                (Grouper.signal1 nuxtConfig pageKeys Grouper.initial))
             "pages/checkout.vue" = Some "checkout"
      \/ ~ In "checkout"
              (Js.keys (Grouper.featureMap
                          (Grouper.signal1 nuxtConfig pageKeys Grouper.initial)))).
Proof.
  split; [reflexivity|].
  apply (@signal2_reindexes_to_new_clusters nuxtConfig pageKeys
           (Grouper.signal1 nuxtConfig pageKeys Grouper.initial)
           "pages/checkout.vue" "checkout").
  reflexivity.
Defined.

Lemma detectFeatureFromRoute_name_witness :
  Grouper.detectFeatureFromRoute "pages/checkout.vue" "pages/" = Some "checkout"
  /\ ("checkout" <> "" /\ "checkout" <> "index"
      /\ Js.startsWith "checkout" "_" = false
      /\ Js.startsWith "checkout" "." = false
      /\ Js.includes "checkout" "/" = false).
Proof.
  split; [reflexivity|].
  apply (@detectFeatureFromRoute_name "pages/checkout.vue" "pages/" "checkout").
  reflexivity.
Defined.

Lemma detectFeatureFromPath_name_witness :
  Grouper.detectFeatureFromPath "src/cart/a.ts" None = Some "cart"
  /\ (In "cart" (Js.split "/" "src/cart/a.ts")
      /\ Js.has Grouper.SHARED_DIRS (Js.toLowerCase "cart") = false
      /\ Js.startsWith "cart" "." = false).
Proof.
  split; [reflexivity|].
  apply (@detectFeatureFromPath_name "src/cart/a.ts" None "cart").
  reflexivity.
Defined.

(** ** Quality analyzer *)

Lemma testCoverageScore_all_or_nothing_witness :
  (Z.of_nat (List.length cartKeys) < 2 ^ 53)%Z
  /\ Quality.testCoverageScore cartKeys
     = if existsb Quality.isSpecOrTest cartKeys then 10%Z else 0%Z.
Proof.
  split; [reflexivity|].
  apply (@testCoverageScore_all_or_nothing cartKeys). reflexivity.
Defined.

(** ** Impact analyzer *)

Lemma impactAnalyzer_one_record_per_file_witness :
  NoDup (Js.keys (storeFiles sampleStore))
  /\ (NoDup (map Impact.file (Impact.impactAnalyzer sampleStore []))
      /\ Permutation (Impact.impactAnalyzer sampleStore [])
           (map (fun entry => Impact.nodeOf sampleStore (fst entry))
                (filter (emitted sampleStore) (storeFiles sampleStore)))).
Proof.
  split; [exact cartKeys_NoDup|].
  exact (@impactAnalyzer_one_record_per_file sampleStore cartKeys_NoDup).
Defined.

Lemma featureCount_one_without_routes_witness :
  features sampleStore = Grouper.featureGrouper None cartKeys [] true []
  /\ Grouper.pagesDirsOf None = [] /\ NoDup cartKeys
  /\ In "src/cart/a.ts" cartKeys
  /\ Impact.featureCountOf sampleStore "src/cart/a.ts" = 1%nat.
Proof.
  assert (Hin : In "src/cart/a.ts" cartKeys) by now left.
  split; [reflexivity|]. split; [reflexivity|].
  split; [exact cartKeys_NoDup|]. split; [exact Hin|].
  exact (@featureCount_one_without_routes sampleStore None cartKeys [] true []
           "src/cart/a.ts" eq_refl eq_refl cartKeys_NoDup Hin).
Defined.

(** ** Repo indexer *)

Lemma resolveImportPath_indexed_witness :
  Indexer.resolveImportPath "./b" "src/cart/a.ts" cartKeys [] = Some "src/cart/b.ts"
  /\ (In "src/cart/b.ts" cartKeys
      /\ (Js.startsWith "./b" "." = true
          \/ Js.startsWith "./b" "/" = true
          \/ exists alias, In alias (Js.keys (@nil (string * string)))
                           /\ Js.startsWith "./b" (Js.stripTrailingSlash alias)
                              = true)).
Proof.
  split; [reflexivity|].
  apply (@resolveImportPath_indexed "./b" "src/cart/a.ts" cartKeys []
           "src/cart/b.ts").
  reflexivity.
Defined.

(** The file [b.ts] imports [./a]; no other file imports anything. *)
Definition sampleImports (rel : string) (fileNode : FileNode) : list ImportEdge :=
  if String.eqb rel "src/cart/b.ts" then [plainEdge rel "./a"] else [].

Lemma featureGrouper_members_of_index_witness :
  exists F f,
    In F (Grouper.featureGrouper None (Js.keys (storeFiles sampleStore))
            (Indexer.buildImportGraph sampleImports (storeFiles sampleStore) [] [])
            true [])
    /\ In f (Grouper.files F)
    /\ In f (Js.keys (storeFiles sampleStore)).
Proof.
  destruct (@featureGrouper_covers_aux None (Js.keys (storeFiles sampleStore))
              (Indexer.buildImportGraph sampleImports (storeFiles sampleStore) [] [])
              true [] "src/cart/a.ts" (or_introl eq_refl))
    as (F & HF & Hin).
  exists F, "src/cart/a.ts". split; [exact HF|]. split; [exact Hin|].
  exact (@featureGrouper_members_of_index sampleImports (storeFiles sampleStore)
           [] None true [] F "src/cart/a.ts" HF Hin).
Defined.

Definition workspace : list DetectedPackage :=
  [ {| dir := "packages"; framework := "unknown" |};
    {| dir := "packages/web"; framework := "react" |} ].

Lemma detectPackage_deepest_witness :
  In {| dir := "packages"; framework := "unknown" |} workspace
  /\ contains "packages/web/src/App.tsx"
              {| dir := "packages"; framework := "unknown" |}
  /\ exists best,
       In best workspace
       /\ detectPackage "packages/web/src/App.tsx" (Some workspace) = dir best
       /\ contains "packages/web/src/App.tsx" best
       /\ forall other, In other workspace ->
            contains "packages/web/src/App.tsx" other ->
            (String.length (dir other) <= String.length (dir best))%nat.
Proof.
  assert (Hc : contains "packages/web/src/App.tsx"
                        {| dir := "packages"; framework := "unknown" |})
    by (split; [discriminate | reflexivity]).
  split; [now left|]. split; [exact Hc|].
  exact (@detectPackage_deepest "packages/web/src/App.tsx" workspace
           {| dir := "packages"; framework := "unknown" |}
           (or_introl eq_refl) Hc).
Defined.

Lemma detectPackage_fallback_witness :
  (forall pkg, In pkg workspace -> ~ contains "src/App.tsx" pkg)
  /\ detectPackage "src/App.tsx" (Some workspace) = "src".
Proof.
  assert (H : forall pkg, In pkg workspace -> ~ contains "src/App.tsx" pkg)
    by (intros pkg [<-|[<-|[]]] [_ Hs]; discriminate).
  split; [exact H|].
  rewrite (@detectPackage_fallback "src/App.tsx" workspace H). reflexivity.
Defined.

(** ** Auto-detection *)

Definition nuxtProject : ProjectConfig :=
  {| packages := [ {| dir := "."; framework := "nuxt" |} ];
     aliases := [];
     conventionPaths := ["pages/"; "layouts/"; "store/"] |}.

(** The directories [pages], [layouts] and [store] exist. *)
Definition nuxtDirs (pkgDir d : string) : bool :=
  String.eqb d "pages" || String.eqb d "layouts" || String.eqb d "store".

Lemma route_directories_of_detected_config_witness :
  conventionPaths nuxtProject
  = AutoDetect.discoverConventionPaths nuxtDirs (packages nuxtProject)
  /\ In "pages/" (Grouper.pagesDirsOf (Some nuxtProject))
  /\ exists pkg d,
       In pkg (packages nuxtProject)
       /\ In d (AutoDetect.conventionDirs (framework pkg)) /\ In d routeDirs
       /\ nuxtDirs (dir pkg) d = true
       /\ "pages/" = AutoDetect.prefixOf pkg ++ d ++ "/".
Proof.
  assert (Hin : In "pages/" (Grouper.pagesDirsOf (Some nuxtProject)))
    by now left.
  split; [reflexivity|]. split; [exact Hin|].
  exact (@route_directories_of_detected_config nuxtDirs nuxtProject "pages/"
           eq_refl Hin).
Defined.

Definition reactProject : ProjectConfig :=
  {| packages := [ {| dir := "."; framework := "react" |} ];
     aliases := [];
     conventionPaths := [] |}.

Definition noDirs (pkgDir d : string) : bool := false.

Lemma featureGrouper_partition_of_detected_config_witness :
  conventionPaths reactProject
  = AutoDetect.discoverConventionPaths noDirs (packages reactProject)
  /\ (forall pkg d, In pkg (packages reactProject) -> In d routeDirs ->
                    noDirs (dir pkg) d = false)
  /\ NoDup cartKeys /\ In "src/cart/a.ts" cartKeys
  /\ exists F,
       In F (Grouper.featureGrouper (Some reactProject) cartKeys cartGraph true [])
       /\ In "src/cart/a.ts" (Grouper.files F) /\ NoDup (Grouper.files F)
       /\ forall G,
            In G (Grouper.featureGrouper (Some reactProject) cartKeys cartGraph
                    true []) ->
            In "src/cart/a.ts" (Grouper.files G) -> G = F.
Proof.
  assert (Hin : In "src/cart/a.ts" cartKeys) by now left.
  assert (Hno : forall pkg d, In pkg (packages reactProject) -> In d routeDirs ->
                              noDirs (dir pkg) d = false)
    by reflexivity.
  split; [reflexivity|]. split; [exact Hno|].
  split; [exact cartKeys_NoDup|]. split; [exact Hin|].
  exact (@featureGrouper_partition_of_detected_config noDirs reactProject
           cartKeys cartGraph true [] "src/cart/a.ts" eq_refl Hno
           cartKeys_NoDup Hin).
Defined.

(** ** Git history *)

(** Two commits: the first touches [a.ts] and [b.ts], the second
    [a.ts] alone. *)
Definition sampleLog : string :=
  Js.join Duplication.newline
    ["COMMIT:abc123:Ann:2024-01-02T10:00:00+00:00";
     "src/cart/a.ts"; "src/cart/b.ts"; "";
     "COMMIT:def456:Bob:2024-01-03T09:30:00+00:00";
     "src/cart/a.ts"].

Definition sampleChurn : GitChurn :=
  {| churnFile := "src/cart/a.ts"; commitCount := 2; authorCount := 2;
     lastModified := "2024-01-03T09:30:00+00:00";
     coChangedWith := ["src/cart/b.ts"] |}.

Lemma getFileChurns_records_witness :
  Js.get (Git.getFileChurns sampleLog) "src/cart/a.ts" = Some sampleChurn
  /\ (churnFile sampleChurn = "src/cart/a.ts" /\ "src/cart/a.ts" <> ""
      /\ (1 <= commitCount sampleChurn)%nat
      /\ NoDup (coChangedWith sampleChurn)
      /\ ~ In "src/cart/a.ts" (coChangedWith sampleChurn)
      /\ (List.length (coChangedWith sampleChurn) <= 50)%nat
      /\ forall other, In other (coChangedWith sampleChurn) ->
                       Js.hasKey (Git.getFileChurns sampleLog) other = true).
Proof.
  assert (H : Js.get (Git.getFileChurns sampleLog) "src/cart/a.ts"
              = Some sampleChurn) by (vm_compute; reflexivity).
  split; [exact H|].
  exact (@getFileChurns_records sampleLog "src/cart/a.ts" sampleChurn H).
Defined.

(** ** Migration tracker *)

Definition fileWithExtension (rel ext : string) : string * FileNode :=
  (rel, {| path := "/repo/" ++ rel; relativePath := rel; extension := ext;
           loc := 40; language := vue; package := "root" |}).

Definition vueToReact : Migration.MigrationInfo :=
  {| Migration.detected := true;
     Migration.sourcePackages := ["legacy"];
     Migration.targetPackages := ["web"];
     Migration.sourceExtensions := [".vue"];
     Migration.targetExtensions := [".tsx"] |}.

Definition migratingFiles : list (string * FileNode) :=
  [fileWithExtension "legacy/components/cart/Cart.vue" ".vue";
   fileWithExtension "web/components/cart/Cart.tsx" ".tsx";
   fileWithExtension "legacy/components/menu/Menu.vue" ".vue"].

Definition noFlags (sourceFile : string) : list string := [].
Definition noEvents (sourceFile : string) : list string := [].

Definition cartEntry : Migration.MigrationEntry :=
  {| Migration.sourceComponent := "legacy/components/cart/Cart.vue";
     Migration.targetComponent := Some "web/components/cart/";
     Migration.featureFlag := None;
     Migration.bridgeEvents := [];
     Migration.status := Migration.migrated |}.

Lemma cartEntry_tracked :
  In cartEntry
     (Migration.migrationTracker noFlags noEvents (Some vueToReact) []
        migratingFiles []).
Proof. vm_compute. left. reflexivity. Qed.

Lemma migrationTracker_sound_witness :
  In cartEntry
     (Migration.migrationTracker noFlags noEvents (Some vueToReact) []
        migratingFiles [])
  /\ ((exists node,
          In (Migration.sourceComponent cartEntry, node) migratingFiles
          /\ Js.has (Migration.sourceExtensions vueToReact) (extension node) = true
          /\ Migration.inPackages (Migration.sourcePackages vueToReact)
               (Migration.sourceComponent cartEntry) = true
          /\ existsb (fun cp => Js.startsWith (Migration.sourceComponent cartEntry) cp)
                     [] = false)
      /\ forall t, Migration.targetComponent cartEntry = Some t ->
           exists rel node,
             In (rel, node) migratingFiles /\ t = Path.dirname rel ++ "/"
             /\ Js.has (Migration.targetExtensions vueToReact) (extension node)
                = true
             /\ Migration.inPackages (Migration.targetPackages vueToReact) rel
                = true).
Proof.
  split; [exact cartEntry_tracked|].
  exact (@migrationTracker_sound noFlags noEvents vueToReact [] migratingFiles
           cartEntry cartEntry_tracked).
Defined.

Lemma migrationTracker_status_witness :
  In cartEntry
     (Migration.migrationTracker noFlags noEvents (Some vueToReact) []
        migratingFiles [])
  /\ Migration.status cartEntry
     = match Migration.targetComponent cartEntry with
       | None => Migration.unmigrated
       | Some _ =>
           if Grouper.truthyOpt (Migration.featureFlag cartEntry)
           then Migration.feature_flagged
           else match Migration.bridgeEvents cartEntry with
                | [] => Migration.migrated
                | _ :: _ => Migration.partial
                end
       end.
Proof.
  split; [exact cartEntry_tracked|].
  exact (@migrationTracker_status noFlags noEvents (Some vueToReact) []
           migratingFiles cartEntry cartEntry_tracked).
Defined.

(** ** Bridge analyzer *)

(** [a.ts] emits [cart:add] at line 3 and [b.ts] listens to it at
    line 7; the code of a file stands for its path. *)
Definition bridgeFiles : list (string * FileNode) :=
  [sourceFile "src/a.ts"; sourceFile "src/b.ts"].

Definition sampleEmits (code : string) : list (string * nat) :=
  if String.eqb code "/repo/src/a.ts" then [("cart:add", 3%nat)] else [].

Definition sampleListeners (code : string) : list Bridge.Listener :=
  if String.eqb code "/repo/src/b.ts"
  then [ {| Bridge.listenerEvent := "cart:add"; Bridge.listenerAt := 7;
            Bridge.isOn := true |} ]
  else [].

Definition cartConnection : Bridge.BridgeConnection :=
  {| Bridge.eventName := "cart:add";
     Bridge.emitterFile := "src/a.ts"; Bridge.emitterLine := 3;
     Bridge.listenerFile := Some "src/b.ts"; Bridge.listenerLine := Some 7%nat;
     Bridge.hasUnsubscribe := false; Bridge.isHealthy := true;
     Bridge.issue := None |}.

Lemma cartConnection_reported :
  In cartConnection
     (Bridge.bridgeAnalyzer path sampleEmits sampleListeners [] bridgeFiles []).
Proof. vm_compute. left. reflexivity. Qed.

Lemma bridge_health_witness :
  In cartConnection
     (Bridge.matchBridges []
        (Bridge.collect path sampleEmits sampleListeners bridgeFiles) [])
  /\ ((Bridge.isHealthy cartConnection = true <-> Bridge.issue cartConnection = None)
      /\ (Bridge.isHealthy cartConnection = true ->
          exists listenerFile0,
            Bridge.listenerFile cartConnection = Some listenerFile0
            /\ Bridge.emitterFile cartConnection <> listenerFile0
            /\ (Bridge.hasUnsubscribe cartConnection = true
                \/ (Js.has [] (Bridge.extOf listenerFile0) = false
                    /\ Bridge.extOf listenerFile0 <> ".vue")))).
Proof.
  split; [exact cartConnection_reported|].
  exact (@bridge_health []
           (Bridge.collect path sampleEmits sampleListeners bridgeFiles)
           cartConnection cartConnection_reported).
Defined.

Lemma bridgeAnalyzer_sound_witness :
  In cartConnection
     (Bridge.bridgeAnalyzer path sampleEmits sampleListeners [] bridgeFiles [])
  /\ ((forall lf, Bridge.listenerFile cartConnection = Some lf ->
         exists node l,
           In (lf, node) bridgeFiles /\ isAsset node = false
           /\ In l (sampleListeners (path node))
           /\ Bridge.isOn l = true
           /\ Bridge.listenerEvent l = Bridge.eventName cartConnection
           /\ Bridge.listenerLine cartConnection = Some (Bridge.listenerAt l))
      /\ (Bridge.issue cartConnection <> Some Bridge.OrphanListener ->
          exists node,
            In (Bridge.emitterFile cartConnection, node) bridgeFiles
            /\ isAsset node = false
            /\ In (Bridge.eventName cartConnection, Bridge.emitterLine cartConnection)
                  (sampleEmits (path node)))
      /\ (Bridge.listenerFile cartConnection = None
          <-> Bridge.issue cartConnection = Some Bridge.OrphanEmitter)).
Proof.
  split; [exact cartConnection_reported|].
  exact (@bridgeAnalyzer_sound path sampleEmits sampleListeners [] bridgeFiles
           cartConnection cartConnection_reported).
Defined.

End MoreInstances.

Example dirname_ex1 : Path.dirname "src/a/b.ts" = "src/a".
Proof. reflexivity. Qed.
Example dirname_ex2 : Path.dirname "b.ts" = ".".
Proof. reflexivity. Qed.
Example dirname_ex3 : Path.dirname "/b.ts" = "/".
Proof. reflexivity. Qed.
Example dirname_ex4 : Path.dirname "a//b" = "a/".
Proof. reflexivity. Qed.
Example dirname_ex5 : Path.dirname "a/b/" = "a".
Proof. reflexivity. Qed.
Example join_ex1 : Path.join "src/a" "../b/./c" = "src/b/c".
Proof. reflexivity. Qed.
Example join_ex2 : Path.join "." "../x" = "../x".
Proof. reflexivity. Qed.
Example join_ex3 : Path.join "src" "./foo/" = "src/foo/".
Proof. reflexivity. Qed.
Example basename_ex1 : Path.basename "src/a/b.test.ts" = "b.test.ts".
Proof. reflexivity. Qed.
Example strip_ex1 : Js.stripExtension "a.b.c" = "a.b".
Proof. reflexivity. Qed.
Example strip_ex2 : Js.stripExtension "a.b." = "a.b.".
Proof. reflexivity. Qed.
Example replace_ex1 : Js.replace "@/x/@/y" "@" "src" = "src/x/@/y".
Proof. reflexivity. Qed.
Example replace_ex2 : Js.replace "a.spec.ts" ".spec." "." = "a.ts".
Proof. reflexivity. Qed.
Example split_ex1 : Js.split "/" "a//b/" = ["a"; ""; "b"; ""].
Proof. reflexivity. Qed.
Example trim_ex1 : Js.trim "  a b  " = "a b".
Proof. reflexivity. Qed.
Example resolve_ex1 :
  Indexer.resolveImportPath "./foo" "src/a.ts" ["src/foo/index.svelte"] [] = None.
Proof. reflexivity. Qed.
Example resolve_ex2 :
  Indexer.resolveImportPath "@/foo" "src/a.ts" ["lib/foo/index.vue"] [("@/", "lib/")]
  = Some "lib/foo/index.vue".
Proof. reflexivity. Qed.

